(** * Aniview: baking + interpolation pipeline, layout engine and gesture machine

    A shallow embedding of the TypeScript sources of the Aniview animation
    engine (Aniview.tsx, aniviewConfig.tsx, aniviewProvider.tsx,
    core/AniviewMath.ts, core/AniviewLock.ts) together with the properties
    stated about them.

    Numbers.  A JavaScript number is modelled by [num]: the three IEEE
    special values NaN, +Infinity, -Infinity, and the finite values as exact
    rationals.  Arithmetic on finite values is exact (binary64 rounding and
    the sign of zero are not modelled); the propagation of NaN and of the
    infinities through [+ - * /], the comparisons and [Math.min]/[Math.max]
    follows IEEE 754 / ECMAScript.  An out-of-range array read ([undefined]
    in the source) is modelled by [NaN] wherever the source uses the value
    in arithmetic or in a comparison, which is what [undefined] coerces to.

    Rounding.  A statement about [num] values is written with the
    operations of the source in their order, so that it reads the same in
    binary64; where rounding or overflow decides a property (a progress
    that reaches 1, a threshold that overflows) the property says so, and
    module [F64] evaluates the source in binary64 itself
    (Stdlib's [SpecFloat]).

    Objects.  An object used as a dictionary is a [gmap] of its own
    properties; where the source reads a name through the prototype chain
    ([Js.inherited]) the embedding says what the source does there. *)

From Stdlib Require Import ZArith QArith Qabs Qround Lqa Lia Bool.
From Stdlib Require Import String Ascii List.
From Stdlib Require Floats.SpecFloat.
From stdpp Require Import base option list strings pretty sorting gmap.

Local Open Scope Q_scope.

(* ===================================================================== *)
(** * Part I. The embedding                                               *)
(* ===================================================================== *)

(** ** JavaScript numbers *)

Inductive num : Type :=
| NaN
| PInf
| NInf
| Fin (q : Q).

Module Num.

Definition Qltb (a b : Q) : bool := negb (Qle_bool b a).

Definition Qsgn (a : Q) : Z := Z.sgn (Qnum a).

Definition zero : num := Fin 0.
Definition one : num := Fin 1.

Definition isNaN (a : num) : bool :=
  match a with NaN => true | _ => false end.

Definition isFinite (a : num) : bool :=
  match a with Fin _ => true | _ => false end.

(** [!a] is [negb (truthy a)]; [a || b] is [if truthy a then a else b]. *)
Definition truthy (a : num) : bool :=
  match a with
  | NaN => false
  | Fin q => negb (Qeq_bool q 0)
  | _ => true
  end.

Definition neg (a : num) : num :=
  match a with
  | NaN => NaN
  | PInf => NInf
  | NInf => PInf
  | Fin q => Fin (- q)
  end.

Definition add (a b : num) : num :=
  match a, b with
  | NaN, _ | _, NaN => NaN
  | PInf, NInf | NInf, PInf => NaN
  | PInf, _ | _, PInf => PInf
  | NInf, _ | _, NInf => NInf
  | Fin x, Fin y => Fin (x + y)
  end.

Definition sub (a b : num) : num := add a (neg b).

(** Sign-directed infinity; NaN when the sign is zero (0 * Infinity). *)
Definition inf_of_sign (s : Z) : num :=
  match s with
  | Z0 => NaN
  | Zpos _ => PInf
  | Zneg _ => NInf
  end.

Definition sgn (a : num) : Z :=
  match a with
  | NaN => 0%Z
  | PInf => 1%Z
  | NInf => (-1)%Z
  | Fin q => Qsgn q
  end.

Definition mul (a b : num) : num :=
  match a, b with
  | NaN, _ | _, NaN => NaN
  | Fin x, Fin y => Fin (x * y)
  | _, _ => inf_of_sign (sgn a * sgn b)
  end.

(** Division.  A finite non-zero value over zero is an infinity of the
    dividend's sign (the divisor is taken as +0), [0/0] is NaN. *)
Definition div (a b : num) : num :=
  match a, b with
  | NaN, _ | _, NaN => NaN
  | Fin x, Fin y =>
      if Qeq_bool y 0 then inf_of_sign (Qsgn x) else Fin (x / y)
  | Fin _, _ => Fin 0
  | _, Fin y => if Qeq_bool y 0 then a else inf_of_sign (sgn a * Qsgn y)
  | _, _ => NaN
  end.

Definition abs (a : num) : num :=
  match a with
  | NaN => NaN
  | PInf | NInf => PInf
  | Fin q => Fin (Qabs q)
  end.

(** Comparisons: every comparison with NaN is [false]. *)
Definition ltb (a b : num) : bool :=
  match a, b with
  | NaN, _ | _, NaN => false
  | _, NInf => false
  | NInf, _ => true
  | PInf, _ => false
  | _, PInf => true
  | Fin x, Fin y => Qltb x y
  end.

Definition leb (a b : num) : bool :=
  match a, b with
  | NaN, _ | _, NaN => false
  | NInf, _ => true
  | _, PInf => true
  | _, NInf => false
  | PInf, _ => false
  | Fin x, Fin y => Qle_bool x y
  end.

Definition gtb (a b : num) : bool := ltb b a.
Definition geb (a b : num) : bool := leb b a.

(** Strict equality [===] on numbers. *)
Definition eqb (a b : num) : bool :=
  match a, b with
  | PInf, PInf | NInf, NInf => true
  | Fin x, Fin y => Qeq_bool x y
  | _, _ => false
  end.

(** [Math.min] and [Math.max] of two arguments. *)
Definition min (a b : num) : num :=
  match a, b with
  | NaN, _ | _, NaN => NaN
  | _, _ => if leb a b then a else b
  end.

Definition max (a b : num) : num :=
  match a, b with
  | NaN, _ | _, NaN => NaN
  | _, _ => if leb a b then b else a
  end.

Definition floor (a : num) : num :=
  match a with
  | Fin q => Fin (inject_Z (Qfloor q))
  | _ => a
  end.

(** [Math.round]: nearest integer, halves towards +Infinity. *)
Definition round (a : num) : num := floor (add a (Fin (1 # 2))).

Definition ofZ (z : Z) : num := Fin (inject_Z z).

(** [a || b] on numbers: [b] when [a] is 0 or NaN. *)
Definition or (a b : num) : num := if truthy a then a else b.

(** Truncation towards zero. *)
Definition Qtrunc (q : Q) : Z :=
  if Qle_bool 0 q then Qfloor q else Qceiling q.

(** The remainder operator [a % b]: the result has the sign of the
    dividend. *)
Definition rem (a b : num) : num :=
  match a, b with
  | Fin x, Fin y =>
      if Qeq_bool y 0 then NaN else Fin (x - y * inject_Z (Qtrunc (x / y)))
  | Fin _, (PInf | NInf) => a
  | _, _ => NaN
  end.

(** [Math.pow(a, 2)]. *)
Definition sq (a : num) : num := mul a a.

(** Propositional readings used in statements. *)
Definition eq (a b : num) : Prop :=
  match a, b with
  | NaN, NaN | PInf, PInf | NInf, NInf => True
  | Fin x, Fin y => x == y
  | _, _ => False
  end.

Definition lt (a b : num) : Prop := ltb a b = true.
Definition le (a b : num) : Prop := leb a b = true.

End Num.

Declare Scope num_scope.
Delimit Scope num_scope with num.
Bind Scope num_scope with num.
Infix "+" := Num.add : num_scope.
Infix "-" := Num.sub : num_scope.
Infix "*" := Num.mul : num_scope.
Infix "/" := Num.div : num_scope.
Infix "<?" := Num.ltb : num_scope.
Infix "<=?" := Num.leb : num_scope.
Infix ">?" := Num.gtb : num_scope.
Infix ">=?" := Num.geb : num_scope.
Infix "=?" := Num.eqb : num_scope.
Infix "==" := Num.eq : num_scope.

(** Array read of a numeric array: [undefined] out of range. *)
Definition nth_num (l : list num) (i : nat) : num := nth i l NaN.

(** ** Segment lookup (Aniview.tsx, [getSegmentInfo]) *)

Record SegmentInfo : Type := mkSeg {
  seg_i : nat;
  seg_p : num;
  seg_constant : bool
}.

(** The [while (i < len - 1 && val >= input[i + 1]) i++] loop.  [fuel]
    bounds the number of iterations; [len] iterations always suffice, see
    [segLoop_exit]. *)
Fixpoint segLoop (val : num) (input : list num) (fuel i : nat) : nat :=
  match fuel with
  | O => i
  | S fuel' =>
      if (i <? length input - 1)%nat && (val >=? nth_num input (i + 1))%num
      then segLoop val input fuel' (S i)
      else i
  end.

Definition getSegmentInfo (val : num) (input : list num) : SegmentInfo :=
  let len := length input in
  if (len =? 0)%nat then mkSeg 0 Num.zero true
  else if (len =? 1)%nat || (val <=? nth_num input 0)%num
  then mkSeg 0 Num.zero true
  else if (val >=? nth_num input (len - 1))%num
  then mkSeg (len - 1) Num.zero true
  else
    let i := segLoop val input len 0 in
    let gap := (nth_num input (i + 1) - nth_num input i)%num in
    let p := if (gap >? Fin (1 # 1000))%num
             then ((val - nth_num input i) / gap)%num
             else Num.zero in
    mkSeg i p false.


(** ** Binary64 arithmetic *)

(** The numbers of the source are IEEE 754 binary64 values.  [num] keeps
    the finite ones exact; this module has the same operations with every
    result rounded to the nearest binary64 value (ties to even), as the
    source computes them.  It is used to evaluate the source where a
    property turns on rounding. *)
Module F64.

Definition t : Type := SpecFloat.spec_float.

Definition prec : Z := 53.
Definition emax : Z := 1024.

Definition nan : t := SpecFloat.S754_nan.

Definition add : t -> t -> t := SpecFloat.SFadd prec emax.
Definition sub : t -> t -> t := SpecFloat.SFsub prec emax.
Definition mul : t -> t -> t := SpecFloat.SFmul prec emax.
Definition div : t -> t -> t := SpecFloat.SFdiv prec emax.

Definition ltb : t -> t -> bool := SpecFloat.SFltb.
Definition leb : t -> t -> bool := SpecFloat.SFleb.
Definition gtb (a b : t) : bool := ltb b a.
Definition geb (a b : t) : bool := leb b a.

(** An integer literal. *)
Definition ofZ (z : Z) : t := SpecFloat.binary_normalize prec emax z 0 false.

(** A decimal literal of value [n / d], [n] and [d] below 2^53: the
    nearest binary64 value, which is the correctly rounded quotient. *)
Definition lit (n d : Z) : t := div (ofZ n) (ofZ d).

Definition nth_f (l : list t) (i : nat) : t := nth i l nan.

Record SegmentInfo : Type := mkSeg {
  seg_i : nat;
  seg_p : t;
  seg_constant : bool
}.

Fixpoint segLoop (val : t) (input : list t) (fuel i : nat) : nat :=
  match fuel with
  | O => i
  | S fuel' =>
      if (i <? length input - 1)%nat && geb val (nth_f input (i + 1))
      then segLoop val input fuel' (S i)
      else i
  end.

(** [getSegmentInfo] of Aniview.tsx, in binary64. *)
Definition getSegmentInfo (val : t) (input : list t) : SegmentInfo :=
  let len := length input in
  if (len =? 0)%nat then mkSeg 0 (ofZ 0) true
  else if (len =? 1)%nat || leb val (nth_f input 0)
  then mkSeg 0 (ofZ 0) true
  else if geb val (nth_f input (len - 1))
  then mkSeg (len - 1) (ofZ 0) true
  else
    let i := segLoop val input len 0 in
    let gap := sub (nth_f input (i + 1)) (nth_f input i) in
    let p := if gtb gap (lit 1 1000)
             then div (sub val (nth_f input i)) gap
             else ofZ 0 in
    mkSeg i p false.

End F64.
(** ** Strings: [parseInt] *)

Module JsStr.

(** White space skipped by [parseInt] / matched by [\s], on 8-bit code
    units: TAB, LF, VT, FF, CR, SPACE, NBSP. *)
Definition is_ws (c : ascii) : bool :=
  let n := nat_of_ascii c in
  ((9 <=? n) && (n <=? 13) || (n =? 32) || (n =? 160))%nat.

Definition is_digit (c : ascii) : bool :=
  let n := nat_of_ascii c in ((48 <=? n) && (n <=? 57))%nat.

(** Value of a character as a digit in some radix up to 36. *)
Definition digitVal (c : ascii) : option Z :=
  let n := Z.of_nat (nat_of_ascii c) in
  if ((48 <=? n) && (n <=? 57))%Z then Some (n - 48)%Z
  else if ((97 <=? n) && (n <=? 122))%Z then Some (n - 87)%Z
  else if ((65 <=? n) && (n <=? 90))%Z then Some (n - 55)%Z
  else None.

Fixpoint trimStart (s : string) : string :=
  match s with
  | String c s' => if is_ws c then trimStart s' else s
  | EmptyString => s
  end.

(** Longest prefix of digits of the radix; [None] when it is empty. *)
Fixpoint readDigits (radix : Z) (s : string) (acc : option Z) : option Z :=
  match s with
  | String c s' =>
      match digitVal c with
      | Some d =>
          if (d <? radix)%Z
          then readDigits radix s' (Some (default 0%Z acc * radix + d)%Z)
          else acc
      | None => acc
      end
  | EmptyString => acc
  end.

Definition stripSign (s : string) : Z * string :=
  match s with
  | String "-" s' => ((-1)%Z, s')
  | String "+" s' => (1%Z, s')
  | _ => (1%Z, s)
  end.

Definition stripHexPrefix (s : string) : string :=
  match s with
  | String "0" (String "x" s') => s'
  | String "0" (String "X" s') => s'
  | _ => s
  end.

(** [parseInt(s, radix)] for radix 10 or 16; [None] is NaN.  The integer
    read is exact: the source rounds one of more than 2^53 to the nearest
    binary64 number, still an integer. *)
Definition parseInt (s : string) (radix : Z) : option Z :=
  let '(sign, s1) := stripSign (trimStart s) in
  let s2 := if (radix =? 16)%Z then stripHexPrefix s1 else s1 in
  match readDigits radix s2 None with
  | Some n => Some (sign * n)%Z
  | None => None
  end.

Definition parseIntNum (s : string) (radix : Z) : num :=
  match parseInt s radix with
  | Some n => Num.ofZ n
  | None => NaN
  end.

End JsStr.

(** ** Coordinate math (core/AniviewMath.ts) *)

Module AniviewMath.

Record MatrixPos : Type := mkPos { r : Z; c : Z }.

Record WorldBounds : Type := mkBounds {
  minX : num; maxX : num; minY : num; maxY : num
}.

Record Offset : Type := mkOffset { x : num; y : num }.

(** [Math.max(1, layout[0]?.length || 0)] *)
Definition rowLength (layout : list (list Z)) : Z :=
  Z.max 1 (Z.of_nat (length (default [] (head layout)))).

Definition pageIdToMatrixPos (pageId : Z) (layout : list (list Z)) : MatrixPos :=
  let rowLength := rowLength layout in
  let numRows := Z.of_nat (length layout) in
  let maxPage := (numRows * rowLength - 1)%Z in
  if ((pageId <? 0) || (pageId >? maxPage))%Z then mkPos 9999 9999
  else mkPos (pageId / rowLength)%Z (pageId mod rowLength)%Z.

(** [overlaps[i]] for an integer index. *)
Definition overlapAt (overlaps : list num) (i : Z) : num :=
  if (i <? 0)%Z then NaN else nth_num overlaps (Z.to_nat i).

Definition calculateAxisOffset (from to : Z) (size : num) (overlaps : list num)
  : num :=
  if (from =? to)%Z then Num.zero
  else
    let direction := if (to >? from)%Z then Fin 1 else Fin (-1) in
    let start := Z.min from to in
    let end_ := Z.max from to in
    let totalOffset :=
      fold_left
        (fun total k =>
           let i := (start + Z.of_nat k)%Z in
           let overlapRatio := Num.or (overlapAt overlaps i) Num.zero in
           (total + size * (Fin 1 - overlapRatio))%num)
        (seq 0 (Z.to_nat (end_ - start)))
        Num.zero in
    (totalOffset * direction)%num.

Definition getPageOffset (pageId : Z) (layout : list (list Z))
  (width height : num) (defaultPage : Z) (rowOverlaps colOverlaps : list num)
  : Offset :=
  let target := pageIdToMatrixPos pageId layout in
  let origin := pageIdToMatrixPos defaultPage layout in
  mkOffset (calculateAxisOffset (c origin) (c target) width colOverlaps)
           (calculateAxisOffset (r origin) (r target) height rowOverlaps).

Definition getWorldBounds (pages : list Z) (layout : list (list Z))
  (width height : num) (defaultPage : Z) (rowOverlaps colOverlaps : list num)
  : WorldBounds :=
  match pages with
  | [] => mkBounds Num.zero Num.zero Num.zero Num.zero
  | p0 :: rest =>
      let firstOffset :=
        getPageOffset p0 layout width height defaultPage rowOverlaps colOverlaps in
      fold_left
        (fun b p =>
           let offset :=
             getPageOffset p layout width height defaultPage rowOverlaps colOverlaps in
           mkBounds (Num.min (minX b) (x offset)) (Num.max (maxX b) (x offset))
                    (Num.min (minY b) (y offset)) (Num.max (maxY b) (y offset)))
        rest
        (mkBounds (x firstOffset) (x firstOffset) (y firstOffset) (y firstOffset))
  end.

End AniviewMath.

(** ** Lock bitmasks (core/AniviewLock.ts) *)

Module AniviewLock.

Record AniviewAxisLock : Type := mkAxisLock {
  left : option bool;
  right : option bool;
  up : option bool;
  down : option bool
}.

Definition set (d : option bool) : bool := default false d.

Definition mask (directions : AniviewAxisLock) : Z :=
  let mask := 0%Z in
  let mask := if set (left directions) then Z.lor mask 1 else mask in
  let mask := if set (right directions) then Z.lor mask 2 else mask in
  let mask := if set (up directions) then Z.lor mask 4 else mask in
  let mask := if set (down directions) then Z.lor mask 8 else mask in
  mask.

End AniviewLock.
(** ** Plain objects and exceptions *)

Module Js.

(** The members every plain object inherits from [Object.prototype].  A
    read [obj[k]] of a key that [obj] does not own answers the member of
    that name (a function, or the prototype itself for [__proto__]),
    which is truthy and is not [undefined]; for any other key it answers
    [undefined]. *)
Definition objectPrototype : list string :=
  ["constructor"; "__defineGetter__"; "__defineSetter__"; "hasOwnProperty";
   "__lookupGetter__"; "__lookupSetter__"; "isPrototypeOf";
   "propertyIsEnumerable"; "toString"; "valueOf"; "__proto__";
   "toLocaleString"].

Definition inherited (k : string) : bool :=
  bool_decide (k ∈ objectPrototype).

(** How a call ends: with a value, or with an exception of some name. *)
Inductive Outcome (A : Type) : Type :=
| Returns (a : A)
| Throws (error : string).

Arguments Returns {A} a.
Arguments Throws {A} error.

(** [l.forEach(f)] over an accumulator, stopped by the first exception. *)
Fixpoint forEach {A B : Type} (f : B -> A -> Outcome B) (l : list A) (b : B)
  : Outcome B :=
  match l with
  | [] => Returns b
  | a :: l' =>
      match f b a with
      | Returns b' => forEach f l' b'
      | Throws e => Throws e
      end
  end.

End Js.

(** ** Layout engine (aniviewConfig.tsx) *)

(** A page identifier: a number or a semantic name. *)
Inductive PageId : Type :=
| PageNum (n : Z)
| PageName (s : string).

(** A style value: a number or a string (colours). *)
Inductive StyleVal : Type :=
| SNum (n : num)
| SStr (s : string).

Definition Style : Type := list (string * StyleVal).

Record AniviewFrame : Type := mkFrame {
  page : option PageId;
  event : option string;
  value : option num;
  style : option Style;
  persistent : option bool;
  opacity : option num;
  scale : option num;
  rotate : option num
}.

(** [{ ...frame, worldX, worldY }] *)
Record BakedFrame : Type := mkBaked {
  frame : AniviewFrame;
  worldX : num;
  worldY : num
}.

(** The two shapes of the [keyframes] argument.  For the object form the
    list holds the entries in [Object.entries] order. *)
Inductive Keyframes : Type :=
| KfArray (frames : list AniviewFrame)
| KfRecord (entries : list (string * AniviewFrame)).

Record Dims : Type := mkDims {
  width : num;
  height : num;
  offsetX : num;
  offsetY : num
}.

Module AniviewConfig.

Record t : Type := mkConfig {
  layout : list (list Z);
  defaultPage : Z;
  pageMap : gmap string Z;
  rowOverlaps : list num;
  colOverlaps : list num;
  contextDims : Dims
}.

(** The result of [register]; the two maps hold the own properties of the
    objects [bakedFrames] and [eventLanes]. *)
Record Registration : Type := mkReg {
  homeOffset : AniviewMath.Offset;
  bakedFrames : gmap string BakedFrame;
  eventLanes : gmap string (list BakedFrame);
  localLayout : AniviewMath.Offset
}.

(** [resolvePageId], on the own entries of [pageMap].  For a name that
    [pageMap] does not own but [Object.prototype] has ([Js.inherited]) the
    source answers that member, which is no number: such a name is
    outside the domain of this function.  Where [register] hands the
    answer on to [getPageOffset] it is resolved once more; its text is
    neither a key of the map nor the text of a number, and the page is 0,
    which is what this function answers for the name. *)
Definition resolveWith (pageMap : gmap string Z) (pageId : PageId) : Z :=
  match pageId with
  | PageNum n => n
  | PageName s =>
      match pageMap !! s with
      | Some n => n
      | None =>
          match JsStr.parseInt s 10 with
          | Some parsed => parsed
          | None => 0%Z
          end
      end
  end.

(** [overlaps.forEach((v, i) => { if (i < a.length) a[i] = v })] on a
    zero-filled array of length [n]. *)
Definition fillOverlaps (n : nat) (given : option (list num)) : list num :=
  match given with
  | None => replicate n Num.zero
  | Some vs => take n vs ++ replicate (n - length vs) Num.zero
  end.

Definition new (layout : list (list Z)) (defaultPage : option PageId)
  (pageMap : gmap string Z) (initialDims : Dims)
  (overlapRows overlapCols : option (list num)) : t :=
  let numRows := length layout in
  let numCols := length (default [] (head layout)) in
  mkConfig layout
    (resolveWith pageMap (default (PageNum 0) defaultPage))
    pageMap
    (fillOverlaps (numRows - 1) overlapRows)
    (fillOverlaps (numCols - 1) overlapCols)
    (mkDims (Num.or (width initialDims) Num.zero)
            (Num.or (height initialDims) Num.zero)
            (Num.or (offsetX initialDims) Num.zero)
            (Num.or (offsetY initialDims) Num.zero)).

Definition resolvePageId (this : t) (pageId : PageId) : Z :=
  resolveWith (pageMap this) pageId.

Definition getPageOffset (this : t) (pageId : PageId) (dims : Dims)
  : AniviewMath.Offset :=
  let resolvedId := resolvePageId this pageId in
  AniviewMath.getPageOffset resolvedId (layout this) (width dims) (height dims)
    (defaultPage this) (rowOverlaps this) (colOverlaps this).

(** [layout[rowIndex][colIndex]] *)
Definition cell (layout : list (list Z)) (rowIndex colIndex : nat) : option Z :=
  layout !! rowIndex ≫= fun row => row !! colIndex.

Definition getPages (this : t) : list Z :=
  let rows := length (layout this) in
  if (rows =? 0)%nat then [0%Z]
  else
    let cols := length (default [] (head (layout this))) in
    flat_map
      (fun rowIndex =>
         flat_map
           (fun colIndex =>
              match cell (layout this) rowIndex colIndex with
              | Some 1%Z => [Z.of_nat (rowIndex * cols + colIndex)]
              | _ => []
              end)
           (seq 0 cols))
      (seq 0 rows).

Definition getWorldBounds (this : t) (dims : Dims) : AniviewMath.WorldBounds :=
  AniviewMath.getWorldBounds (getPages this) (layout this)
    (width dims) (height dims)
    (defaultPage this) (rowOverlaps this) (colOverlaps this).

(** *** register *)

(** [keyframes.map((f, i) => ({ key: `f_${i}`, frame: f }))] or
    [Object.entries(keyframes)]. *)
Definition entriesOf (keyframes : Keyframes) : list (string * AniviewFrame) :=
  match keyframes with
  | KfArray frames => imap (fun i f => ("f_" +:+ pretty i, f)) frames
  | KfRecord entries => entries
  end.

(** [v !== undefined] *)
Definition isSome {A : Type} (v : option A) : bool :=
  match v with Some _ => true | None => false end.

(** Truthiness of an optional string: [undefined] and [''] are falsy. *)
Definition truthyStr (s : option string) : bool :=
  match s with
  | Some s => negb (String.eqb s "")
  | None => false
  end.

(** The lane entry pushed for an event frame:
    [{ ...frame, worldX: 0, worldY: 0, value: frame.value ?? 0 }]. *)
Definition laneEntry (f : AniviewFrame) : BakedFrame :=
  mkBaked
    (mkFrame (page f) (event f) (Some (default Num.zero (value f)))
             (style f) (persistent f) (opacity f) (scale f) (rotate f))
    Num.zero Num.zero.

(** One iteration of [entries.forEach(({ key, frame }) => ...)], acting on
    the own properties of [bakedFrames] and [eventLanes], two plain
    objects.  The assignment [bakedFrames[key] = ...] creates the
    property [key], except for the key [__proto__], which is the
    prototype accessor: the assignment then replaces the prototype and
    adds no property.  [eventLanes[frame.event]] reads an own lane or an
    inherited member; an inherited member is truthy, so no lane is
    created, and it has no [push]: the call throws a TypeError. *)
Definition registerEntry (this : t) (dims : Dims) (resolvedHomeId : Z)
  (homeOffset : AniviewMath.Offset)
  (acc : gmap string BakedFrame * gmap string (list BakedFrame))
  (entry : string * AniviewFrame)
  : Js.Outcome (gmap string BakedFrame * gmap string (list BakedFrame)) :=
  let '(bakedFrames, eventLanes) := acc in
  let '(key, frame) := entry in
  let bakedFrames :=
    if isSome (page frame) || negb (isSome (event frame))
    then
      let targetPageId :=
        match page frame with
        | Some p => resolvePageId this p
        | None => resolvedHomeId
        end in
      let targetOffset := getPageOffset this (PageNum targetPageId) dims in
      if String.eqb key "__proto__" then bakedFrames
      else
        <[key := mkBaked frame
                   (AniviewMath.x targetOffset - AniviewMath.x homeOffset)%num
                   (AniviewMath.y targetOffset - AniviewMath.y homeOffset)%num]>
          bakedFrames
    else bakedFrames in
  if truthyStr (event frame)
  then
    let e := default "" (event frame) in
    match eventLanes !! e with
    | Some lane =>
        Js.Returns (bakedFrames, <[e := lane ++ [laneEntry frame]]> eventLanes)
    | None =>
        if Js.inherited e then Js.Throws "TypeError"
        else Js.Returns (bakedFrames, <[e := [laneEntry frame]]> eventLanes)
    end
  else Js.Returns (bakedFrames, eventLanes).

(** The sort key of the comparator [(a.value || 0) - (b.value || 0)]. *)
Definition sortKey (a : BakedFrame) : num :=
  Num.or (default NaN (value (frame a))) Num.zero.

(** The comparator's result is negative: [a] goes before [b]. *)
Definition cmpNeg (a b : BakedFrame) : bool :=
  (sortKey a - sortKey b <? Num.zero)%num.

(** [Array.prototype.sort] with this comparator.  The comparator is a
    consistent ordering of the keys (a difference that is NaN, from two
    equal infinities, counts as 0), so the result is the one stable sort;
    it is computed here by inserting the elements from the last to the
    first, each one in front of the elements that do not go before it. *)
Fixpoint sortInsert (a : BakedFrame) (l : list BakedFrame) : list BakedFrame :=
  match l with
  | [] => [a]
  | b :: l' => if cmpNeg b a then b :: sortInsert a l' else a :: b :: l'
  end.

Definition sortLane (l : list BakedFrame) : list BakedFrame :=
  foldr sortInsert [] l.

Definition register (this : t) (pageId : PageId) (dims : Dims)
  (keyframes : option Keyframes) (localLayout : option AniviewMath.Offset)
  : Js.Outcome Registration :=
  let resolvedHomeId := resolvePageId this pageId in
  let homeOffset := getPageOffset this (PageNum resolvedHomeId) dims in
  let localX :=
    Num.or (default NaN (AniviewMath.x <$> localLayout)) Num.zero in
  let localY :=
    Num.or (default NaN (AniviewMath.y <$> localLayout)) Num.zero in
  let filled :=
    match keyframes with
    | Some kf =>
        Js.forEach (registerEntry this dims resolvedHomeId homeOffset)
          (entriesOf kf) (∅, ∅)
    | None => Js.Returns (∅, ∅)
    end in
  match filled with
  | Js.Returns (bakedFrames, eventLanes) =>
      Js.Returns
        (mkReg homeOffset bakedFrames (sortLane <$> eventLanes)
           (AniviewMath.mkOffset localX localY))
  | Js.Throws e => Js.Throws e
  end.

(** [getPagesMap]: the offset of every page of the layout, by page id. *)
Definition getPagesMap (this : t) (dims : Dims) : gmap Z AniviewMath.Offset :=
  fold_left
    (fun map pageId => <[pageId := getPageOffset this (PageNum pageId) dims]> map)
    (getPages this) ∅.

End AniviewConfig.

(** ** Sample configurations used in the examples *)

Definition dims400 : Dims := mkDims (Fin 400) (Fin 800) (Fin 0) (Fin 0).

(** [new AniviewConfig([[1, 1, 1]], 0, {}, dims)] *)
Definition row3 : AniviewConfig.t :=
  AniviewConfig.new [[1; 1; 1]]%Z (Some (PageNum 0)) ∅ dims400 None None.

(** [new AniviewConfig([[1,1,1],[1,1,1],[1,1,1]], 4, {}, dims)] *)
Definition grid3x3 : AniviewConfig.t :=
  AniviewConfig.new [[1; 1; 1]; [1; 1; 1]; [1; 1; 1]]%Z (Some (PageNum 4)) ∅
    dims400 None None.

Definition emptyFrame : AniviewFrame :=
  mkFrame None None None None None None None None.

(** [{ event: '' }] *)
Definition frameEmptyEvent : AniviewFrame :=
  mkFrame None (Some "") None None None None None None.

(** [{ page: 1, event: 'scrollY', value: 100 }], [{ event: 'scrollY' }] *)
Definition frameBoth : AniviewFrame :=
  mkFrame (Some (PageNum 1)) (Some "scrollY") (Some (Fin 100)) None None None
    None None.

Definition frameEventOnly : AniviewFrame :=
  mkFrame None (Some "scrollY") None None None None None None.

(** [{ event: 'constructor', value: 1 }] *)
Definition frameConstructorEvent : AniviewFrame :=
  mkFrame None (Some "constructor") (Some (Fin 1)) None None None None None.

(** [{ page: 1 }] *)
Definition framePage1 : AniviewFrame :=
  mkFrame (Some (PageNum 1)) None None None None None None None.
(** ** Gesture state machine (aniviewConfig.tsx, [generateGesture]) *)

Module Gesture.

Record SnapPoint : Type := mkSnap {
  id : Z;
  sx : num;
  sy : num;
  row : Z;
  col : Z
}.

(** The constants captured by the handlers' closures. *)
Record t : Type := mkGesture {
  snapPointsProcessed : list SnapPoint;
  bounds : AniviewMath.WorldBounds;
  isSingleRow : bool;
  screenWidth : num;
  screenHeight : num;
  pageMap : gmap string Z;
  (** an [onPageChange] callback was supplied *)
  hasOnPageChange : bool
}.

(** The shared values the handlers read and write.  [x.value = withSpring
    (target, ...)] starts an animation towards [target]: it is recorded in
    [springX] and leaves the instantaneous value [x] to the animation; a
    plain assignment to [x.value] ends the animation.  [pageChanges] logs
    the calls of [onPageChange], oldest first. *)
Record State : Type := mkState {
  x : num;
  y : num;
  springX : option num;
  springY : option num;
  startX : num;
  startY : num;
  isSnappingVal : bool;
  activeAxis : Z;
  wasDisabled : bool;
  pageChanges : list Z
}.

Record Event : Type := mkEvent {
  translationX : num;
  translationY : num;
  velocityX : num;
  velocityY : num
}.

(** Values of the optional shared values handed to [generateGesture]. *)
Record Inputs : Type := mkInputs {
  lockMask : option Z;
  gestureEnabled : option bool;
  lastTargetId : option PageId
}.

Definition RESISTANCE : num := Fin (8 # 100).
Definition VELOCITY_THRESHOLD : num := Fin 200.
Definition TRANSLATION_THRESHOLD : num := Fin 3.

Definition generateGesture (this : AniviewConfig.t) (onPageChange : bool)
  (dims : option Dims) : t :=
  let layout := AniviewConfig.layout this in
  let contextDims := default (AniviewConfig.contextDims this) dims in
  let defaultPage := AniviewConfig.defaultPage this in
  let rowOverlaps := AniviewConfig.rowOverlaps this in
  let colOverlaps := AniviewConfig.colOverlaps this in
  let pages := AniviewConfig.getPages this in
  let bounds :=
    AniviewMath.getWorldBounds pages layout (width contextDims)
      (height contextDims) defaultPage rowOverlaps colOverlaps in
  let rowLength := AniviewMath.rowLength layout in
  let snapPointsProcessed :=
    map (fun pageId =>
           let offset :=
             AniviewMath.getPageOffset pageId layout (width contextDims)
               (height contextDims) defaultPage rowOverlaps colOverlaps in
           mkSnap pageId (AniviewMath.x offset) (AniviewMath.y offset)
                  (pageId / rowLength)%Z (pageId mod rowLength)%Z)
        pages in
  mkGesture snapPointsProcessed bounds (length layout <=? 1)%nat
    (width contextDims) (height contextDims)
    (AniviewConfig.pageMap this) onPageChange.

(** [resolveId] of the UI thread. *)
Definition resolveId (g : t) (pid : PageId) : Z :=
  match pid with
  | PageNum n => n
  | PageName s => default 0%Z (pageMap g !! s)
  end.

(** [lockMask && (lockMask.value & bit)] as a condition. *)
Definition blocked (lockMask : option Z) (bit : Z) : bool :=
  match lockMask with
  | Some m => negb (Z.land m bit =? 0)%Z
  | None => false
  end.

Definition disabled (gestureEnabled : option bool) : bool :=
  match gestureEnabled with
  | Some false => true
  | _ => false
  end.

Definition onBegin (s : State) : State :=
  let x' := if Num.isNaN (x s) then Num.zero else x s in
  let y' := if Num.isNaN (y s) then Num.zero else y s in
  mkState x' y'
    (if Num.isNaN (x s) then None else springX s)
    (if Num.isNaN (y s) then None else springY s)
    x' y' false 0 false (pageChanges s).

(** [lim + (v - lim) * RESISTANCE] below [lo], above [hi]. *)
Definition resist (v lo hi : num) : num :=
  if (v <? lo)%num then (lo + (v - lo) * RESISTANCE)%num
  else if (v >? hi)%num then (hi + (v - hi) * RESISTANCE)%num
  else v.

Definition onUpdate (g : t) (inp : Inputs) (gestureEvent : Event) (s : State)
  : State :=
  let currentResyncX := (x s + translationX gestureEvent)%num in
  let currentResyncY := (y s + translationY gestureEvent)%num in
  if disabled (gestureEnabled inp) then
    mkState (x s) (y s) (springX s) (springY s)
      currentResyncX currentResyncY (isSnappingVal s) (activeAxis s) true
      (pageChanges s)
  else
    let startX0 := if wasDisabled s then currentResyncX else startX s in
    let startY0 := if wasDisabled s then currentResyncY else startY s in
    let dx := Num.abs (translationX gestureEvent) in
    let dy := Num.abs (translationY gestureEvent) in
    let isHBlocked := blocked (lockMask inp) 1 in
    let isVBlocked := blocked (lockMask inp) 2 in
    let axis :=
      if (activeAxis s =? 0)%Z &&
         ((dx >? TRANSLATION_THRESHOLD)%num || (dy >? TRANSLATION_THRESHOLD)%num)
      then (if (dx >? dy)%num then 1%Z else 2%Z)
      else activeAxis s in
    let newX := startX0 in
    let newY := startY0 in
    let onH := ((axis =? 1) || (axis =? 0))%Z in
    let startX1 :=
      if onH && isHBlocked then (x s + translationX gestureEvent)%num
      else startX0 in
    let newX :=
      if onH && negb isHBlocked then (startX0 - translationX gestureEvent)%num
      else newX in
    let onV := negb (isSingleRow g) && ((axis =? 2) || (axis =? 0))%Z in
    let startY1 :=
      if onV && isVBlocked then (y s + translationY gestureEvent)%num
      else startY0 in
    let newY :=
      if onV && negb isVBlocked then (startY0 - translationY gestureEvent)%num
      else newY in
    let newX := if (axis =? 2)%Z then startX1 else newX in
    let newY := if (axis =? 1)%Z then startY1 else newY in
    let newX := if Num.isNaN newX then startX1 else newX in
    let newY := if Num.isNaN newY then startY1 else newY in
    let maxSwipeDistance := (screenWidth g * Fin (12 # 10))%num in
    let deltaX := (newX - startX1)%num in
    let newX :=
      if (Num.abs deltaX >? maxSwipeDistance)%num
      then (startX1 + (if (deltaX >? Num.zero)%num then maxSwipeDistance
                       else Num.neg maxSwipeDistance))%num
      else newX in
    let localLimitX := (screenWidth g * Fin (15 # 10))%num in
    let localLimitY := (screenHeight g * Fin (15 # 10))%num in
    let lowX := (startX1 - localLimitX)%num in
    let highX := (startX1 + localLimitX)%num in
    let newX :=
      resist newX (AniviewMath.minX (bounds g)) (AniviewMath.maxX (bounds g)) in
    let newX := resist newX lowX highX in
    let newY :=
      if negb (isSingleRow g) then
        let lowY := (startY1 - localLimitY)%num in
        let highY := (startY1 + localLimitY)%num in
        let newY :=
          resist newY (AniviewMath.minY (bounds g)) (AniviewMath.maxY (bounds g)) in
        resist newY lowY highY
      else newY in
    mkState newX newY None None startX1 startY1 true axis false (pageChanges s).

(** Distances are kept squared: [Math.sqrt] is strictly increasing on
    [[0, +Infinity]] and maps NaN to NaN, so [sqrt a < sqrt b] holds exactly
    when [a < b] holds for the squared distances, and [sqrt a < t] exactly
    when [0 < t] and [a < t * t]. *)
Definition dist2 (ax ay bx by_ : num) : num :=
  (Num.sq (ax - bx) + Num.sq (ay - by_))%num.

Definition sqrtLt (d2 t : num) : bool :=
  (Num.zero <? t)%num && (d2 <? t * t)%num.

Record Anchor : Type := mkAnchor {
  anchorRow : Z;
  anchorCol : Z;
  anchorId : Z;
  minStartDist2 : num
}.

(** The scan for the snap point closest to the start of the gesture. *)
Definition findAnchor (g : t) (stageStartX stageStartY : num) : Anchor :=
  fold_left
    (fun a snapPoint =>
       let dist := dist2 stageStartX stageStartY (sx snapPoint) (sy snapPoint) in
       if (dist <? minStartDist2 a)%num
       then mkAnchor (row snapPoint) (col snapPoint) (id snapPoint) dist
       else a)
    (snapPointsProcessed g)
    (mkAnchor 0 0 (-1) PInf).

Record Target : Type := mkTarget {
  targetX : num;
  targetY : num;
  targetId : Z
}.

Definition noTarget : Target := mkTarget (Fin (-1)) (Fin (-1)) (-1).

(** First snap point at a grid position ([for ... break]). *)
Definition snapAt (g : t) (targetRow targetCol : Z) : option SnapPoint :=
  find (fun snapPoint =>
          ((row snapPoint =? targetRow) && (col snapPoint =? targetCol))%Z)
       (snapPointsProcessed g).

(** Nearest snap point to the camera among those that pass [keep]. *)
Definition nearest (g : t) (keep : SnapPoint -> bool) (cx cy : num)
  (init : Target) : Target :=
  snd
    (fold_left
       (fun '(minDistance, tgt) snapPoint =>
          if keep snapPoint then
            let dist := dist2 cx cy (sx snapPoint) (sy snapPoint) in
            if (dist <? minDistance)%num
            then (dist, mkTarget (sx snapPoint) (sy snapPoint) (id snapPoint))
            else (minDistance, tgt)
          else (minDistance, tgt))
       (snapPointsProcessed g)
       (PInf, init)).

(** The target resolved by [onEnd]. *)
Definition resolveTarget (g : t) (gestureEvent : Event) (s : State) : Target :=
  let distanceThresholdX := (screenWidth g * Fin (8 # 100))%num in
  let distanceThresholdY := (screenHeight g * Fin (8 # 100))%num in
  let a := findAnchor g (startX s) (startY s) in
  let startFound := sqrtLt (minStartDist2 a) (screenWidth g * Fin (3 # 10))%num in
  let intentRight :=
    (velocityX gestureEvent <? Num.neg VELOCITY_THRESHOLD)%num ||
    (translationX gestureEvent <? Num.neg distanceThresholdX)%num in
  let intentLeft :=
    (velocityX gestureEvent >? VELOCITY_THRESHOLD)%num ||
    (translationX gestureEvent >? distanceThresholdX)%num in
  let intentDown :=
    (velocityY gestureEvent <? Num.neg VELOCITY_THRESHOLD)%num ||
    (translationY gestureEvent <? Num.neg distanceThresholdY)%num in
  let intentUp :=
    (velocityY gestureEvent >? VELOCITY_THRESHOLD)%num ||
    (translationY gestureEvent >? distanceThresholdY)%num in
  let tgt :=
    if startFound &&
       (intentRight || intentLeft ||
        (negb (isSingleRow g) && (intentDown || intentUp)))
    then
      let targetCol :=
        if (activeAxis s =? 1)%Z then
          if intentRight then (anchorCol a + 1)%Z
          else if intentLeft then (anchorCol a - 1)%Z
          else anchorCol a
        else anchorCol a in
      let targetRow :=
        if negb (activeAxis s =? 1)%Z && (activeAxis s =? 2)%Z &&
           negb (isSingleRow g)
        then
          if intentDown then (anchorRow a + 1)%Z
          else if intentUp then (anchorRow a - 1)%Z
          else anchorRow a
        else anchorRow a in
      match snapAt g targetRow targetCol with
      | Some snapPoint =>
          mkTarget (sx snapPoint) (sy snapPoint) (id snapPoint)
      | None => noTarget
      end
    else noTarget in
  let tgt :=
    if (targetX tgt =? Fin (-1))%num then
      nearest g
        (fun snapPoint =>
           negb ((activeAxis s =? 1)%Z && negb (row snapPoint =? anchorRow a)%Z)
           && negb ((activeAxis s =? 2)%Z && negb (col snapPoint =? anchorCol a)%Z))
        (x s) (y s) tgt
    else tgt in
  if (targetId tgt =? -1)%Z then
    match find (fun p => (id p =? anchorId a)%Z) (snapPointsProcessed g) with
    | Some snapPoint => mkTarget (sx snapPoint) (sy snapPoint) (anchorId a)
    | None => mkTarget (targetX tgt) (targetY tgt) (anchorId a)
    end
  else tgt.

Definition onEnd (g : t) (inp : Inputs) (gestureEvent : Event) (s : State)
  : State :=
  if disabled (gestureEnabled inp) then s
  else if (length (snapPointsProcessed g) =? 0)%nat then s
  else
    let a := findAnchor g (startX s) (startY s) in
    let tgt := resolveTarget g gestureEvent s in
    let pageChanges' :=
      if negb (targetId tgt =? -1)%Z && negb (targetId tgt =? anchorId a)%Z
         && hasOnPageChange g
      then pageChanges s ++ [targetId tgt]
      else pageChanges s in
    mkState (x s) (y s) (Some (targetX tgt)) (Some (targetY tgt))
      (startX s) (startY s) true (activeAxis s) (wasDisabled s) pageChanges'.

Definition onFinalize (g : t) (inp : Inputs) (success : bool) (s : State)
  : State :=
  if negb success || (activeAxis s =? 0)%Z then s
  else if disabled (gestureEnabled inp) then s
  else if isSnappingVal s then s
  else
    let tgt :=
      nearest g (fun _ => true) (x s) (y s) (mkTarget (x s) (y s) (-1)) in
    let yield :=
      match lastTargetId inp with
      | Some last =>
          let currentProgrammaticId := resolveId g last in
          let a := findAnchor g (startX s) (startY s) in
          (targetId tgt =? anchorId a)%Z &&
          negb (anchorId a =? currentProgrammaticId)%Z
      | None => false
      end in
    if yield then s
    else
      mkState (x s) (y s) (Some (targetX tgt)) (Some (targetY tgt))
        (startX s) (startY s) (isSnappingVal s) (activeAxis s) (wasDisabled s)
        (pageChanges s).

End Gesture.

(** ** Sample gestures used in the examples *)

(** The gesture machine of the 3x3 grid, camera at rest on the centre
    page (world offset (0, 0)), right after [onBegin]. *)
Definition gesture3x3 : Gesture.t :=
  Gesture.generateGesture grid3x3 true (Some dims400).

Definition atOrigin : Gesture.State :=
  Gesture.onBegin
    (Gesture.mkState (Fin 0) (Fin 0) None None (Fin 0) (Fin 0) false 0 false []).

Definition panBy (tx ty : Q) : Gesture.Event :=
  Gesture.mkEvent (Fin tx) (Fin ty) (Fin 0) (Fin 0).

Definition withMask (directions : AniviewLock.AniviewAxisLock) : Gesture.Inputs :=
  Gesture.mkInputs (Some (AniviewLock.mask directions)) None None.

Definition lockUp : AniviewLock.AniviewAxisLock :=
  AniviewLock.mkAxisLock None None (Some true) None.
Definition lockDown : AniviewLock.AniviewAxisLock :=
  AniviewLock.mkAxisLock None None None (Some true).
Definition lockLeft : AniviewLock.AniviewAxisLock :=
  AniviewLock.mkAxisLock (Some true) None None None.
Definition lockRight : AniviewLock.AniviewAxisLock :=
  AniviewLock.mkAxisLock None (Some true) None None.
(** ** Colour model (Aniview.tsx) *)

(** String primitives of the colour helpers. *)
Module Str.

(** [s.startsWith(p)] *)
Fixpoint startsWith (p s : string) : bool :=
  match p, s with
  | EmptyString, _ => true
  | String a p', String b s' => Ascii.eqb a b && startsWith p' s'
  | String _ _, EmptyString => false
  end.

(** [s.slice(n)] *)
Fixpoint drop (n : nat) (s : string) : string :=
  match n, s with
  | O, _ => s
  | S n', String _ s' => drop n' s'
  | S _, EmptyString => EmptyString
  end.

(** [s.substring(0, n)] *)
Fixpoint take (n : nat) (s : string) : string :=
  match n, s with
  | O, _ => EmptyString
  | S n', String a s' => String a (take n' s')
  | S _, EmptyString => EmptyString
  end.

(** [s.slice(a, b)] for [0 <= a <= b]. *)
Definition slice (a b : nat) (s : string) : string := take (b - a) (drop a s).

(** [s.lastIndexOf(c)] for a one-character needle; [None] is -1. *)
Fixpoint lastIndexOf (c : ascii) (s : string) : option nat :=
  match s with
  | EmptyString => None
  | String a s' =>
      match lastIndexOf c s' with
      | Some i => Some (S i)
      | None => if Ascii.eqb a c then Some O else None
      end
  end.

(** A literal at the head of the input; returns the rest. *)
Definition lit (l s : string) : option string :=
  if startsWith l s then Some (drop (String.length l) s) else None.

(** The longest prefix of characters in a class, and the rest: a greedy
    [c*]. *)
Fixpoint span (p : ascii -> bool) (s : string) : string * string :=
  match s with
  | String a s' =>
      if p a then let '(m, rest) := span p s' in (String a m, rest)
      else (EmptyString, s)
  | EmptyString => (EmptyString, EmptyString)
  end.

(** A greedy [c+]. *)
Definition many1 (p : ascii -> bool) (s : string) : option (string * string) :=
  match span p s with
  | (EmptyString, _) => None
  | (m, rest) => Some (m, rest)
  end.

(** [\s*] *)
Definition skipWs (s : string) : string := snd (span JsStr.is_ws s).

Definition is_dot (c : ascii) : bool := Ascii.eqb c ".".

(** The class [[\d.]] *)
Definition is_digdot (c : ascii) : bool := JsStr.is_digit c || is_dot c.

(** An unanchored search: the leftmost position where [m] matches. *)
Fixpoint search {A : Type} (m : string -> option A) (s : string) : option A :=
  match m s with
  | Some r => Some r
  | None =>
      match s with
      | String _ s' => search m s'
      | EmptyString => None
      end
  end.

(** [parseFloat] of a string of the class [[\d.]+]: digits, then
    optionally a dot and digits; [None] (NaN) without any digit.  The
    value is the exact decimal. *)
Fixpoint digitsValue (s : string) (acc : Z) : Z :=
  match s with
  | String a s' =>
      digitsValue s' (acc * 10 + (Z.of_nat (nat_of_ascii a) - 48))%Z
  | EmptyString => acc
  end.

Definition parseFloat (s : string) : num :=
  let '(ip, rest) := span JsStr.is_digit s in
  let fp :=
    match rest with
    | String "." rest' => fst (span JsStr.is_digit rest')
    | _ => EmptyString
    end in
  match ip, fp with
  | EmptyString, EmptyString => NaN
  | _, _ =>
      Fin (inject_Z (digitsValue ip 0)
           + inject_Z (digitsValue fp 0)
             / inject_Z (10 ^ Z.of_nat (String.length fp)))
  end.

End Str.

Module Color.

Definition TRANSPARENT : string := "rgba(0,0,0,0)".

(** The template literal [`rgba(${r},${g},${b},${a})`] over fields that
    are already strings. *)
Definition rgbaString (r g b a : string) : string :=
  "rgba(" +:+ r +:+ "," +:+ g +:+ "," +:+ b +:+ "," +:+ a +:+ ")".

(** Captures of
    [/rgba?\((\d+),\s*(\d+),\s*(\d+)(?:,\s*([\d.]+))?\)/] matched at the
    head of the input.  The classes that follow one another are disjoint,
    so the greedy match is the only one. *)
Definition rgbAt (s : string)
  : option (string * string * string * option string) :=
  s ← Str.lit "rgb" s;
  let s := match s with String "a" s' => s' | _ => s end in
  s ← Str.lit "(" s;
  '(m1, s) ← Str.many1 JsStr.is_digit s;
  s ← Str.lit "," s;
  '(m2, s) ← Str.many1 JsStr.is_digit (Str.skipWs s);
  s ← Str.lit "," s;
  '(m3, s) ← Str.many1 JsStr.is_digit (Str.skipWs s);
  match s with
  | String "," s' =>
      '(m4, s) ← Str.many1 Str.is_digdot (Str.skipWs s');
      _ ← Str.lit ")" s;
      Some (m1, m2, m3, Some m4)
  | _ =>
      _ ← Str.lit ")" s;
      Some (m1, m2, m3, None)
  end.

(** [%?] *)
Definition optPercent (s : string) : string :=
  match s with String "%" s' => s' | _ => s end.

(** Captures of
    [/hsla?\((\d+),\s*([\d.]+)%?,\s*([\d.]+)%?(?:,\s*([\d.]+))?\)/]
    matched at the head of the input. *)
Definition hslAt (s : string)
  : option (string * string * string * option string) :=
  s ← Str.lit "hsl" s;
  let s := match s with String "a" s' => s' | _ => s end in
  s ← Str.lit "(" s;
  '(m1, s) ← Str.many1 JsStr.is_digit s;
  s ← Str.lit "," s;
  '(m2, s) ← Str.many1 Str.is_digdot (Str.skipWs s);
  s ← Str.lit "," (optPercent s);
  '(m3, s) ← Str.many1 Str.is_digdot (Str.skipWs s);
  let s := optPercent s in
  match s with
  | String "," s' =>
      '(m4, s) ← Str.many1 Str.is_digdot (Str.skipWs s');
      _ ← Str.lit ")" s;
      Some (m1, m2, m3, Some m4)
  | _ =>
      _ ← Str.lit ")" s;
      Some (m1, m2, m3, None)
  end.

(** Channels of a [#...] colour: the three channels and alpha. *)
Definition hexChannels (hex : string) : num * num * num * num :=
  if (String.length hex =? 3)%nat then
    let dup i := let d := Str.slice i (i + 1) hex in d +:+ d in
    (JsStr.parseIntNum (dup 0%nat) 16, JsStr.parseIntNum (dup 1%nat) 16,
     JsStr.parseIntNum (dup 2%nat) 16, Fin 1)
  else
    (JsStr.parseIntNum (Str.slice 0 2 hex) 16,
     JsStr.parseIntNum (Str.slice 2 4 hex) 16,
     JsStr.parseIntNum (Str.slice 4 6 hex) 16,
     if (String.length hex =? 8)%nat
     then (JsStr.parseIntNum (Str.slice 6 8 hex) 16 / Fin 255)%num
     else Fin 1).

(** Channels of an [hsl[a](...)] colour from its captures. *)
Definition hslChannels (m1 m2 m3 : string) (m4 : option string)
  : num * num * num * num :=
  let h := JsStr.parseIntNum m1 10 in
  let s := (Str.parseFloat m2 / Fin 100)%num in
  let l := (Str.parseFloat m3 / Fin 100)%num in
  let a := match m4 with Some m => Str.parseFloat m | None => Fin 1 end in
  let k n := Num.rem (Fin n + h / Fin 30)%num (Fin 12) in
  let arc := (s * Num.min l (Fin 1 - l))%num in
  let f n :=
    (l - arc * Num.max (Fin (-1))
                 (Num.min (k n - Fin 3) (Num.min (Fin 9 - k n) (Fin 1))))%num in
  (Num.round (Fin 255 * f 0)%num, Num.round (Fin 255 * f 8)%num,
   Num.round (Fin 255 * f 4)%num, a).

Section Formatting.

(** [String(n)] for a number that is not an integer below 10^21: the
    shortest decimal that reads back as the same binary64 value.  Exact
    rationals carry no such notion, so the formatting of these values is
    left to a parameter. *)
Variable fmtFrac : Q -> string.

(** [`${n}`] *)
Definition numToString (n : num) : string :=
  match n with
  | NaN => "NaN"
  | PInf => "Infinity"
  | NInf => "-Infinity"
  | Fin q =>
      let r := Qred q in
      if (Zpos (Qden r) =? 1)%Z && (Z.abs (Qnum r) <? 10 ^ 21)%Z
      then pretty (Qnum r)
      else fmtFrac q
  end.

Definition rgbaOfNums (c : num * num * num * num) : string :=
  let '(r, g, b, a) := c in
  rgbaString (numToString r) (numToString g) (numToString b) (numToString a).

Definition normalizeColorToRgba (c : string) : string :=
  if String.eqb c "" || String.eqb c "transparent" then "rgba(0,0,0,0)"
  else if Str.startsWith "#" c then rgbaOfNums (hexChannels (Str.drop 1 c))
  else
    match Str.search rgbAt c with
    | Some (m1, m2, m3, m4) => rgbaString m1 m2 m3 (default "1" m4)
    | None =>
        match Str.search hslAt c with
        | Some (m1, m2, m3, m4) => rgbaOfNums (hslChannels m1 m2 m3 m4)
        | None => "rgba(0,0,0,0)"
        end
    end.

(** The [parse] helper of [jsInterpolateColor]. *)
Definition parse (c : string) : num * num * num * num :=
  if String.eqb c "" || String.eqb c "transparent"
  then (Fin 0, Fin 0, Fin 0, Fin 0)
  else if Str.startsWith "#" c then hexChannels (Str.drop 1 c)
  else
    match Str.search rgbAt c with
    | Some (m1, m2, m3, m4) =>
        (JsStr.parseIntNum m1 10, JsStr.parseIntNum m2 10,
         JsStr.parseIntNum m3 10,
         match m4 with Some m => Str.parseFloat m | None => Fin 1 end)
    | None =>
        match Str.search hslAt c with
        | Some (m1, m2, m3, m4) => hslChannels m1 m2 m3 m4
        | None => (Fin 0, Fin 0, Fin 0, Fin 0)
        end
    end.

Definition jsInterpolateColor (val start end_ : num) (startColor endColor : string)
  : string :=
  if String.eqb startColor "" || String.eqb endColor "" ||
     String.eqb startColor endColor
  then (if String.eqb startColor "" then "rgba(0,0,0,0)" else startColor)
  else
    let range := Num.or (end_ - start)%num (Fin 1) in
    let progress :=
      Num.max (Fin 0) (Num.min (Fin 1) ((val - start) / range)%num) in
    let '(s0, s1, s2, s3) := parse startColor in
    let '(e0, e1, e2, e3) := parse endColor in
    let r := Num.round (s0 + (e0 - s0) * progress)%num in
    let g := Num.round (s1 + (e1 - s1) * progress)%num in
    let b := Num.round (s2 + (e2 - s2) * progress)%num in
    let a := (s3 + (e3 - s3) * progress)%num in
    rgbaOfNums (r, g, b, a).

End Formatting.

Section Smart.

(** [interpolateColor] of react-native-reanimated, the library primitive
    that blends the two endpoint colours of a segment. *)
Variable interpolateColor : num -> list num -> list string -> string.

(** Read of a colour array; an out-of-range read gives [undefined], which
    like [''] is falsy and differs from every colour literal. *)
Definition nth_col (l : list string) (i : nat) : string := nth i l "".

(** The [fix] helper: a transparent endpoint takes the RGB text of its
    neighbour, with alpha 0. *)
Definition fix_ (transp source : string) : string :=
  if negb (String.eqb transp "rgba(0,0,0,0)") then transp
  else if String.eqb source "" || negb (Str.startsWith "rgba" source) then transp
  else
    match Str.lastIndexOf "," source with
    | None => transp
    | Some lastComma => Str.take (lastComma + 1) source +:+ "0)"
    end.

(** The [while (i < input.length - 2 && val >= input[i+1]) i++] loop. *)
Fixpoint smartLoop (val : num) (input : list num) (fuel i : nat) : nat :=
  match fuel with
  | O => i
  | S fuel' =>
      if (i <? length input - 2)%nat && (val >=? nth_num input (i + 1))%num
      then smartLoop val input fuel' (S i)
      else i
  end.

Definition smartInterpolateColor (val : num) (input : list num)
  (output : list string) : string :=
  if (length output =? 0)%nat then "rgba(0,0,0,0)"
  else if (length output =? 1)%nat then nth_col output 0
  else if (val <=? nth_num input 0)%num then nth_col output 0
  else if (val >=? nth_num input (length input - 1))%num
  then nth_col output (length output - 1)
  else
    let i := smartLoop val input (length input) 0 in
    if (length input <=? i + 1)%nat then nth_col output (length output - 1)
    else
      let c1 := nth_col output i in
      let c2 := nth_col output (i + 1) in
      let useC1 := fix_ c1 c2 in
      let useC2 := fix_ c2 c1 in
      interpolateColor val [nth_num input i; nth_num input (i + 1)]
        [useC1; useC2].

End Smart.

End Color.

(** ** A sample instantiation of the library parameters *)

(** A plain decimal rendering of a non-integral value, used to run the
    examples: sign, integer part, and up to 17 fractional digits. *)
Fixpoint fracDigits (fuel : nat) (num den : Z) : string :=
  match fuel with
  | O => ""
  | S fuel' =>
      if (num =? 0)%Z then ""
      else pretty (num * 10 / den)%Z +:+ fracDigits fuel' ((num * 10) mod den)%Z den
  end.

Definition decimalString (q : Q) : string :=
  let n := Z.abs (Qnum q) in
  let d := Zpos (Qden q) in
  (if (Qnum q <? 0)%Z then "-" else "") +:+
  pretty (n / d)%Z +:+ "." +:+ fracDigits 17 (n mod d)%Z d.

(** Modelled from the spec: [interpolateColor] of react-native-reanimated
    is missing from the sources; in its place on a two-point range stands
    the channel-wise linear blend of the colour model, the repository's own
    [jsInterpolateColor]. *)
Definition jsBlend (val : num) (input : list num) (output : list string) : string :=
  Color.jsInterpolateColor decimalString val
    (nth_num input 0) (nth_num input 1)
    (Color.nth_col output 0) (Color.nth_col output 1).
(** ** The library's numeric interpolation *)

(** The worklet calls [interpolate] of react-native-reanimated, which is
    not part of the repository.  The evaluator below takes it as a
    parameter; this module is the instance used to run the evaluator on
    samples. *)

Module Reanimated.

(** Modelled from the spec: the segment of the ranges that a clamped
    linear interpolation works on ([interpolate] of react-native-reanimated
    is missing from the sources). *)
Record Narrowed : Type := mkNarrowed {
  leftEdgeInput : num;
  rightEdgeInput : num;
  leftEdgeOutput : num;
  rightEdgeOutput : num
}.

(** Modelled from the spec: the segment that starts at entry [i] (part of
    the missing [interpolate]). *)
Definition edges (inputRange outputRange : list num) (i : nat) : Narrowed :=
  mkNarrowed (nth_num inputRange i) (nth_num inputRange (i + 1))
             (nth_num outputRange i) (nth_num outputRange (i + 1)).

(** Modelled from the spec: the search for the segment that holds [x],
    the first whose right edge is not below [x] (part of the missing
    [interpolate]). *)
Fixpoint narrowLoop (x : num) (inputRange outputRange : list num)
  (fuel i : nat) (dflt : Narrowed) : Narrowed :=
  match fuel with
  | O => dflt
  | S fuel' =>
      if (i <? length inputRange)%nat then
        if (x <=? nth_num inputRange i)%num
        then edges inputRange outputRange (i - 1)
        else narrowLoop x inputRange outputRange fuel' (S i) dflt
      else dflt
  end.

(** Modelled from the spec: linear interpolation on one segment, clamped
    at its ends (part of the missing [interpolate]). *)
Definition internalInterpolateClamp (x : num) (n : Narrowed) : num :=
  if (rightEdgeInput n - leftEdgeInput n =? Fin 0)%num then leftEdgeOutput n
  else
    let progress :=
      ((x - leftEdgeInput n) / (rightEdgeInput n - leftEdgeInput n))%num in
    let val :=
      (leftEdgeOutput n + progress * (rightEdgeOutput n - leftEdgeOutput n))%num in
    let coef :=
      if (rightEdgeOutput n >=? leftEdgeOutput n)%num then Fin 1 else Fin (-1) in
    if (coef * val <? coef * leftEdgeOutput n)%num then leftEdgeOutput n
    else if (coef * val >? coef * rightEdgeOutput n)%num then rightEdgeOutput n
    else val.

(** Modelled from the spec: [interpolate(x, inputRange, outputRange,
    Extrapolation.CLAMP)] of react-native-reanimated, which is missing from
    the sources: linear interpolation across the sorted value and output
    arrays, clamped at the ends.  The library rejects a range of fewer
    than two entries with an exception; this instance answers NaN there
    (the worklet tests the length of a numeric lane before it calls). *)
Definition interpolate (x : num) (inputRange outputRange : list num) : num :=
  let length_ := length inputRange in
  if (length_ <? 2)%nat || (length outputRange <? 2)%nat then NaN
  else
    let narrowedInput :=
      if (2 <? length_)%nat then
        if (x >? nth_num inputRange (length_ - 1))%num
        then edges inputRange outputRange (length_ - 2)
        else narrowLoop x inputRange outputRange length_ 1
               (edges inputRange outputRange 0)
      else edges inputRange outputRange 0 in
    internalInterpolateClamp x narrowedInput.

End Reanimated.

(** ** Frame evaluator (Aniview.tsx, the [useAnimatedStyle] worklet) *)

(** A scalar of the output style object.  [ADeg n] stands for the
    template string [`${n}deg`]. *)
Inductive Atom : Type :=
| AUndef
| ANum (n : num)
| AStr (s : string)
| ADeg (n : num).

(** A value of the output style object: a scalar, an array of one-key
    objects (the transform list), or an object such as [shadowOffset]. *)
Inductive PropVal : Type :=
| PAtom (a : Atom)
| PArr (items : list (string * Atom))
| PObj (fields : list (string * Atom)).

Abbreviation PNum n := (PAtom (ANum n)).
Abbreviation PStr s := (PAtom (AStr s)).

Abbreviation Props := (gmap string PropVal).

Module Evaluator.

(** One lane of the spatial grid, for the numeric keys. *)
Record NumLane : Type := mkNumLane {
  fixed : num;
  values : list (list num);
  constFlags : list bool
}.

(** One lane of the spatial grid, for the colour keys. *)
Record ColLane : Type := mkColLane {
  cfixed : num;
  cvalues : list (list string);
  cconstFlags : list bool
}.

(** An output range of an event lane: numbers for a numeric key, colours
    for a colour key. *)
Inductive Range : Type :=
| NumRange (outs : list num)
| ColRange (outs : list string).

Record BakedLane : Type := mkLane {
  lvalues : list num;
  outputRanges : list Range;
  keys : list string;
  lpersistent : bool
}.

Record BakedResult : Type := mkBakedResult {
  homeX : num;
  homeY : num;
  localX : num;
  localY : num;
  bakedH : list NumLane;
  bakedV : list NumLane;
  bakedCH : list ColLane;
  bakedCV : list ColLane;
  (** in [Object.entries] order *)
  eventLanes : list (string * BakedLane);
  uniqueX : list num;
  uniqueY : list num;
  numericKeys : list string;
  colorKeys : list string;
  (** [baseProps.rest] and [baseProps.transform] *)
  baseRest : Props;
  baseTransform : list (string * Atom);
  homeProps : gmap string StyleVal
}.

(** [{ opacity: 0 }] *)
Definition invisible : Props := {[ "opacity" := PNum (Fin 0) ]}.

(** Numeric reads of a property bag: [None] is [undefined]. *)
Definition numOf (m : gmap string StyleVal) (k : string) : option num :=
  match m !! k with
  | Some (SNum n) => Some n
  | _ => None
  end.

Definition strOf (m : gmap string StyleVal) (k : string) : option string :=
  match m !! k with
  | Some (SStr s) => Some s
  | _ => None
  end.

(** [v ?? d] and the use of a possibly undefined number in arithmetic. *)
Definition nullish (v : option num) (d : num) : num := default d v.
Definition arith (v : option num) : num := default NaN v.

Record LaneInfo : Type := mkLaneInfo {
  l1idx : nat;
  l2idx : nat;
  mix : num;
  dist : num
}.

(** [while (i < lanes.length - 1 && pos > lanes[i].fixed) i++] *)
Fixpoint laneLoop (fixeds : list num) (pos : num) (fuel i : nat) : nat :=
  match fuel with
  | O => i
  | S fuel' =>
      if (i <? length fixeds - 1)%nat && (pos >? nth_num fixeds i)%num
      then laneLoop fixeds pos fuel' (S i)
      else i
  end.

(** [getLaneInfo], on the [fixed] coordinates of the lanes. *)
Definition getLaneInfo (fixeds : list num) (pos : num) : option LaneInfo :=
  if (length fixeds =? 0)%nat then None
  else
    let i := laneLoop fixeds pos (length fixeds) 0 in
    let l1idx := Nat.max 0 (i - 1) in
    let l2idx := i in
    if (l1idx <? length fixeds)%nat && (l2idx <? length fixeds)%nat then
      let f1 := nth_num fixeds l1idx in
      let f2 := nth_num fixeds l2idx in
      let gap := (f2 - f1)%num in
      let mix :=
        Num.max (Fin 0)
          (Num.min (Fin 1)
             (if (gap >? Fin (1 # 10))%num then ((pos - f1) / gap)%num
              else Fin 0)) in
      Some (mkLaneInfo l1idx l2idx mix
              (Num.min (Num.abs (pos - f1)) (Num.abs (pos - f2))))
    else None.

(** The keys of [new Set([...a, ...b])] in iteration order. *)
Fixpoint dedup (seen l : list string) : list string :=
  match l with
  | [] => []
  | k :: l' =>
      if bool_decide (k ∈ seen) then dedup seen l'
      else k :: dedup (k :: seen) l'
  end.

(** [{ ...obj, [field]: v }] *)
Fixpoint setField (field : string) (v : Atom) (obj : list (string * Atom))
  : list (string * Atom) :=
  match obj with
  | [] => [(field, v)]
  | (f, w) :: obj' =>
      if String.eqb f field then (f, v) :: obj'
      else (f, w) :: setField field v obj'
  end.

Definition endsWith (suffix s : string) : bool :=
  String.eqb (Str.drop (String.length s - String.length suffix) s) suffix.

Section Worklet.

(** [interpolate(_, _, _, Extrapolation.CLAMP)] and [interpolateColor] of
    react-native-reanimated. *)
Variable interpolate : num -> list num -> list num -> num.
Variable interpolateColor : num -> list num -> list string -> string.

Variable dimensions : Dims.
(** [config.layout.length === 1] *)
Variable isSingleRowVal : bool.
Variable baked : BakedResult.
(** Current values of the shared values in [events], the camera among
    them under [x] and [y]. *)
Variable events : gmap string num.

Definition smart := Color.smartInterpolateColor interpolateColor.

Definition homeNum (k : string) : option num := numOf (homeProps baked) k.
Definition homeStr (k : string) : option string := strOf (homeProps baked) k.

(** Visibility on one axis: within the threshold of home, or strictly
    within it of one of the baked coordinates. *)
Definition isVisible (camera home threshold : num) (unique : list num) : bool :=
  (Num.abs (camera - home) <=? threshold)%num ||
  existsb (fun u => (Num.abs (camera - u) <? threshold)%num) unique.

(** [1 - Math.min(1, Math.max(0, Math.abs(camera - home) / window))],
    with the fallback [if (!p || isNaN(p)) p = 0]. *)
Definition falloff (camera home window : num) : num :=
  let p :=
    (Fin 1 - Num.min (Fin 1)
               (Num.max (Fin 0) (Num.abs (camera - home) / window)))%num in
  if Num.truthy p then p else Fin 0.

Definition presenceOf (cameraX cameraY : num) : num :=
  let windowX := (width dimensions * Fin (4 # 10))%num in
  let windowY := (height dimensions * Fin (4 # 10))%num in
  let pX := falloff cameraX (homeX baked) windowX in
  let pY := if isSingleRowVal then Fin 1
            else falloff cameraY (homeY baked) windowY in
  let presenceX := Num.sq pX in
  let presenceY := if isSingleRowVal then Fin 1 else Num.sq pY in
  (presenceX * presenceY)%num.

(** Reads of a lane: [lane.values[i]] and [lane.constFlags[i]]. *)
Definition constAt (flags : list bool) (i : nat) : bool := nth i flags false.

(** One numeric lane pair along an axis: the value of key number [i]
    between the lanes [L] and [R], or [None] when a lane or its array is
    missing. *)
Definition alongNum (lanes : list NumLane) (info : LaneInfo)
  (seg : SegmentInfo) (i : nat) : option num :=
  match lanes !! l1idx info, lanes !! l2idx info with
  | Some laneL, Some laneR =>
      match values laneL !! i, values laneR !! i with
      | Some o1, Some o2 =>
          let at_ (lane : NumLane) (o : list num) :=
            if constAt (constFlags lane) i || seg_constant seg
            then nth_num o (seg_i seg)
            else (nth_num o (seg_i seg)
                  + seg_p seg * (nth_num o (seg_i seg + 1) - nth_num o (seg_i seg)))%num in
          let r1 := at_ laneL o1 in
          let r2 := at_ laneR o2 in
          Some (r1 + mix info * (r2 - r1))%num
      | _, _ => None
      end
  | _, _ => None
  end.

Definition alongCol (lanes : list ColLane) (info : LaneInfo)
  (seg : SegmentInfo) (camera : num) (unique : list num) (i : nat)
  : option string :=
  match lanes !! l1idx info, lanes !! l2idx info with
  | Some laneL, Some laneR =>
      match cvalues laneL !! i, cvalues laneR !! i with
      | Some o1, Some o2 =>
          let at_ (lane : ColLane) (o : list string) :=
            if constAt (cconstFlags lane) i || seg_constant seg
            then Color.nth_col o (seg_i seg)
            else smart camera unique o in
          let r1 := at_ laneL o1 in
          let r2 := at_ laneR o2 in
          Some (smart (mix info) [Fin 0; Fin 1] [r1; r2])
      | _, _ => None
      end
  | _, _ => None
  end.

Record Geometry : Type := mkGeometry {
  laneH : LaneInfo;
  laneV : LaneInfo;
  isNearH : bool;
  isNearV : bool;
  hWeight : num;
  segX : SegmentInfo;
  segY : SegmentInfo
}.

(** The spatial value of the numeric key number [i], [k]. *)
Definition spatialNum (g : Geometry) (k : string) (i : nat) : num :=
  let home := arith (homeNum k) in
  let vH :=
    if isNearH g then default home (alongNum (bakedH baked) (laneH g) (segX g) i)
    else home in
  let vV :=
    if isNearV g then default home (alongNum (bakedV baked) (laneV g) (segY g) i)
    else home in
  let vH := if Num.isNaN vH then Num.or home (Fin 0) else vH in
  let vV := if Num.isNaN vV then Num.or home (Fin 0) else vV in
  if isNearH g && isNearV g
  then (vH * hWeight g + vV * (Fin 1 - hWeight g))%num
  else if isNearH g then vH else vV.

(** The spatial value of the colour key number [i], [k]. *)
Definition spatialCol (g : Geometry) (cameraX cameraY : num) (k : string)
  (i : nat) : string :=
  let home := default "" (homeStr k) in
  let vH :=
    if isNearH g
    then default home
           (alongCol (bakedCH baked) (laneH g) (segX g) cameraX (uniqueX baked) i)
    else home in
  let vV :=
    if isNearV g
    then default home
           (alongCol (bakedCV baked) (laneV g) (segY g) cameraY (uniqueY baked) i)
    else home in
  if isNearH g && isNearV g
  then smart (hWeight g) [Fin 0; Fin 1] [vV; vH]
  else if isNearH g then vH else vV.

(** [runSpatial] over the numeric keys, then over the colour keys. *)
Definition runSpatial (g : Geometry) (cameraX cameraY : num)
  : gmap string StyleVal :=
  let sv := homeProps baked in
  let sv :=
    fold_left (fun sv '(i, k) => <[k := SNum (spatialNum g k i)]> sv)
      (imap (fun i k => (i, k)) (numericKeys baked)) sv in
  fold_left
    (fun sv '(i, k) => <[k := SStr (spatialCol g cameraX cameraY k i)]> sv)
    (imap (fun i k => (i, k)) (colorKeys baked)) sv.

(** *** Event phase *)

Definition isColorKey (k : string) : bool :=
  bool_decide (k ∈ colorKeys baked).

Definition numRange (r : option Range) : list num :=
  match r with Some (NumRange outs) => outs | _ => [] end.

Definition colRange (r : option Range) : list string :=
  match r with Some (ColRange outs) => outs | _ => [] end.

(** [hasDuplicate]: two adjacent trigger values closer than 0.0001. *)
Fixpoint hasDuplicate (vals : list num) : bool :=
  match vals with
  | a :: ((b :: _) as rest) =>
      (Num.abs (b - a) <? Fin (1 # 10000))%num || hasDuplicate rest
  | _ => false
  end.

(** The value of a numeric key on an event lane before weighting. *)
Definition laneResult (lane : BakedLane) (val : num) (k : string)
  (range : list num) : num :=
  let home := nullish (homeNum k) (Fin 0) in
  let laneLen := length (lvalues lane) in
  if (laneLen =? 1)%nat then
    let v1 := nth_num (lvalues lane) 0 in
    if (Num.abs v1 >? Fin (1 # 1000))%num
    then interpolate val [Fin 0; v1] [home; nth_num range 0]
    else if (val >? Fin 0)%num then nth_num range 0 else home
  else if (2 <=? laneLen)%nat then
    if negb (hasDuplicate (lvalues lane))
    then interpolate val (lvalues lane) range
    else nth_num range 0
  else home.

Record EventAcc : Type := mkEventAcc {
  eventResults : gmap string num;
  eventColorResults : gmap string string
}.

(** One key of one lane. *)
Definition eventKey (lane : BakedLane) (val laneWeight : num)
  (acc : EventAcc) (ik : nat * string) : EventAcc :=
  let '(i, k) := ik in
  if isColorKey k then
    let range := colRange (outputRanges lane !! i) in
    let result :=
      if (length (lvalues lane) <? 2)%nat then Color.nth_col range 0
      else interpolateColor val (lvalues lane) range in
    let c :=
      if (laneWeight <? Fin (99 # 100))%num
      then smart laneWeight [Fin 0; Fin 1] [default "" (homeStr k); result]
      else result in
    mkEventAcc (eventResults acc) (<[k := c]> (eventColorResults acc))
  else
    let range := numRange (outputRanges lane !! i) in
    let result := laneResult lane val k range in
    let home := nullish (homeNum k) (Fin 0) in
    let diff := ((result - home) * laneWeight)%num in
    let r :=
      match eventResults acc !! k with
      | Some prev => if Num.truthy prev then (prev + diff)%num
                     else (home + diff)%num
      | None => (home + diff)%num
      end in
    mkEventAcc (<[k := r]> (eventResults acc)) (eventColorResults acc).

(** One lane: skipped when no driver of its name exists.  [events] holds
    the own members of the object [events]; a lane named like a member of
    [Object.prototype] ([Js.inherited]) would find that member for a
    driver.  [register] throws on a frame that declares such an event, so
    that a bake has no such lane; such a lane is outside the domain of
    this function. *)
Definition eventLane (presence : num) (acc : EventAcc)
  (entry : string * BakedLane) : EventAcc :=
  let '(eName, lane) := entry in
  match events !! eName with
  | None => acc
  | Some val =>
      let laneWeight := if lpersistent lane then Fin 1 else presence in
      fold_left (eventKey lane val laneWeight)
        (imap (fun i k => (i, k)) (keys lane)) acc
  end.

Definition eventPhase (presence : num) : EventAcc :=
  fold_left (eventLane presence) (eventLanes baked) (mkEventAcc ∅ ∅).

(** *** Composition *)

Definition compositeNumeric (ev : EventAcc) (k : string) (base : option num)
  : num :=
  match eventResults ev !! k with
  | None => nullish base (Fin 0)
  | Some evVal =>
      let homeVal := nullish (homeNum k) (Fin 0) in
      let evDiff := (evVal - homeVal)%num in
      if String.eqb k "opacity" || String.eqb k "_tr_scale"
      then (nullish base (Fin 0) * (evVal / Num.or homeVal (Fin 1)))%num
      else (nullish base (Fin 0) + evDiff)%num
  end.

Record Build : Type := mkBuild {
  props : Props;
  (** [props.transform], the list under construction *)
  transform : list (string * Atom);
  finalX : num;
  finalY : num
}.

Definition ofNum (v : option num) : Atom :=
  match v with Some n => ANum n | None => AUndef end.

Definition ofStr (v : option string) : Atom :=
  match v with Some s => AStr s | None => AUndef end.

Definition isRotate (tName : string) : bool :=
  String.eqb tName "rotate" || String.eqb tName "rotateX" ||
  String.eqb tName "rotateY" || String.eqb tName "rotateZ".

(** [`${res}deg`] *)
Definition degrees (res : Atom) : Atom :=
  match res with
  | ANum n => ADeg n
  | AStr s => AStr (s +:+ "deg")
  | _ => AStr "undefineddeg"
  end.

Definition isShadowKey (k : string) : bool :=
  String.eqb k "shadowOffsetWidth" || String.eqb k "shadowOffsetHeight" ||
  String.eqb k "textShadowOffsetWidth" || String.eqb k "textShadowOffsetHeight".

(** Where a finished value goes: the transform list, a shadow offset
    object, or the style object itself. *)
Definition place (b : Build) (k : string) (res : Atom) : Build :=
  if Str.startsWith "_tr_" k then
    let tName := Str.drop 4 k in
    let tVal := if isRotate tName then degrees res else res in
    mkBuild (props b) (transform b ++ [(tName, tVal)]) (finalX b) (finalY b)
  else if isShadowKey k then
    let bkey := if Str.startsWith "shadowOffset" k then "shadowOffset"
                else "textShadowOffset" in
    let field := if endsWith "Width" k then "width" else "height" in
    let old := match props b !! bkey with
               | Some (PObj fields) => fields
               | _ => []
               end in
    mkBuild (<[bkey := PObj (setField field res old)]> (props b))
            (transform b) (finalX b) (finalY b)
  else mkBuild (<[k := PAtom res]> (props b)) (transform b) (finalX b) (finalY b).

(** One key of [allKeys.forEach]. *)
Definition buildKey (ev : EventAcc) (spatialVals : gmap string StyleVal)
  (b : Build) (k : string) : Build :=
  if String.eqb k "worldX" || String.eqb k "worldY" || String.eqb k "opacity"
  then b
  else if isColorKey k then
    let res :=
      match eventColorResults ev !! k with
      | Some c => AStr c
      | None =>
          match spatialVals !! k with
          | Some (SStr s) => AStr s
          | Some (SNum n) => ANum n
          | None => ofStr (homeStr k)
          end
      end in
    place b k res
  else
    let res := compositeNumeric ev k (numOf spatialVals k) in
    let res := if Num.isNaN res then homeNum k else Some res in
    if String.eqb k "left" || String.eqb k "marginLeft" then
      mkBuild (props b) (transform b)
        (finalX b + (arith res - nullish (homeNum k) (Fin 0)))%num (finalY b)
    else if String.eqb k "top" || String.eqb k "marginTop" then
      mkBuild (props b) (transform b) (finalX b)
        (finalY b + (arith res - nullish (homeNum k) (Fin 0)))%num
    else place b k (ofNum res).

Definition clamp01 (v : num) : num := Num.max (Fin 0) (Num.min (Fin 1) v).

(** The style computed once the early exits are passed. *)
Definition compose (g : Geometry) (cameraX cameraY : num) : Props :=
  let presence := presenceOf cameraX cameraY in
  let props0 : Props :=
    <["top" := PNum (Fin 0)]>
      (<["left" := PNum (Fin 0)]>
         (<["height" := default (PNum (height dimensions))
                          (baseRest baked !! "height")]>
            (<["width" := default (PNum (width dimensions))
                            (baseRest baked !! "width")]>
               (<["position" := PStr "absolute"]> (baseRest baked))))) in
  let spatialVals := runSpatial g cameraX cameraY in
  let ev := eventPhase presence in
  let finalX0 :=
    compositeNumeric ev "worldX"
      (Some (nullish (numOf spatialVals "worldX") (Fin 0))) in
  let finalY0 :=
    compositeNumeric ev "worldY"
      (Some (nullish (numOf spatialVals "worldY") (Fin 0))) in
  let finalOp :=
    clamp01
      (compositeNumeric ev "opacity"
         (Some (nullish (numOf spatialVals "opacity") (Fin 1)))) in
  let b :=
    fold_left (buildKey ev spatialVals)
      (dedup [] (numericKeys baked ++ colorKeys baked))
      (mkBuild props0 [] finalX0 finalY0) in
  let sx := Num.or cameraX (Fin 0) in
  let sy := Num.or cameraY (Fin 0) in
  let tx := (finalX b - sx)%num in
  let ty := (finalY b - sy)%num in
  <["transform" :=
      PArr ([("translateX", ANum (if Num.isNaN tx then Fin 0 else tx));
             ("translateY", ANum (if Num.isNaN ty then Fin 0 else ty))]
            ++ transform b ++ baseTransform baked)]>
    (<["opacity" := PNum finalOp]> (props b)).

(** The worklet.  [present] tells whether the bake succeeded ([baked] is
    not [null]). *)
Definition animatedStyle (present : bool) : Props :=
  match present, events !! "x", events !! "y" with
  | true, Some cameraX, Some cameraY =>
      let thresholdX := (width dimensions * Fin (15 # 10))%num in
      let thresholdY := (height dimensions * Fin (15 # 10))%num in
      let isVisibleX := isVisible cameraX (homeX baked) thresholdX (uniqueX baked) in
      let isVisibleY := isVisible cameraY (homeY baked) thresholdY (uniqueY baked) in
      if negb isVisibleX || negb isVisibleY then invisible
      else if (width dimensions <=? Fin 0)%num || (height dimensions <=? Fin 0)%num
              || Num.isNaN (width dimensions) || Num.isNaN (height dimensions)
      then invisible
      else
        match getLaneInfo (fixed <$> bakedH baked) cameraY,
              getLaneInfo (fixed <$> bakedV baked) cameraX with
        | Some laneH, Some laneV =>
            let viewportSize := width dimensions in
            let isNearH := (dist laneH <? viewportSize)%num in
            let isNearV := (dist laneV <? viewportSize)%num in
            if negb isNearH && negb isNearV then invisible
            else
              let hWeight :=
                if isNearV then
                  if isNearH
                  then (dist laneV / (dist laneH + dist laneV + Fin (1 # 1000)))%num
                  else Fin 0
                else Fin 1 in
              compose
                (mkGeometry laneH laneV isNearH isNearV hWeight
                   (getSegmentInfo cameraX (uniqueX baked))
                   (getSegmentInfo cameraY (uniqueY baked)))
                cameraX cameraY
        | _, _ => invisible
        end
  | _, _, _ => invisible
  end.

End Worklet.

End Evaluator.

(** ** Sample baked components used in the examples *)

(** The bake of a component on page 0 of a one-row layout (400x800
    viewport, local offset (0, 0)) whose base style has opacity [op0] and
    whose only keyframes are the two event frames
    [{ event: 'scrollY', value: 0, style: { opacity: a } }] and
    [{ event: 'scrollY', value: 100, style: { opacity: b } }]: one home
    position, no spatial frame, constant lanes, one event lane. *)
Definition bakedFade (op0 a b : Q) : Evaluator.BakedResult :=
  let lane :=
    Evaluator.mkNumLane (Fin 0) [[Fin 0]; [Fin 0]; [Fin op0]] [true; true; true] in
  let clane := Evaluator.mkColLane (Fin 0) [] [] in
  Evaluator.mkBakedResult (Fin 0) (Fin 0) (Fin 0) (Fin 0)
    [lane] [lane] [clane] [clane]
    [("scrollY",
      Evaluator.mkLane [Fin 0; Fin 100] [Evaluator.NumRange [Fin a; Fin b]]
        ["opacity"] false)]
    [Fin 0] [Fin 0]
    ["worldX"; "worldY"; "opacity"] []
    {[ "position" := PStr "absolute" ]} []
    {[ "worldX" := SNum (Fin 0); "worldY" := SNum (Fin 0);
       "opacity" := SNum (Fin op0) ]}.

(** The same component with home opacity 1 and two event lanes on the
    opacity: [scrollY], from 1 at the value 0 to 0 at 100, and [drag], from
    1 at the value 0 to 1/2 at 100. *)
Definition bakedTwoFades : Evaluator.BakedResult :=
  let lane :=
    Evaluator.mkNumLane (Fin 0) [[Fin 0]; [Fin 0]; [Fin 1]] [true; true; true] in
  let clane := Evaluator.mkColLane (Fin 0) [] [] in
  Evaluator.mkBakedResult (Fin 0) (Fin 0) (Fin 0) (Fin 0)
    [lane] [lane] [clane] [clane]
    [("scrollY",
      Evaluator.mkLane [Fin 0; Fin 100] [Evaluator.NumRange [Fin 1; Fin 0]]
        ["opacity"] false);
     ("drag",
      Evaluator.mkLane [Fin 0; Fin 100]
        [Evaluator.NumRange [Fin 1; Fin (1 # 2)]] ["opacity"] false)]
    [Fin 0] [Fin 0]
    ["worldX"; "worldY"; "opacity"] []
    {[ "position" := PStr "absolute" ]} []
    {[ "worldX" := SNum (Fin 0); "worldY" := SNum (Fin 0);
       "opacity" := SNum (Fin 1) ]}.

(** Camera at [(cx, cy)], the [scrollY] driver at [d]. *)
Definition eventsAt (cx cy : num) (d : Q) : gmap string num :=
  {[ "x" := cx; "y" := cy; "scrollY" := Fin d ]}.

(** The worklet with the library functions instantiated by their models,
    on a one-row layout. *)
Definition sampleStyle (dims : Dims) (baked : Evaluator.BakedResult)
  (events : gmap string num) : Props :=
  Evaluator.animatedStyle Reanimated.interpolate jsBlend dims true baked events
    true.

(** The opacity of a style object, when it is a number. *)
Definition opacityOf (p : Props) : option num :=
  match p !! "opacity" with
  | Some (PNum n) => Some n
  | _ => None
  end.

(** The bake of a 100 x 100 card on page 0 of a one-row layout (local
    offset (0, 0)) with home opacity 1 and home border radius 8, whose
    only keyframes are two event frames of the lane [scrollY], at the
    values 0 and 100, that take the opacity from 1 to 0, the border
    radius from 8 to 24 and the world x-position from 0 to 50. *)
Definition bakedCard : Evaluator.BakedResult :=
  let lane :=
    Evaluator.mkNumLane (Fin 0) [[Fin 0]; [Fin 0]; [Fin 1]; [Fin 8]]
      [true; true; true; true] in
  let clane := Evaluator.mkColLane (Fin 0) [] [] in
  Evaluator.mkBakedResult (Fin 0) (Fin 0) (Fin 0) (Fin 0)
    [lane] [lane] [clane] [clane]
    [("scrollY",
      Evaluator.mkLane [Fin 0; Fin 100]
        [Evaluator.NumRange [Fin 1; Fin 0];
         Evaluator.NumRange [Fin 8; Fin 24];
         Evaluator.NumRange [Fin 0; Fin 50]]
        ["opacity"; "borderRadius"; "worldX"] false)]
    [Fin 0] [Fin 0]
    ["worldX"; "worldY"; "opacity"; "borderRadius"] []
    {[ "width" := PNum (Fin 100); "height" := PNum (Fin 100) ]} []
    {[ "worldX" := SNum (Fin 0); "worldY" := SNum (Fin 0);
       "opacity" := SNum (Fin 1); "borderRadius" := SNum (Fin 8) ]}.

(** Camera at [(cx, cy)], the [scrollY] driver at the number [d]. *)
Definition eventsWith (cx cy d : num) : gmap string num :=
  {[ "x" := cx; "y" := cy; "scrollY" := d ]}.

(** ** Page visibility (aniviewProvider.tsx, [updateVisibility]) *)

Module AniviewProvider.

(** [updateVisibility(centerPage)], as a function of the set held by
    [visiblePagesRef.current]; the result is the set the ref holds
    afterwards.  The set [visible] collects the pages of the layout at
    most one row and one column away from the centre page, and replaces
    the current one unless the two have the same size and every element
    of [visible] is in the current one. *)
Definition updateVisibility (config : AniviewConfig.t) (centerPage : PageId)
  (current : gset Z) : gset Z :=
  let pages := AniviewConfig.getPages config in
  let resolvedCenter := AniviewConfig.resolvePageId config centerPage in
  let centerPos :=
    AniviewMath.pageIdToMatrixPos resolvedCenter (AniviewConfig.layout config) in
  let visible : gset Z :=
    fold_left
      (fun visible p =>
         let pPos := AniviewMath.pageIdToMatrixPos p (AniviewConfig.layout config) in
         let rowDist := Z.abs (AniviewMath.r pPos - AniviewMath.r centerPos) in
         let colDist := Z.abs (AniviewMath.c pPos - AniviewMath.c centerPos) in
         if ((rowDist <=? 1) && (colDist <=? 1))%Z then {[ p ]} ∪ visible
         else visible)
      pages ∅ in
  if negb (size current =? size visible)%nat
     || negb (bool_decide (set_Forall (fun v => v ∈ current) visible))
  then visible
  else current.

End AniviewProvider.
(* ===================================================================== *)
(** * Part II. Properties                                                 *)
(* ===================================================================== *)

(** ** Facts about numbers *)

Lemma Qltb_lt (a b : Q) : Num.Qltb a b = true <-> a < b.
Proof.
  unfold Num.Qltb. rewrite negb_true_iff.
  split; intros H.
  - apply Qnot_le_lt. intros Hle. apply Qle_bool_iff in Hle. congruence.
  - destruct (Qle_bool b a) eqn:E; [|reflexivity].
    apply Qle_bool_iff in E. exfalso. eapply Qlt_not_le; eauto.
Qed.

Lemma Qle_bool_false (a b : Q) : Qle_bool a b = false <-> b < a.
Proof.
  split; intros H.
  - apply Qnot_le_lt. intros Hle. apply Qle_bool_iff in Hle. congruence.
  - destruct (Qle_bool a b) eqn:E; [|reflexivity].
    apply Qle_bool_iff in E. exfalso. eapply Qlt_not_le; eauto.
Qed.

Lemma Qltb_false (a b : Q) : Num.Qltb a b = false <-> b <= a.
Proof.
  unfold Num.Qltb. rewrite negb_false_iff. apply Qle_bool_iff.
Qed.

(** Turns the boolean tests on rationals in the context and the goal into
    propositions, for [lra]. *)
Ltac q_prop :=
  repeat match goal with
  | H : Qle_bool _ _ = true |- _ => apply Qle_bool_iff in H
  | H : Qle_bool _ _ = false |- _ => apply Qle_bool_false in H
  | H : Num.Qltb _ _ = true |- _ => apply Qltb_lt in H
  | H : Num.Qltb _ _ = false |- _ => apply Qltb_false in H
  | H : Qeq_bool _ _ = true |- _ => apply Qeq_bool_iff in H
  | H : Qeq_bool _ _ = false |- _ => apply Qeq_bool_neq in H
  | |- Qle_bool _ _ = true => apply Qle_bool_iff
  | |- Qle_bool _ _ = false => apply Qle_bool_false
  | |- Num.Qltb _ _ = true => apply Qltb_lt
  | |- Num.Qltb _ _ = false => apply Qltb_false
  | |- Qeq_bool _ _ = true => apply Qeq_bool_iff
  end.

(** Case analysis on the numbers of a goal about comparisons. *)
Ltac num_cases :=
  intros;
  repeat match goal with
  | a : num |- _ => destruct a
  end;
  cbn in *; try congruence; try discriminate; try reflexivity;
  q_prop; try lra.

Lemma leb_trans (a b c : num) :
  (a <=? b)%num = true -> (b <=? c)%num = true -> (a <=? c)%num = true.
Proof. num_cases. Qed.

Lemma ltb_false_leb (a b : num) :
  a <> NaN -> b <> NaN -> (a <? b)%num = false -> (b <=? a)%num = true.
Proof. num_cases. Qed.

Lemma leb_ltb_false (a b : num) :
  (a <=? b)%num = true -> (b <? a)%num = false.
Proof. num_cases. Qed.

Lemma ltb_NaN_r (a : num) : (a <? NaN)%num = false.
Proof. now destruct a. Qed.

Lemma ltb_NaN_l (a : num) : (NaN <? a)%num = false.
Proof. reflexivity. Qed.

(** A difference is negative exactly when the first operand is the
    smaller one (two equal infinities give NaN, which is not negative). *)
Lemma sub_neg_ltb (a b : num) :
  a <> NaN -> b <> NaN -> (a - b <? Fin 0)%num = (a <? b)%num.
Proof.
  intros Ha Hb. destruct a as [| | |x], b as [| | |y];
    cbn; try congruence; try reflexivity.
  destruct (Num.Qltb x y) eqn:E; q_prop; lra.
Qed.

Lemma or_not_NaN (a : num) : Num.or a Num.zero <> NaN.
Proof. unfold Num.or. destruct a; cbn; try discriminate. now destruct (Qeq_bool q 0). Qed.

(** ** Segment lookup *)

(** Adjacent entries strictly increase. *)
Definition increasing (xs : list Q) : Prop :=
  forall i, (S i < length xs)%nat -> nth i xs 0 < nth (S i) xs 0.

Lemma nth_num_Fin (xs : list Q) (i : nat) :
  (i < length xs)%nat -> nth_num (map Fin xs) i = Fin (nth i xs 0).
Proof.
  intros Hi. unfold nth_num.
  rewrite (nth_indep _ NaN (Fin 0)) by (rewrite length_map; exact Hi).
  apply (map_nth Fin).
Qed.

(** The loop leaves through its condition, never through the fuel: with at
    least [len - 1 - i] iterations allowed it stops at an index [r] where
    the condition is false, and every index it stepped over satisfied
    [val >= input[r]]. *)
Lemma segLoop_exit (val : num) (input : list num) (fuel i : nat) :
  (length input - 1 - i <= fuel)%nat ->
  (i <= length input - 1)%nat ->
  let r := segLoop val input fuel i in
  (i <= r <= length input - 1)%nat /\
  (r = i \/ (val >=? nth_num input r)%num = true) /\
  ((r <? length input - 1)%nat && (val >=? nth_num input (r + 1))%num = false).
Proof.
  revert i. induction fuel as [|fuel IH]; intros i Hfuel Hi; cbn [segLoop].
  - assert (i = length input - 1)%nat as -> by lia.
    split; [lia|]. split; [now left|].
    rewrite Nat.ltb_irrefl. reflexivity.
  - destruct ((i <? length input - 1)%nat && (val >=? nth_num input (i + 1))%num)
      eqn:Hc.
    + apply andb_prop in Hc as [Hlt Hge]. apply Nat.ltb_lt in Hlt.
      destruct (IH (S i)) as (Hr & Hinv & Hstop); [lia | lia |].
      split; [lia|]. split; [|exact Hstop].
      destruct Hinv as [-> | Hinv]; [|now right].
      right. now replace (S i) with (i + 1)%nat by lia.
    + split; [lia|]. split; [now left | exact Hc].
Qed.

(** C10 fails as stated: a NaN camera value passes both range checks
    (every comparison with NaN is false), the loop stops at index 0 and the
    progress [(NaN - 0) / 100] is NaN, which is not in [0, 1). *)
Lemma getSegmentInfo_nan_progress :
  let r := getSegmentInfo NaN [Fin 0; Fin 100] in
  seg_constant r = false /\ seg_i r = 0%nat /\ seg_p r = NaN /\
  ~ (Num.le (Fin 0) (seg_p r) /\ Num.lt (seg_p r) (Fin 1)).
Proof.
  vm_compute. repeat split; try reflexivity. intros [H _]. discriminate H.
Qed.

(** In binary64 the progress reaches 1: at the camera value
    399.99999999999994 (the binary64 value next below 400) on the axis
    [-400, 400] the lookup is not constant, the difference
    [val - input[0]] rounds to 800 and the progress is exactly 1. *)
Lemma getSegmentInfo_progress_reaches_one :
  let val := SpecFloat.S754_finite false 7036874417766399 (-44) in
  F64.ltb val (F64.ofZ 400) = true /\
  F64.sub val (F64.ofZ (-400)) = F64.ofZ 800 /\
  F64.getSegmentInfo val [F64.ofZ (-400); F64.ofZ 400] =
  F64.mkSeg 0 (F64.ofZ 1) false.
Proof. vm_compute. repeat split; reflexivity. Qed.

(** A NaN camera leaves the loop at index 0. *)
Lemma segLoop_NaN (input : list num) (fuel : nat) :
  segLoop NaN input fuel 0 = 0%nat.
Proof.
  destruct fuel as [|fuel]; [reflexivity|]. cbn [segLoop].
  assert ((NaN >=? nth_num input (0 + 1))%num = false) as ->.
  { now destruct (nth_num input (0 + 1)). }
  now rewrite andb_false_r.
Qed.

(** C10 (amended): for every non-empty, strictly increasing array of
    (finite) coordinates and every camera value, NaN and the infinities
    included, [getSegmentInfo] returns an index [i <= length - 1];
    whenever it reports [constant = false], also [i + 1 <= length - 1],
    a camera that is not NaN lies in the half-open bracket
    [[xs[i], xs[i+1])], and the progress [p] is NaN or satisfies
    [0 <= p <= 1].  Hence the reads [values[i]] and [values[i + 1]] of a
    lane as long as the axis are in bounds. *)
Theorem getSegmentInfo_in_bounds (xs : list Q) (val : num) :
  xs <> [] -> increasing xs ->
  let r := getSegmentInfo val (map Fin xs) in
  (seg_i r <= length xs - 1)%nat /\
  (seg_constant r = false ->
   (seg_i r + 1 <= length xs - 1)%nat /\
   (val <> NaN ->
    exists v, val = Fin v /\
      nth (seg_i r) xs 0 <= v /\ v < nth (seg_i r + 1) xs 0) /\
   (seg_p r = NaN \/ exists p, seg_p r = Fin p /\ 0 <= p /\ p <= 1)).
Proof.
  intros Hne Hinc. unfold getSegmentInfo.
  rewrite length_map.
  destruct (length xs) as [|n] eqn:Hlen.
  { destruct xs; [congruence | discriminate]. }
  change (S n =? 0)%nat with false. cbv iota.
  destruct ((S n =? 1)%nat || (val <=? nth_num (map Fin xs) 0)%num) eqn:H0.
  { cbn. split; [lia | discriminate]. }
  apply orb_false_elim in H0 as [Hn1 Hlo]. apply Nat.eqb_neq in Hn1.
  destruct (val >=? nth_num (map Fin xs) (S n - 1))%num eqn:Hhi.
  { cbn [seg_i seg_constant]. split; [lia | discriminate]. }
  set (i := segLoop val (map Fin xs) (S n) 0).
  destruct (segLoop_exit val (map Fin xs) (S n) 0) as (Hr & Hinv & Hstop);
    rewrite ?length_map, ?Hlen; try lia.
  fold i in Hr, Hinv, Hstop. rewrite length_map, Hlen in Hr, Hstop.
  cbn [seg_i seg_p seg_constant].
  split; [lia|]. intros _.
  rewrite nth_num_Fin in Hlo by lia.
  rewrite nth_num_Fin in Hhi by lia.
  destruct val as [| | |v]; try discriminate.
  - (* a NaN camera: index 0, progress NaN or 0 *)
    assert (i = 0%nat) as -> by apply segLoop_NaN.
    split; [lia|]. split; [congruence|].
    rewrite !nth_num_Fin by lia.
    destruct (Fin (nth (0 + 1) xs 0) - Fin (nth 0 xs 0) >? Fin (1 # 1000))%num.
    + left. cbn [Num.sub Num.neg Num.add Num.div]. reflexivity.
    + right. exists 0. split; [reflexivity | lra].
  - (* a finite camera *)
    cbn [Num.geb Num.leb] in Hlo, Hhi. apply Qle_bool_false in Hlo, Hhi.
    (* the loop stopped strictly before the last index *)
    assert (i < S n - 1)%nat as Hi.
    { destruct (Nat.eq_dec i (S n - 1)%nat) as [Heq|]; [|lia].
      exfalso. destruct Hinv as [Hi0 | Hge]; [lia|].
      rewrite Heq, nth_num_Fin in Hge by lia. cbn [Num.geb Num.leb] in Hge.
      apply Qle_bool_iff in Hge. apply (Qlt_not_le _ _ Hhi Hge). }
    apply Nat.ltb_lt in Hi as Hib. rewrite Hib in Hstop. cbn [andb] in Hstop.
    rewrite nth_num_Fin in Hstop by lia. cbn [Num.geb Num.leb] in Hstop.
    apply Qle_bool_false in Hstop.
    assert (nth i xs 0 <= v) as Hge.
    { destruct Hinv as [Hi0 | Hge].
      - rewrite Hi0. now apply Qlt_le_weak.
      - rewrite nth_num_Fin in Hge by lia. cbn [Num.geb Num.leb] in Hge.
        now apply Qle_bool_iff in Hge. }
    split; [lia|]. split; [intros _; exists v; auto|].
    right. rewrite !nth_num_Fin by lia.
    specialize (Hinc i). replace (S i) with (i + 1)%nat in Hinc by lia.
    specialize (Hinc ltac:(lia)).
    set (a := nth i xs 0) in *. set (b := nth (i + 1) xs 0) in *.
    clearbody a b.
    cbn [Num.sub Num.neg Num.add Num.gtb Num.ltb].
    destruct (Num.Qltb (1 # 1000) (b + - a)) eqn:Hgap.
    + cbn [Num.div].
      destruct (Qeq_bool (b + - a) 0) eqn:Hz.
      { apply Qeq_bool_iff in Hz. lra. }
      eexists; split; [reflexivity|].
      assert (0 < b + - a) as Hpos by lra.
      split.
      * apply Qle_shift_div_l; [exact Hpos | lra].
      * apply Qle_shift_div_r; [exact Hpos | lra].
    + exists 0. split; [reflexivity | lra].
Qed.

Lemma getSegmentInfo_in_bounds_witness :
  let r := getSegmentInfo (Fin 50) (map Fin [0; 100]) in
  (seg_i r <= 1)%nat /\
  (seg_constant r = false ->
   (seg_i r + 1 <= 1)%nat /\
   (Fin 50 <> NaN ->
    exists v, Fin 50 = Fin v /\
      nth (seg_i r) [0; 100] 0 <= v /\ v < nth (seg_i r + 1) [0; 100] 0) /\
   (seg_p r = NaN \/ exists p, seg_p r = Fin p /\ 0 <= p /\ p <= 1)).
Proof.
  apply (getSegmentInfo_in_bounds [0; 100] (Fin 50)).
  - discriminate.
  - intros i Hi. cbn in Hi. assert (i = 0%nat) as -> by lia. reflexivity.
Defined.

(** ** Keyframe registration *)

Section register_props.
Context (this : AniviewConfig.t) (dims : Dims).
Context (resolvedHomeId : Z) (homeOffset : AniviewMath.Offset).

(** What the claim says a spatial frame is baked to: the frame annotated
    with the offset of its resolved target page (the home page when the
    frame names none) minus the home offset. *)
Definition bakedSpatial (f : AniviewFrame) : BakedFrame :=
  let targetPageId :=
    match page f with
    | Some p => AniviewConfig.resolvePageId this p
    | None => resolvedHomeId
    end in
  let targetOffset :=
    AniviewConfig.getPageOffset this (PageNum targetPageId) dims in
  mkBaked f
    (AniviewMath.x targetOffset - AniviewMath.x homeOffset)%num
    (AniviewMath.y targetOffset - AniviewMath.y homeOffset)%num.

Definition declaresSpatial (f : AniviewFrame) : Prop :=
  page f <> None \/ event f = None.

Definition inLane (e : string) (f : AniviewFrame) : Prop := event f = Some e.

#[global] Instance inLane_dec e f : Decision (inLane e f).
Proof. unfold inLane. apply _. Defined.

(** The event of the frame, if it declares one, is not the name of a
    member of [Object.prototype]. *)
Definition ownEvent (f : AniviewFrame) : Prop :=
  forall e, event f = Some e -> Js.inherited e = false.

(** What one iteration leaves when it does not throw. *)
Definition registerStep
  (acc : gmap string BakedFrame * gmap string (list BakedFrame))
  (entry : string * AniviewFrame)
  : gmap string BakedFrame * gmap string (list BakedFrame) :=
  let '(key, f) := entry in
  (if AniviewConfig.isSome (page f) || negb (AniviewConfig.isSome (event f))
   then if String.eqb key "__proto__" then acc.1
        else <[key := bakedSpatial f]> acc.1
   else acc.1,
   if AniviewConfig.truthyStr (event f)
   then let e := default "" (event f) in
        <[e := default [] (acc.2 !! e) ++ [AniviewConfig.laneEntry f]]> acc.2
   else acc.2).

Lemma registerEntry_returns acc key f :
  ownEvent f ->
  AniviewConfig.registerEntry this dims resolvedHomeId homeOffset acc (key, f)
  = Js.Returns (registerStep acc (key, f)).
Proof.
  intros Hown. destruct acc as [b l].
  unfold AniviewConfig.registerEntry, registerStep, bakedSpatial. cbn [fst snd].
  destruct (AniviewConfig.truthyStr (event f)) eqn:Ht; [|reflexivity].
  destruct (event f) as [e|] eqn:He; [|discriminate].
  cbn [default from_option id].
  destruct (l !! e) as [lane|] eqn:Hl; cbn [default from_option id app].
  - reflexivity.
  - now rewrite (Hown e He).
Qed.

Lemma forEach_returns es acc :
  Forall (fun entry => ownEvent entry.2) es ->
  Js.forEach (AniviewConfig.registerEntry this dims resolvedHomeId homeOffset)
    es acc
  = Js.Returns (fold_left registerStep es acc).
Proof.
  intros Hown. revert acc.
  induction Hown as [|[k f] es Hf _ IH]; intros acc; [reflexivity|].
  cbn [Js.forEach fold_left]. rewrite registerEntry_returns by exact Hf.
  apply IH.
Qed.

(** An inherited event name stops the registration. *)
Lemma registerEntry_throws acc key f e :
  event f = Some e -> e <> "" -> Js.inherited e = true -> acc.2 !! e = None ->
  AniviewConfig.registerEntry this dims resolvedHomeId homeOffset acc (key, f)
  = Js.Throws "TypeError".
Proof.
  intros He Hne Hin Hnone. destruct acc as [b l]. cbn [snd] in Hnone.
  unfold AniviewConfig.registerEntry. rewrite He.
  assert (AniviewConfig.truthyStr (Some e) = true) as ->.
  { cbn. apply negb_true_iff. now apply String.eqb_neq. }
  cbn [default from_option id]. now rewrite Hnone, Hin.
Qed.

Lemma step_baked_other key acc k f :
  k <> key -> (registerStep acc (k, f)).1 !! key = acc.1 !! key.
Proof.
  intros Hne. destruct acc as [b l]. unfold registerStep. cbn [fst snd].
  destruct (_ || _); [|reflexivity].
  destruct (String.eqb k "__proto__"); [reflexivity|].
  now rewrite lookup_insert_ne.
Qed.

Lemma fold_baked_notin key es acc :
  key ∉ es.*1 -> (fold_left registerStep es acc).1 !! key = acc.1 !! key.
Proof.
  revert acc. induction es as [|[k f] es IH]; intros acc Hnotin; [done|].
  cbn in Hnotin. apply not_elem_of_cons in Hnotin as [Hne Hnotin].
  cbn [fold_left]. rewrite IH by done. now apply step_baked_other.
Qed.

Lemma step_baked_spatial acc key f :
  declaresSpatial f -> key <> "__proto__" ->
  (registerStep acc (key, f)).1 !! key = Some (bakedSpatial f).
Proof.
  intros Hsp Hkey. destruct acc as [b l]. unfold registerStep. cbn [fst snd].
  assert (AniviewConfig.isSome (page f) || negb (AniviewConfig.isSome (event f))
          = true) as ->.
  { destruct Hsp as [Hp | He].
    - destruct (page f); [reflexivity | congruence].
    - rewrite He. cbn. apply orb_true_r. }
  apply String.eqb_neq in Hkey. rewrite Hkey. now rewrite lookup_insert_eq.
Qed.

Lemma fold_baked_in key f es acc :
  NoDup es.*1 -> (key, f) ∈ es -> declaresSpatial f -> key <> "__proto__" ->
  (fold_left registerStep es acc).1 !! key = Some (bakedSpatial f).
Proof.
  revert acc. induction es as [|[k f'] es IH]; intros acc Hnd Hin Hsp Hkey.
  { by apply elem_of_nil in Hin. }
  cbn in Hnd. apply NoDup_cons in Hnd as [Hk Hnd].
  rewrite elem_of_cons in Hin. destruct Hin as [Heq | Hin]; cbn [fold_left].
  - injection Heq as <- <-.
    rewrite fold_baked_notin by done. now apply step_baked_spatial.
  - now apply IH.
Qed.

Lemma truthyStr_Some e : e <> "" -> AniviewConfig.truthyStr (Some e) = true.
Proof.
  intros Hne. cbn. apply negb_true_iff. now apply String.eqb_neq.
Qed.

Lemma step_lane e acc k f :
  e <> "" ->
  (registerStep acc (k, f)).2 !! e =
  if decide (inLane e f)
  then Some (default [] (acc.2 !! e) ++ [AniviewConfig.laneEntry f])
  else acc.2 !! e.
Proof.
  intros Hne. destruct acc as [b l]. unfold registerStep. cbn [fst snd].
  destruct (decide (inLane e f)) as [Hin | Hout]; unfold inLane in *.
  - rewrite Hin, truthyStr_Some by done. cbn. now rewrite lookup_insert_eq.
  - destruct (event f) as [e'|]; [|reflexivity].
    destruct (AniviewConfig.truthyStr (Some e')); [|reflexivity].
    cbn. rewrite lookup_insert_ne; [reflexivity | congruence].
Qed.

(** The raw lane of a non-empty event name after the [forEach]: the lane
    entries of the frames declaring that event, in declaration order,
    behind what the lane held before. *)
Lemma fold_lanes e es acc :
  e <> "" ->
  (fold_left registerStep es acc).2 !! e =
  match filter (inLane e) es.*2 with
  | [] => acc.2 !! e
  | fs => Some (default [] (acc.2 !! e) ++ (AniviewConfig.laneEntry <$> fs))
  end.
Proof.
  intros Hne. revert acc. induction es as [|[k f] es IH]; intros acc; [done|].
  cbn [fold_left fmap list_fmap snd]. rewrite IH, step_lane by done.
  rewrite filter_cons. destruct (decide (inLane e f)) as [Hf | Hf]; cbn.
  - destruct (filter (inLane e) es.*2) as [|f1 fs]; cbn; [reflexivity|].
    now rewrite <- app_assoc.
  - reflexivity.
Qed.

End register_props.

(** *** The sort *)

Definition laneValue (a : BakedFrame) : num := default NaN (value (frame a)).

Definition keyLe (a b : BakedFrame) : Prop :=
  (AniviewConfig.sortKey a <=? AniviewConfig.sortKey b)%num = true.

Lemma sortKey_not_NaN a : AniviewConfig.sortKey a <> NaN.
Proof. apply or_not_NaN. Qed.

Lemma cmpNeg_ltb a b :
  AniviewConfig.cmpNeg a b =
  (AniviewConfig.sortKey a <? AniviewConfig.sortKey b)%num.
Proof. apply sub_neg_ltb; apply sortKey_not_NaN. Qed.

Lemma keyLe_trans a b c : keyLe a b -> keyLe b c -> keyLe a c.
Proof. apply leb_trans. Qed.

Lemma sortInsert_perm a l : AniviewConfig.sortInsert a l ≡ₚ a :: l.
Proof.
  induction l as [|b l IH]; cbn; [done|].
  destruct (AniviewConfig.cmpNeg b a); [|done].
  rewrite IH. apply Permutation_swap.
Qed.

Lemma sortLane_perm l : AniviewConfig.sortLane l ≡ₚ l.
Proof.
  induction l as [|a l IH]; cbn; [done|].
  rewrite sortInsert_perm. now rewrite IH.
Qed.

Lemma sortInsert_sorted a l :
  StronglySorted keyLe l -> StronglySorted keyLe (AniviewConfig.sortInsert a l).
Proof.
  induction 1 as [|b l Hs IH Hb]; cbn.
  - repeat constructor.
  - destruct (AniviewConfig.cmpNeg b a) eqn:Hc; rewrite cmpNeg_ltb in Hc.
    + constructor; [exact IH|].
      rewrite sortInsert_perm. constructor; [|exact Hb].
      unfold keyLe. revert Hc. generalize (AniviewConfig.sortKey a),
        (AniviewConfig.sortKey b). num_cases.
    + assert (keyLe a b) as Hab.
      { apply ltb_false_leb; auto using sortKey_not_NaN. }
      constructor; [now constructor|].
      constructor; [exact Hab|].
      eapply Forall_impl; [exact Hb|]. intros c Hbc. eapply keyLe_trans; eauto.
Qed.

Lemma sortLane_sorted l : StronglySorted keyLe (AniviewConfig.sortLane l).
Proof.
  induction l as [|a l IH]; cbn; [constructor | now apply sortInsert_sorted].
Qed.

Lemma StronglySorted_lookup {A} (R : relation A) (l : list A) i j a b :
  StronglySorted R l -> (i < j)%nat ->
  l !! i = Some a -> l !! j = Some b -> R a b.
Proof.
  intros Hs. revert i j. induction Hs as [|c l Hs IH Hc]; intros i j Hij Hi Hj.
  { discriminate. }
  destruct j as [|j]; [lia|]. cbn in Hj.
  destruct i as [|i]; cbn in Hi.
  - injection Hi as ->. rewrite Forall_forall in Hc. apply Hc.
    eapply list_elem_of_lookup_2; eauto.
  - apply (IH i j); [lia | done | done].
Qed.

(** Ascending by value: no entry is followed by one of a strictly smaller
    value, and any two values that are numbers (not NaN) are in order. *)
Definition ascending (lane : list BakedFrame) : Prop :=
  forall i j a b, (i < j)%nat -> lane !! i = Some a -> lane !! j = Some b ->
    (laneValue b <? laneValue a)%num = false /\
    (laneValue a <> NaN -> laneValue b <> NaN ->
     (laneValue a <=? laneValue b)%num = true).

Lemma keyLe_values a b :
  keyLe a b -> laneValue a <> NaN -> laneValue b <> NaN ->
  (laneValue a <=? laneValue b)%num = true.
Proof.
  unfold keyLe, AniviewConfig.sortKey. fold (laneValue a) (laneValue b).
  generalize (laneValue a) (laneValue b). intros u v.
  unfold Num.or, Num.zero.
  destruct u as [| | |p], v as [| | |q]; cbn; try congruence;
    repeat match goal with
    | |- context [Qeq_bool ?z 0] => destruct (Qeq_bool z 0) eqn:?; cbn
    end; intros; try congruence; q_prop; lra.
Qed.

Lemma sortLane_ascending l : ascending (AniviewConfig.sortLane l).
Proof.
  intros i j a b Hij Hi Hj.
  pose proof (StronglySorted_lookup keyLe _ i j a b (sortLane_sorted l) Hij Hi Hj)
    as Hab.
  assert (laneValue a <> NaN -> laneValue b <> NaN ->
          (laneValue a <=? laneValue b)%num = true) as Hle.
  { now apply keyLe_values. }
  split; [|exact Hle].
  destruct (laneValue a) eqn:Ea; [apply ltb_NaN_r | | |];
    (destruct (laneValue b) eqn:Eb; [reflexivity | | |]);
    apply leb_ltb_false, Hle; discriminate.
Qed.

(** *** The claim *)

(** Keys of an object are distinct; the keys [f_0, f_1, ...] of the array
    form are distinct by construction. *)
Definition wfKeyframes (kf : Keyframes) : Prop :=
  match kf with
  | KfArray _ => True
  | KfRecord entries => NoDup entries.*1
  end.

Lemma entriesOf_NoDup kf : wfKeyframes kf -> NoDup (AniviewConfig.entriesOf kf).*1.
Proof.
  destruct kf as [frames | entries]; cbn; [intros _ | done].
  apply NoDup_alt. intros i j k Hi Hj.
  rewrite list_lookup_fmap, list_lookup_imap in Hi, Hj.
  destruct (frames !! i); [|discriminate]. destruct (frames !! j); [|discriminate].
  cbn in Hi, Hj. rewrite <- Hj in Hi. injection Hi as Hi.
  now apply (inj pretty).
Qed.

(** No frame declares an event named like a member of
    [Object.prototype]. *)
Definition ownEvents (kf : Keyframes) : Prop :=
  Forall (fun entry => ownEvent entry.2) (AniviewConfig.entriesOf kf).




(** The registration of the two sample frames, evaluated: the frame with
    both a page and an event is baked 400 to the right of home and sits in
    the lane behind the frame whose value defaulted to 0. *)
Example register_sample :
  let kf := KfRecord [("a", frameBoth); ("b", frameEventOnly)] in
  exists reg,
    AniviewConfig.register row3 (PageNum 0) dims400 (Some kf) None
    = Js.Returns reg /\
    option_map worldX (AniviewConfig.bakedFrames reg !! "a")
    = Some (Fin 400 - Fin 0)%num /\
    AniviewConfig.bakedFrames reg !! "b" = None /\
    option_map (map (fun b => value (frame b)))
      (AniviewConfig.eventLanes reg !! "scrollY")
    = Some [Some (Fin 0); Some (Fin 100)].
Proof.
  eexists. split; [vm_compute; reflexivity|]. vm_compute. auto.
Qed.

(** ** Gesture machine *)

(** The update handler reads the mask only through its bits 0 and 1. *)
Lemma blocked_low_bits (m bit : Z) :
  (bit = 1 \/ bit = 2)%Z ->
  Gesture.blocked (Some m) bit = Gesture.blocked (Some (Z.land m 3)) bit.
Proof.
  intros Hbit. unfold Gesture.blocked. f_equal. f_equal.
  rewrite <- Z.land_assoc. destruct Hbit as [-> | ->]; reflexivity.
Qed.

Lemma onUpdate_low_bits (g : Gesture.t) (m : Z) (en : option bool)
  (last : option PageId) (ev : Gesture.Event) (s : Gesture.State) :
  Gesture.onUpdate g (Gesture.mkInputs (Some m) en last) ev s =
  Gesture.onUpdate g (Gesture.mkInputs (Some (Z.land m 3)) en last) ev s.
Proof.
  unfold Gesture.onUpdate. cbn [Gesture.lockMask Gesture.gestureEnabled].
  now rewrite <- !blocked_low_bits by auto.
Qed.

(** C1, the code at the failing inputs.  On the 3x3 grid with the camera
    at rest on the centre page:
    - with only the [up] bit (4) or only the [down] bit (8) set, a vertical
      pan moves the camera both ways, by the full translation;
    - with only the [left] bit (1) set, a horizontal pan moves the camera
      in neither direction, although the [right] bit is clear;
    - with only the [right] bit (2) set, a horizontal pan moves the camera
      both ways and a vertical pan moves it in neither direction. *)
Theorem lock_mask_gates_axes_not_directions :
  let upd directions tx ty :=
    Gesture.onUpdate gesture3x3 (withMask directions) (panBy tx ty) atOrigin in
  AniviewLock.mask lockUp = 4%Z /\ AniviewLock.mask lockDown = 8%Z /\
  AniviewLock.mask lockLeft = 1%Z /\ AniviewLock.mask lockRight = 2%Z /\
  (Gesture.y (upd lockUp 0 50) == Fin (-50))%num /\
  (Gesture.y (upd lockUp 0 (-50)) == Fin 50)%num /\
  (Gesture.y (upd lockDown 0 50) == Fin (-50))%num /\
  (Gesture.y (upd lockDown 0 (-50)) == Fin 50)%num /\
  (Gesture.x (upd lockLeft 50 0) == Fin 0)%num /\
  (Gesture.x (upd lockLeft (-50) 0) == Fin 0)%num /\
  (Gesture.x (upd lockRight 50 0) == Fin (-50))%num /\
  (Gesture.x (upd lockRight (-50) 0) == Fin 50)%num /\
  (Gesture.y (upd lockRight 0 50) == Fin 0)%num /\
  (Gesture.y (upd lockRight 0 (-50)) == Fin 0)%num.
Proof. vm_compute. repeat split; reflexivity. Qed.

(** *** Snap points *)

Lemma getPages_nonneg (this : AniviewConfig.t) (p : Z) :
  In p (AniviewConfig.getPages this) -> (0 <= p)%Z.
Proof.
  unfold AniviewConfig.getPages.
  destruct (length (AniviewConfig.layout this) =? 0)%nat.
  { intros [<- | []]. lia. }
  intros Hin. apply in_flat_map in Hin as (rowIndex & _ & Hin).
  apply in_flat_map in Hin as (colIndex & _ & Hin).
  destruct (AniviewConfig.cell _ _ _) as [[|[]|]|]; cbn in Hin;
    try contradiction.
  destruct Hin as [<- | []]. lia.
Qed.

Lemma rowLength_pos (layout : list (list Z)) : (1 <= AniviewMath.rowLength layout)%Z.
Proof. unfold AniviewMath.rowLength. lia. Qed.

(** Every snap point sits at the grid position of its page id. *)
Lemma snapPoint_grid (this : AniviewConfig.t) (cb : bool) (dims : option Dims)
  (sp : Gesture.SnapPoint) :
  In sp (Gesture.snapPointsProcessed (Gesture.generateGesture this cb dims)) ->
  let rl := AniviewMath.rowLength (AniviewConfig.layout this) in
  (0 <= Gesture.id sp)%Z /\
  Gesture.row sp = (Gesture.id sp / rl)%Z /\
  Gesture.col sp = (Gesture.id sp mod rl)%Z.
Proof.
  cbn [Gesture.generateGesture Gesture.snapPointsProcessed].
  intros Hin. apply in_map_iff in Hin as (p & <- & Hp). cbn.
  split; [now apply getPages_nonneg in Hp | split; reflexivity].
Qed.

Definition anchorOf (sp : Gesture.SnapPoint) (a : Gesture.Anchor) : Prop :=
  Gesture.anchorRow a = Gesture.row sp /\
  Gesture.anchorCol a = Gesture.col sp /\
  Gesture.anchorId a = Gesture.id sp.

(** The anchor scan returns its initial value, at distance +Infinity, or
    the grid position and id of one of the snap points. *)
Lemma findAnchor_cases (g : Gesture.t) (px py : num) :
  let a := Gesture.findAnchor g px py in
  Gesture.minStartDist2 a = PInf \/
  exists sp, In sp (Gesture.snapPointsProcessed g) /\ anchorOf sp a.
Proof.
  unfold Gesture.findAnchor.
  set (step := fun a snapPoint => _).
  assert (forall l a0,
    (Gesture.minStartDist2 a0 = PInf \/
     exists sp, In sp (Gesture.snapPointsProcessed g) /\ anchorOf sp a0) ->
    (forall sp, In sp l -> In sp (Gesture.snapPointsProcessed g)) ->
    let a := fold_left step l a0 in
    Gesture.minStartDist2 a = PInf \/
    exists sp, In sp (Gesture.snapPointsProcessed g) /\ anchorOf sp a) as Hgen.
  { induction l as [|sp l IH]; intros a0 Ha0 Hsub; [exact Ha0|].
    cbn [fold_left]. apply IH; [|intros; apply Hsub; now right].
    unfold step.
    destruct (_ <? _)%num; [|exact Ha0].
    right. exists sp. split; [apply Hsub; now left | repeat split]. }
  apply Hgen; [now left | auto].
Qed.

Lemma onFinalize_pageChanges (g : Gesture.t) (inp : Gesture.Inputs)
  (success : bool) (s : Gesture.State) :
  Gesture.pageChanges (Gesture.onFinalize g inp success s) =
  Gesture.pageChanges s.
Proof.
  unfold Gesture.onFinalize.
  repeat match goal with
  | |- context [if ?b then _ else _] => destruct b
  end; reflexivity.
Qed.

(** The end handler, in terms of its own scan for the anchor and of its
    own search for the neighbour. *)
Lemma onEnd_right_neighbour (this : AniviewConfig.t) (dims : Dims)
  (inp : Gesture.Inputs) (ev : Gesture.Event) (s : Gesture.State)
  (sp : Gesture.SnapPoint) :
  let g := Gesture.generateGesture this true (Some dims) in
  width dims = Fin 400 ->
  Gesture.disabled (Gesture.gestureEnabled inp) = false ->
  Gesture.translationX ev = Fin (-250) ->
  Gesture.activeAxis s = 1%Z ->
  let a := Gesture.findAnchor g (Gesture.startX s) (Gesture.startY s) in
  Gesture.sqrtLt (Gesture.minStartDist2 a) (Fin 400 * Fin (3 # 10))%num = true ->
  Gesture.snapAt g (Gesture.anchorRow a) (Gesture.anchorCol a + 1) = Some sp ->
  (Gesture.sx sp =? Fin (-1))%num = false ->
  let s' := Gesture.onEnd g inp ev s in
  Gesture.id sp <> Gesture.anchorId a /\
  Gesture.springX s' = Some (Gesture.sx sp) /\
  Gesture.springY s' = Some (Gesture.sy sp) /\
  Gesture.pageChanges s' = Gesture.pageChanges s ++ [Gesture.id sp] /\
  (forall inp' success,
     Gesture.pageChanges (Gesture.onFinalize g inp' success s') =
     Gesture.pageChanges s').
Proof.
  intros g Hw Hen Htx Haxis a Hfound Hsnap Hx s'.
  assert (Gesture.screenWidth g = Fin 400) as Hsw by exact Hw.
  (* the target is a snap point at (anchorRow, anchorCol + 1) *)
  pose proof Hsnap as Hfind. unfold Gesture.snapAt in Hfind.
  apply find_some in Hfind as [Hin Hpos].
  apply andb_prop in Hpos as [Hrow Hcol].
  apply Z.eqb_eq in Hrow, Hcol.
  destruct (snapPoint_grid this true (Some dims) sp Hin) as (Hid0 & Hr & Hc).
  (* the anchor is a snap point too *)
  assert (Gesture.id sp <> Gesture.anchorId a) as Hne.
  { pose proof (findAnchor_cases g (Gesture.startX s) (Gesture.startY s))
      as Hcases.
    cbv zeta in Hcases. fold a in Hcases.
    destruct Hcases as [Hinf | (spa & Hina & Har & Hac & Hai)].
    - rewrite Hinf in Hfound. unfold Gesture.sqrtLt in Hfound.
      now rewrite andb_comm in Hfound.
    - destruct (snapPoint_grid this true (Some dims) spa Hina) as (_ & _ & Hca).
      intros Heq. rewrite Hai in Heq. rewrite Hc, Heq, <- Hca, <- Hac in Hcol.
      lia. }
  assert (Gesture.resolveTarget g ev s =
          Gesture.mkTarget (Gesture.sx sp) (Gesture.sy sp) (Gesture.id sp))
    as Htgt.
  { unfold Gesture.resolveTarget. fold a. rewrite Hsw, Hfound, Htx, Haxis.
    cbn [andb].
    replace (Fin (-250) <? Num.neg (Fin 400 * Fin (8 # 100)))%num with true
      by reflexivity.
    rewrite orb_true_r. cbn [orb Z.eqb Pos.eqb negb andb].
    rewrite Hsnap. cbn [Gesture.targetX]. rewrite Hx.
    cbn [Gesture.targetId].
    assert ((Gesture.id sp =? -1)%Z = false) as -> by lia. reflexivity. }
  split; [exact Hne|].
  subst s'. unfold Gesture.onEnd. rewrite Hen.
  destruct (length (Gesture.snapPointsProcessed g) =? 0)%nat eqn:Hlen.
  { apply Nat.eqb_eq in Hlen.
    destruct (Gesture.snapPointsProcessed g); [contradiction | discriminate]. }
  fold a. rewrite Htgt.
  cbn [Gesture.targetX Gesture.targetY Gesture.targetId Gesture.springX
       Gesture.springY Gesture.pageChanges].
  assert ((Gesture.id sp =? -1)%Z = false) as -> by lia.
  assert ((Gesture.id sp =? Gesture.anchorId a)%Z = false) as -> by lia.
  cbn. repeat split. intros. apply onFinalize_pageChanges.
Qed.


(** *** The anchor and its neighbour *)

(** The squared distance from a position to a snap point. *)
Definition distTo (px py : num) (q : Gesture.SnapPoint) : num :=
  Gesture.dist2 px py (Gesture.sx q) (Gesture.sy q).

(** The scan for the anchor answers the nearest snap point, the first in
    page order if several are as near. *)
Lemma findAnchor_nearest (g : Gesture.t) (px py : num)
  (before after : list Gesture.SnapPoint) (a : Gesture.SnapPoint) :
  Gesture.snapPointsProcessed g = before ++ a :: after ->
  (forall q, In q before -> (distTo px py a <? distTo px py q)%num = true) ->
  (forall q, In q after -> (distTo px py q <? distTo px py a)%num = false) ->
  (distTo px py a <? PInf)%num = true ->
  Gesture.findAnchor g px py =
  Gesture.mkAnchor (Gesture.row a) (Gesture.col a) (Gesture.id a)
    (distTo px py a).
Proof.
  intros Hsplit Hbefore Hafter Hfin. unfold Gesture.findAnchor.
  set (step := fun a0 snapPoint => _).
  rewrite Hsplit, fold_left_app. cbn [fold_left].
  assert (forall l a0,
    (forall q, In q l -> (distTo px py a <? distTo px py q)%num = true) ->
    (distTo px py a <? Gesture.minStartDist2 a0)%num = true ->
    (distTo px py a <? Gesture.minStartDist2 (fold_left step l a0))%num = true)
    as Hpre.
  { induction l as [|q l IH]; intros a0 Hl Ha0; [exact Ha0|].
    cbn [fold_left]. apply IH; [intros; apply Hl; now right|].
    unfold step. fold (distTo px py q).
    destruct (distTo px py q <? Gesture.minStartDist2 a0)%num;
      [apply Hl; now left | exact Ha0]. }
  assert (forall l,
    (forall q, In q l -> (distTo px py q <? distTo px py a)%num = false) ->
    fold_left step l
      (Gesture.mkAnchor (Gesture.row a) (Gesture.col a) (Gesture.id a)
         (distTo px py a)) =
    Gesture.mkAnchor (Gesture.row a) (Gesture.col a) (Gesture.id a)
      (distTo px py a)) as Hpost.
  { induction l as [|q l IH]; intros Hl; [reflexivity|].
    cbn [fold_left]. unfold step at 2. fold (distTo px py q).
    cbn [Gesture.minStartDist2]. rewrite (Hl q) by now left.
    apply IH. intros; apply Hl; now right. }
  pose proof (Hpre before (Gesture.mkAnchor 0 0 (-1) PInf) Hbefore Hfin)
    as Hlt.
  set (m := fold_left step before _) in *.
  assert (step m a =
          Gesture.mkAnchor (Gesture.row a) (Gesture.col a) (Gesture.id a)
            (distTo px py a)) as ->.
  { unfold step. fold (distTo px py a). now rewrite Hlt. }
  now apply Hpost.
Qed.

(** A snap point is determined by its grid position. *)
Lemma snapPoint_determined (this : AniviewConfig.t) (cb : bool)
  (dims : option Dims) (p q : Gesture.SnapPoint) :
  let g := Gesture.generateGesture this cb dims in
  In p (Gesture.snapPointsProcessed g) -> In q (Gesture.snapPointsProcessed g) ->
  Gesture.row p = Gesture.row q -> Gesture.col p = Gesture.col q -> p = q.
Proof.
  cbn [Gesture.generateGesture Gesture.snapPointsProcessed].
  intros Hp Hq.
  apply in_map_iff in Hp as (pp & <- & _).
  apply in_map_iff in Hq as (pq & <- & _). cbn.
  intros Hrow Hcol.
  pose proof (rowLength_pos (AniviewConfig.layout this)) as Hrl.
  assert (pp = pq) as ->; [|reflexivity].
  rewrite (Z.div_mod pp (AniviewMath.rowLength (AniviewConfig.layout this)))
    by lia.
  rewrite (Z.div_mod pq (AniviewMath.rowLength (AniviewConfig.layout this)))
    by lia.
  now rewrite Hrow, Hcol.
Qed.

(** The search by grid position finds the snap point of that position. *)
Lemma snapAt_found (this : AniviewConfig.t) (cb : bool) (dims : option Dims)
  (r : Gesture.SnapPoint) :
  let g := Gesture.generateGesture this cb dims in
  In r (Gesture.snapPointsProcessed g) ->
  Gesture.snapAt g (Gesture.row r) (Gesture.col r) = Some r.
Proof.
  intros g Hr. unfold Gesture.snapAt.
  destruct (find _ (Gesture.snapPointsProcessed g)) as [r'|] eqn:Hfind.
  - apply find_some in Hfind as [Hin Hpos].
    apply andb_prop in Hpos as [Hrow Hcol]. apply Z.eqb_eq in Hrow, Hcol.
    f_equal. now apply (snapPoint_determined this cb dims).
  - apply (find_none _ _ Hfind) in Hr. now rewrite !Z.eqb_refl in Hr.
Qed.




(** ** Colour model *)

(** *** Normalisation *)

(** An input that does not start with [#] and matches neither pattern is
    transparent black. *)
Lemma normalize_unparsable (fmtFrac : Q -> string) (c : string) :
  Str.startsWith "#" c = false ->
  Str.search Color.rgbAt c = None -> Str.search Color.hslAt c = None ->
  Color.normalizeColorToRgba fmtFrac c = "rgba(0,0,0,0)".
Proof.
  intros Hh Hr Hs. unfold Color.normalizeColorToRgba.
  rewrite Hh, Hr, Hs. now destruct (_ || _).
Qed.

(** C9, the code at the failing inputs.  The round trip of the claim
    holds, but a string that starts with [#] is never sent to the
    transparent fallback: its channels come from [parseInt] whatever
    follows the [#], so ['#'] and ['#zz'] become ['rgba(NaN,NaN,NaN,1)']
    and the five-digit ['#12345'] becomes ['rgba(18,52,5,1)']. *)
Theorem normalize_malformed_hex (fmtFrac : Q -> string) :
  Color.normalizeColorToRgba fmtFrac "transparent" =
  Color.normalizeColorToRgba fmtFrac "rgba(0,0,0,0)" /\
  Color.normalizeColorToRgba fmtFrac "not a colour" = "rgba(0,0,0,0)" /\
  Color.normalizeColorToRgba fmtFrac "#" = "rgba(NaN,NaN,NaN,1)" /\
  Color.normalizeColorToRgba fmtFrac "#zz" = "rgba(NaN,NaN,NaN,1)" /\
  Color.normalizeColorToRgba fmtFrac "#12345" = "rgba(18,52,5,1)" /\
  Color.normalizeColorToRgba fmtFrac "#" <> "rgba(0,0,0,0)".
Proof. vm_compute. repeat split; try reflexivity. discriminate. Qed.

(** Well-formed inputs, for comparison. *)
Example normalize_samples (fmtFrac : Q -> string) :
  Color.normalizeColorToRgba fmtFrac "#f00" = "rgba(255,0,0,1)" /\
  Color.normalizeColorToRgba fmtFrac "#00ff00" = "rgba(0,255,0,1)" /\
  Color.normalizeColorToRgba fmtFrac "rgb(1, 2, 3)" = "rgba(1,2,3,1)" /\
  Color.normalizeColorToRgba fmtFrac "rgba(1,2,3,0.5)" = "rgba(1,2,3,0.5)" /\
  Color.normalizeColorToRgba fmtFrac "hsl(120, 100%, 50%)" = "rgba(0,255,0,1)" /\
  Color.normalizeColorToRgba fmtFrac "hsl(0, 100%, 50%)" = "rgba(255,0,0,1)".
Proof. vm_compute. repeat split; reflexivity. Qed.

(** *** Strings *)

Local Open Scope string_scope.
#[local] Arguments String.append !s1 s2 : simpl nomatch.

Fixpoint allChars (p : ascii -> bool) (s : string) : bool :=
  match s with
  | String a s' => p a && allChars p s'
  | EmptyString => true
  end.

(** The input does not start with a character of the class. *)
Definition headFails (p : ascii -> bool) (s : string) : Prop :=
  match s with
  | String a _ => p a = false
  | EmptyString => True
  end.

Lemma app_assoc_s (a b c : string) : (a ++ b) ++ c = a ++ (b ++ c).
Proof. induction a as [|x a IH]; cbn; [reflexivity | now rewrite IH]. Qed.

Lemma app_nil_r_s (a : string) : a ++ "" = a.
Proof. induction a as [|x a IH]; cbn; [reflexivity | now rewrite IH]. Qed.

Lemma length_app_s (a b : string) :
  String.length (a ++ b) = (String.length a + String.length b)%nat.
Proof. induction a as [|x a IH]; cbn; [reflexivity | now rewrite IH]. Qed.

Lemma startsWith_app (l r : string) : Str.startsWith l (l ++ r) = true.
Proof.
  induction l as [|x l IH]; cbn; [reflexivity|].
  now rewrite Ascii.eqb_refl, IH.
Qed.

Lemma startsWith_inv (l s : string) :
  Str.startsWith l s = true -> s = l ++ Str.drop (String.length l) s.
Proof.
  revert s. induction l as [|x l IH]; intros s H; cbn; [reflexivity|].
  destruct s as [|y s]; cbn in H; [discriminate|].
  apply andb_prop in H as [Hxy H]. apply Ascii.eqb_eq in Hxy as ->.
  f_equal. now apply IH.
Qed.

Lemma drop_app (l r : string) : Str.drop (String.length l) (l ++ r) = r.
Proof. induction l as [|x l IH]; cbn; [reflexivity | exact IH]. Qed.

Lemma take_app (l r : string) (n : nat) :
  Str.take (String.length l + n) (l ++ r) = l ++ Str.take n r.
Proof. induction l as [|x l IH]; cbn; [reflexivity | now rewrite IH]. Qed.

Lemma lit_app (l r : string) : Str.lit l (l ++ r) = Some r.
Proof. unfold Str.lit. now rewrite startsWith_app, drop_app. Qed.

Lemma lit_inv (l s r : string) : Str.lit l s = Some r -> s = l ++ r.
Proof.
  unfold Str.lit. destruct (Str.startsWith l s) eqn:H; [|discriminate].
  intros [= <-]. now apply startsWith_inv.
Qed.

Lemma span_inv (p : ascii -> bool) (s m r : string) :
  Str.span p s = (m, r) -> s = m ++ r /\ allChars p m = true /\ headFails p r.
Proof.
  revert m r. induction s as [|a s IH]; intros m r H; cbn in H.
  { injection H as <- <-. now repeat split. }
  destruct (p a) eqn:Hpa.
  - destruct (Str.span p s) as [m' r'] eqn:Hs. injection H as <- <-.
    destruct (IH m' r' eq_refl) as (-> & Hall & Hhead).
    cbn. rewrite Hpa. now repeat split.
  - injection H as <- <-. cbn. now repeat split.
Qed.

Lemma span_app (p : ascii -> bool) (m r : string) :
  allChars p m = true -> headFails p r -> Str.span p (m ++ r) = (m, r).
Proof.
  intros Hall Hhead. induction m as [|a m IH]; cbn.
  - destruct r as [|b r]; cbn; [reflexivity|]. cbn in Hhead. now rewrite Hhead.
  - cbn in Hall. apply andb_prop in Hall as [-> Hall]. now rewrite IH.
Qed.

Lemma many1_inv (p : ascii -> bool) (s m r : string) :
  Str.many1 p s = Some (m, r) ->
  s = m ++ r /\ m <> "" /\ allChars p m = true /\ headFails p r.
Proof.
  unfold Str.many1. destruct (Str.span p s) as [m' r'] eqn:Hs.
  destruct m' as [|a m']; [discriminate|]. intros [= <- <-].
  apply span_inv in Hs as (-> & Hall & Hhead). now repeat split.
Qed.

Lemma many1_app (p : ascii -> bool) (m r : string) :
  m <> "" -> allChars p m = true -> headFails p r ->
  Str.many1 p (m ++ r) = Some (m, r).
Proof.
  intros Hne Hall Hhead. unfold Str.many1. rewrite span_app by assumption.
  destruct m; [congruence | reflexivity].
Qed.

Lemma skipWs_inv (s : string) :
  exists w, s = w ++ Str.skipWs s /\ allChars JsStr.is_ws w = true /\
            headFails JsStr.is_ws (Str.skipWs s).
Proof.
  unfold Str.skipWs. destruct (Str.span JsStr.is_ws s) as [w r] eqn:Hs.
  exists w. now apply span_inv in Hs.
Qed.

Lemma skipWs_app (w r : string) :
  allChars JsStr.is_ws w = true -> headFails JsStr.is_ws r ->
  Str.skipWs (w ++ r) = r.
Proof. intros. unfold Str.skipWs. now rewrite span_app. Qed.

(** The classes of the pattern exclude one another and the separators. *)
Lemma digit_not_ws (a : ascii) : JsStr.is_digit a = true -> JsStr.is_ws a = false.
Proof.
  unfold JsStr.is_digit, JsStr.is_ws. generalize (nat_of_ascii a). intros n H.
  apply andb_prop in H as [H1 H2]. apply Nat.leb_le in H1, H2.
  repeat (apply orb_false_intro || apply andb_false_intro2);
    try (apply Nat.leb_gt; lia); apply Nat.eqb_neq; lia.
Qed.

Lemma digdot_not_ws (a : ascii) : Str.is_digdot a = true -> JsStr.is_ws a = false.
Proof.
  unfold Str.is_digdot. intros H. apply orb_prop in H as [H | H].
  - now apply digit_not_ws.
  - unfold Str.is_dot in H. apply Ascii.eqb_eq in H as ->. reflexivity.
Qed.

Lemma head_class (p q : ascii -> bool) (m r : string) :
  m <> "" -> allChars p m = true ->
  (forall a, p a = true -> q a = false) -> headFails q (m ++ r).
Proof.
  intros Hne Hall Hpq. destruct m as [|a m]; [congruence|].
  cbn in *. apply andb_prop in Hall as [Ha _]. auto.
Qed.

(** [lastIndexOf] over a concatenation. *)
Lemma lastIndexOf_app (c : ascii) (a b : string) :
  Str.lastIndexOf c (a ++ b) =
  match Str.lastIndexOf c b with
  | Some j => Some (String.length a + j)%nat
  | None => Str.lastIndexOf c a
  end.
Proof.
  induction a as [|x a IH]; cbn.
  - now destruct (Str.lastIndexOf c b).
  - rewrite IH. destruct (Str.lastIndexOf c b); [reflexivity|].
    reflexivity.
Qed.

Lemma lastIndexOf_none_class (c : ascii) (p : ascii -> bool) (m : string) :
  allChars p m = true -> p c = false -> Str.lastIndexOf c m = None.
Proof.
  intros Hall Hc. induction m as [|a m IH]; cbn; [reflexivity|].
  cbn in Hall. apply andb_prop in Hall as [Ha Hall]. rewrite IH by assumption.
  destruct (Ascii.eqb a c) eqn:E; [|reflexivity].
  apply Ascii.eqb_eq in E as ->. congruence.
Qed.

Lemma take_S_lastIndexOf_app (c : ascii) (a b : string) (j : nat) :
  Str.lastIndexOf c a = None ->
  Str.lastIndexOf c (a ++ b) = Some j ->
  exists k, Str.lastIndexOf c b = Some k /\
            Str.take (j + 1) (a ++ b) = a ++ Str.take (k + 1) b.
Proof.
  intros Ha H. rewrite lastIndexOf_app in H.
  destruct (Str.lastIndexOf c b) as [k|]; [|congruence].
  injection H as <-. exists k. split; [reflexivity|].
  now rewrite <- Nat.add_assoc, take_app.
Qed.

(** *** Normalised colours and their channels *)

(** The R, G, B fields of a colour in the normalised form
    [rgba(R,G,B,A)], as written. *)
Definition channelText (c : string) : option (string * string * string) :=
  if Str.startsWith "rgba" c then
    match Color.rgbAt c with
    | Some (m1, m2, m3, Some _) => Some (m1, m2, m3)
    | _ => None
    end
  else None.

(** The R, G, B channels of a normalised colour, as numbers. *)
Definition channels (c : string) : option (num * num * num) :=
  match channelText c with
  | Some (m1, m2, m3) =>
      Some (JsStr.parseIntNum m1 10, JsStr.parseIntNum m2 10,
            JsStr.parseIntNum m3 10)
  | None => None
  end.

Definition isClass (p : ascii -> bool) (m : string) : Prop :=
  m <> "" /\ allChars p m = true.

Definition isWs (w : string) : Prop := allChars JsStr.is_ws w = true.

(** The text of a normalised colour, possibly followed by more text. *)
Definition shape (m1 w2 m2 w3 m3 w4 m4 rest : string) : string :=
  "rgba(" ++ m1 ++ "," ++ w2 ++ m2 ++ "," ++ w3 ++ m3 ++ ","
          ++ w4 ++ m4 ++ ")" ++ rest.

Lemma rgbAt_shape (m1 w2 m2 w3 m3 w4 m4 rest : string) :
  isClass JsStr.is_digit m1 -> isWs w2 -> isClass JsStr.is_digit m2 ->
  isWs w3 -> isClass JsStr.is_digit m3 -> isWs w4 ->
  isClass Str.is_digdot m4 ->
  Color.rgbAt (shape m1 w2 m2 w3 m3 w4 m4 rest) = Some (m1, m2, m3, Some m4).
Proof.
  intros [N1 D1] W2 [N2 D2] W3 [N3 D3] W4 [N4 D4].
  unfold shape, Color.rgbAt. cbn.
  rewrite many1_app by (auto; reflexivity). cbn.
  rewrite skipWs_app by (auto; eapply head_class; eauto using digit_not_ws).
  rewrite many1_app by (auto; reflexivity). cbn.
  rewrite skipWs_app by (auto; eapply head_class; eauto using digit_not_ws).
  rewrite many1_app by (auto; reflexivity). cbn.
  rewrite skipWs_app by (auto; eapply head_class; eauto using digdot_not_ws).
  rewrite many1_app by (auto; reflexivity). cbn.
  reflexivity.
Qed.

Lemma rgbAt_shape_inv (c m1 m2 m3 m4 : string) :
  Str.startsWith "rgba" c = true ->
  Color.rgbAt c = Some (m1, m2, m3, Some m4) ->
  exists w2 w3 w4 rest,
    c = shape m1 w2 m2 w3 m3 w4 m4 rest /\
    isClass JsStr.is_digit m1 /\ isWs w2 /\ isClass JsStr.is_digit m2 /\
    isWs w3 /\ isClass JsStr.is_digit m3 /\ isWs w4 /\
    isClass Str.is_digdot m4.
Proof.
  intros Hpre H. apply startsWith_inv in Hpre.
  set (s0 := Str.drop _ c) in Hpre. clearbody s0. subst c.
  unfold Color.rgbAt in H. cbn in H.
  destruct (Str.lit "(" s0) as [s1|] eqn:L0; [|discriminate].
  apply lit_inv in L0 as ->. cbn in H.
  destruct (Str.many1 JsStr.is_digit s1) as [[n1 s2]|] eqn:M1; [|discriminate].
  apply many1_inv in M1 as (-> & N1 & D1 & _). cbn in H.
  destruct (Str.lit "," s2) as [s3|] eqn:L1; [|discriminate].
  apply lit_inv in L1 as ->. cbn in H.
  destruct (skipWs_inv s3) as (w2 & E2 & W2 & _).
  destruct (Str.many1 JsStr.is_digit (Str.skipWs s3)) as [[n2 s4]|] eqn:M2;
    [|discriminate].
  apply many1_inv in M2 as (E2' & N2 & D2 & _). cbn in H.
  destruct (Str.lit "," s4) as [s5|] eqn:L2; [|discriminate].
  apply lit_inv in L2 as ->. cbn in H.
  destruct (skipWs_inv s5) as (w3 & E3 & W3 & _).
  destruct (Str.many1 JsStr.is_digit (Str.skipWs s5)) as [[n3 s6]|] eqn:M3;
    [|discriminate].
  apply many1_inv in M3 as (E3' & N3 & D3 & _). cbn in H.
  destruct s6 as [|a s6].
  { cbn in H. discriminate. }
  destruct (Ascii.eqb a ",") eqn:Ea.
  2:{ assert (match Str.lit ")" (String a s6) with
              | Some _ => Some (n1, n2, n3, @None string)
              | None => None
              end = Some (m1, m2, m3, Some m4)) as H'.
      { revert H. destruct a as [[] [] [] [] [] [] [] []];
          try discriminate Ea; cbn; auto. }
      destruct (Str.lit ")" (String a s6)); discriminate. }
  apply Ascii.eqb_eq in Ea as ->. cbn in H.
  destruct (skipWs_inv s6) as (w4 & E4 & W4 & _).
  destruct (Str.many1 Str.is_digdot (Str.skipWs s6)) as [[n4 s7]|] eqn:M4;
    [|discriminate].
  apply many1_inv in M4 as (E4' & N4 & D4 & _). cbn in H.
  destruct (Str.lit ")" s7) as [s8|] eqn:L3; [|discriminate].
  apply lit_inv in L3 as ->. cbn in H. injection H as <- <- <- <-.
  exists w2, w3, w4, s8. unfold shape, isClass, isWs.
  repeat split; auto.
  rewrite E3, E3' in E2'. rewrite E4, E4' in E2'.
  rewrite E2, E2'. cbn.
  repeat (rewrite ?app_assoc_s; cbn). reflexivity.
Qed.

Lemma channelText_shape (m1 w2 m2 w3 m3 w4 m4 rest : string) :
  isClass JsStr.is_digit m1 -> isWs w2 -> isClass JsStr.is_digit m2 ->
  isWs w3 -> isClass JsStr.is_digit m3 -> isWs w4 ->
  isClass Str.is_digdot m4 ->
  channelText (shape m1 w2 m2 w3 m3 w4 m4 rest) = Some (m1, m2, m3).
Proof.
  intros. unfold channelText. rewrite rgbAt_shape by assumption.
  reflexivity.
Qed.

Lemma channelText_inv (c m1 m2 m3 : string) :
  channelText c = Some (m1, m2, m3) ->
  exists w2 w3 w4 m4 rest,
    c = shape m1 w2 m2 w3 m3 w4 m4 rest /\
    isClass JsStr.is_digit m1 /\ isWs w2 /\ isClass JsStr.is_digit m2 /\
    isWs w3 /\ isClass JsStr.is_digit m3 /\ isWs w4 /\
    isClass Str.is_digdot m4.
Proof.
  unfold channelText. destruct (Str.startsWith "rgba" c) eqn:Hpre; [|discriminate].
  destruct (Color.rgbAt c) as [[[[n1 n2] n3] [n4|]]|] eqn:H; try discriminate.
  intros [= <- <- <-].
  destruct (rgbAt_shape_inv c n1 n2 n3 n4 Hpre H) as (w2 & w3 & w4 & rest & Hc).
  now exists w2, w3, w4, n4, rest.
Qed.

(** The text up to and including the third comma. *)
Definition upToAlpha (m1 w2 m2 w3 m3 : string) : string :=
  "rgba(" ++ m1 ++ "," ++ w2 ++ m2 ++ "," ++ w3 ++ m3 ++ ",".

Lemma shape_split (m1 w2 m2 w3 m3 w4 m4 rest : string) :
  shape m1 w2 m2 w3 m3 w4 m4 rest =
  upToAlpha m1 w2 m2 w3 m3 ++ ((w4 ++ m4 ++ ")") ++ rest).
Proof.
  unfold shape, upToAlpha. cbn. repeat (rewrite ?app_assoc_s; cbn). reflexivity.
Qed.

Lemma upToAlpha_lastComma (m1 w2 m2 w3 m3 : string) :
  exists q, upToAlpha m1 w2 m2 w3 m3 = q ++ "," /\
            Str.lastIndexOf "," (upToAlpha m1 w2 m2 w3 m3)
            = Some (String.length q).
Proof.
  exists ("rgba(" ++ m1 ++ "," ++ w2 ++ m2 ++ "," ++ w3 ++ m3).
  split.
  - unfold upToAlpha. cbn. repeat (rewrite ?app_assoc_s; cbn). reflexivity.
  - replace (upToAlpha m1 w2 m2 w3 m3)
      with (("rgba(" ++ m1 ++ "," ++ w2 ++ m2 ++ "," ++ w3 ++ m3) ++ ",").
    + rewrite lastIndexOf_app. cbn. now rewrite Nat.add_0_r.
    + unfold upToAlpha. cbn. repeat (rewrite ?app_assoc_s; cbn). reflexivity.
Qed.

Lemma alpha_no_comma (w4 m4 : string) :
  isWs w4 -> isClass Str.is_digdot m4 ->
  Str.lastIndexOf "," (w4 ++ m4 ++ ")") = None.
Proof.
  intros W4 [_ D4]. rewrite !lastIndexOf_app. cbn.
  rewrite (lastIndexOf_none_class _ _ _ D4) by reflexivity.
  now rewrite (lastIndexOf_none_class _ _ _ W4).
Qed.

(** The rewrite of a transparent endpoint next to a normalised colour is
    again a normalised colour, with the neighbour's R, G, B text. *)
Lemma fix_shape (m1 w2 m2 w3 m3 w4 m4 rest : string) :
  isWs w4 -> isClass Str.is_digdot m4 ->
  exists w4' m4' rest',
    Color.fix_ Color.TRANSPARENT (shape m1 w2 m2 w3 m3 w4 m4 rest) =
    shape m1 w2 m2 w3 m3 w4' m4' rest' /\
    isWs w4' /\ isClass Str.is_digdot m4'.
Proof.
  intros W4 D4. unfold Color.fix_.
  change (negb (Color.TRANSPARENT =? "rgba(0,0,0,0)")%string) with false.
  cbv iota.
  change ((shape m1 w2 m2 w3 m3 w4 m4 rest =? "")%string
          || negb (Str.startsWith "rgba" (shape m1 w2 m2 w3 m3 w4 m4 rest)))
    with false.
  cbv iota.
  rewrite shape_split, lastIndexOf_app.
  destruct (Str.lastIndexOf "," ((w4 ++ m4 ++ ")") ++ rest)) as [j|] eqn:Hj.
  - destruct (take_S_lastIndexOf_app "," _ _ j (alpha_no_comma w4 m4 W4 D4) Hj)
      as (k & _ & Htake).
    exists w4, m4, (Str.take (k + 1) rest ++ "0)").
    split; [|now split].
    rewrite <- Nat.add_assoc, take_app, Htake.
    rewrite shape_split. now rewrite !app_assoc_s.
  - destruct (upToAlpha_lastComma m1 w2 m2 w3 m3) as (q & Hq & ->).
    exists "", "0", "". split; [|split; [reflexivity | split; [discriminate | reflexivity]]].
    rewrite shape_split, Hq, !app_assoc_s, take_app. cbn.
    now rewrite !app_assoc_s.
Qed.

Lemma fix_channelText (source : string) (t : string * string * string) :
  channelText source = Some t ->
  channelText (Color.fix_ Color.TRANSPARENT source) = Some t.
Proof.
  destruct t as [[m1 m2] m3]. intros H.
  apply channelText_inv in H
    as (w2 & w3 & w4 & m4 & rest & -> & D1 & W2 & D2 & W3 & D3 & W4 & D4).
  destruct (fix_shape m1 w2 m2 w3 m3 w4 m4 rest W4 D4)
    as (w4' & m4' & rest' & -> & W4' & D4').
  now apply channelText_shape.
Qed.

Lemma fix_channels (source : string) (rgb : num * num * num) :
  channels source = Some rgb ->
  channels (Color.fix_ Color.TRANSPARENT source) = Some rgb.
Proof.
  unfold channels. destruct (channelText source) as [t|] eqn:H; [|discriminate].
  now rewrite (fix_channelText source t H).
Qed.

(** A colour that is not the transparent literal is left alone. *)
Lemma fix_other (c source : string) :
  c <> Color.TRANSPARENT -> Color.fix_ c source = c.
Proof.
  intros Hne. unfold Color.fix_.
  destruct (String.eqb_spec c "rgba(0,0,0,0)"); [contradiction | reflexivity].
Qed.

(** On the exact text [rgba(R,G,B,A)] the rewrite yields [rgba(R,G,B,0)]:
    the alpha of the rewritten endpoint stays 0. *)
Lemma fix_rgbaString (r g b a : string) :
  Str.lastIndexOf "," a = None ->
  Color.fix_ Color.TRANSPARENT (Color.rgbaString r g b a) =
  Color.rgbaString r g b "0".
Proof.
  intros Ha. unfold Color.fix_, Color.rgbaString.
  change (negb (Color.TRANSPARENT =? "rgba(0,0,0,0)")%string) with false.
  cbv iota. cbn [String.eqb String.append Str.startsWith Ascii.eqb Bool.eqb
                 orb negb andb].
  replace (String "r" (String "g" (String "b" (String "a" (String "("
             (r ++ String "," (g ++ String "," (b ++ String "," (a ++ ")")))))))))
    with (("rgba(" ++ r ++ "," ++ g ++ "," ++ b) ++ ("," ++ (a ++ ")")))
    by (cbn; repeat (rewrite ?app_assoc_s; cbn); reflexivity).
  rewrite lastIndexOf_app.
  assert (Str.lastIndexOf "," ("," ++ a ++ ")") = Some 0%nat) as ->.
  { cbn. rewrite lastIndexOf_app. cbn. now rewrite Ha. }
  rewrite Nat.add_0_r, take_app. cbn.
  repeat (rewrite ?app_assoc_s; cbn). reflexivity.
Qed.

(** *** Smart interpolation *)

(** The loop leaves through its condition with an index of the range. *)
Lemma smartLoop_exit (val : num) (input : list num) (fuel i : nat) :
  (2 <= length input)%nat ->
  (length input - 2 - i <= fuel)%nat -> (i <= length input - 2)%nat ->
  let r := Color.smartLoop val input fuel i in
  (i <= r <= length input - 2)%nat /\
  ((r <? length input - 2)%nat && (val >=? nth_num input (r + 1))%num = false).
Proof.
  intros Hlen. revert i. induction fuel as [|fuel IH]; intros i Hfuel Hi;
    cbn [Color.smartLoop].
  - assert (i = length input - 2)%nat as -> by lia.
    split; [lia|]. now rewrite Nat.ltb_irrefl.
  - destruct ((i <? length input - 2)%nat && (val >=? nth_num input (i + 1))%num)
      eqn:Hc.
    + apply andb_prop in Hc as [Hlt _]. apply Nat.ltb_lt in Hlt.
      destruct (IH (S i)) as (Hr & Hstop); [lia | lia |].
      split; [lia | exact Hstop].
    + split; [lia | exact Hc].
Qed.

(** The loop stops at the first index whose right neighbour the driver
    value has not reached. *)
Lemma smartLoop_least (val : num) (input : list num) (fuel k i : nat) :
  (i + 1 < length input)%nat -> (k <= i)%nat -> (i - k <= fuel)%nat ->
  (forall j, (k <= j < i)%nat -> (val >=? nth_num input (j + 1))%num = true) ->
  (val >=? nth_num input (i + 1))%num = false ->
  Color.smartLoop val input fuel k = i.
Proof.
  intros Hi. revert k. induction fuel as [|fuel IH]; intros k Hk Hfuel Hbelow Hstop;
    cbn [Color.smartLoop].
  - lia.
  - destruct (Nat.eq_dec k i) as [-> | Hne].
    + rewrite Hstop, andb_false_r. reflexivity.
    + rewrite (Hbelow k) by lia.
      destruct (Nat.ltb_spec k (length input - 2)); [|lia].
      cbn [andb]. apply IH; try lia; [|exact Hstop].
      intros j Hj. apply Hbelow. lia.
Qed.

(** C3 fails as stated: at progress 0, where the driver sits on the first
    keyframe, the stored transparent colour itself is returned (bounds
    check), and its R, G, B are those of black, not of the opaque
    neighbour. *)
Lemma smart_color_at_endpoint :
  Color.smartInterpolateColor jsBlend (Fin 0) [Fin 0; Fin 1]
    ["rgba(0,0,0,0)"; "rgba(255,0,0,1)"] = "rgba(0,0,0,0)" /\
  channels "rgba(255,0,0,1)" = Some (Num.ofZ 255, Num.ofZ 0, Num.ofZ 0) /\
  channels "rgba(0,0,0,0)" = Some (Num.ofZ 0, Num.ofZ 0, Num.ofZ 0) /\
  channels (Color.smartInterpolateColor jsBlend (Fin 0) [Fin 0; Fin 1]
              ["rgba(0,0,0,0)"; "rgba(255,0,0,1)"])
  <> channels "rgba(255,0,0,1)".
Proof. vm_compute. repeat split; try reflexivity. discriminate. Qed.

(** C3 (amended): for every colour keyframe sequence of two or more
    colours and every driver value: when the value is at or below the
    first keyframe value the first stored colour is returned as it is, and
    when it is at or above the last keyframe value the last stored colour
    is returned as it is; otherwise, when the active segment (the first
    whose right keyframe value the driver has not reached) has one
    endpoint ['rgba(0,0,0,0)'] and the other a colour [rgba(R,G,B,A)], the
    result is the library's blend over that segment of the two endpoints
    [rgba(R,G,B,0)], in the place of the transparent one, and
    [rgba(R,G,B,A)] itself: both carry the R, G, B of the opaque endpoint,
    the alpha of the rewritten endpoint is 0, and the result has that
    R, G, B whenever the library's blend of these two endpoints has.
    (The model is a pure function of the keyframe array: the source
    assigns only to its locals [useC1] and [useC2], the stored colours
    are not written.) *)
Theorem smart_color_keeps_rgb
  (interpolateColor : num -> list num -> list string -> string)
  (val : num) (input : list num) (output : list string) :
  (2 <= length output)%nat ->
  let result := Color.smartInterpolateColor interpolateColor val input output in
  ((val <=? nth_num input 0)%num = true -> result = Color.nth_col output 0) /\
  ((val <=? nth_num input 0)%num = false ->
   (val >=? nth_num input (length input - 1))%num = true ->
   result = Color.nth_col output (length output - 1)) /\
  (forall (i : nat) (r g b a e1 e2 : string),
     (val <=? nth_num input 0)%num = false ->
     (val >=? nth_num input (length input - 1))%num = false ->
     (i + 1 < length input)%nat ->
     (forall j, (j < i)%nat -> (val >=? nth_num input (j + 1))%num = true) ->
     (val >=? nth_num input (i + 1))%num = false ->
     Str.lastIndexOf "," a = None ->
     let opaque := Color.rgbaString r g b a in
     let faded := Color.rgbaString r g b "0" in
     opaque <> Color.TRANSPARENT ->
     (Color.nth_col output i = Color.TRANSPARENT /\
      Color.nth_col output (i + 1) = opaque /\ e1 = faded /\ e2 = opaque) \/
     (Color.nth_col output i = opaque /\
      Color.nth_col output (i + 1) = Color.TRANSPARENT /\
      e1 = opaque /\ e2 = faded) ->
     result =
       interpolateColor val [nth_num input i; nth_num input (i + 1)] [e1; e2] /\
     forall rgb, channels opaque = Some rgb ->
       channels e1 = Some rgb /\ channels e2 = Some rgb /\
       (channels
          (interpolateColor val [nth_num input i; nth_num input (i + 1)] [e1; e2])
        = Some rgb ->
        channels result = Some rgb)).
Proof.
  intros H2 result. subst result. unfold Color.smartInterpolateColor.
  destruct (length output =? 0)%nat eqn:E0; [apply Nat.eqb_eq in E0; lia|].
  destruct (length output =? 1)%nat eqn:E1; [apply Nat.eqb_eq in E1; lia|].
  split; [|split].
  - intros ->. reflexivity.
  - intros -> ->. reflexivity.
  - intros i r g b a e1 e2 Hlo Hhi Hi Hbelow Hstop Ha Hne Hends.
    set (opaque := Color.rgbaString r g b a) in *.
    set (faded := Color.rgbaString r g b "0") in *.
    rewrite Hlo, Hhi.
    rewrite (smartLoop_least val input (length input) 0 i) by
      (try lia; try exact Hstop; intros j Hj; apply Hbelow; lia).
    destruct (length input <=? i + 1)%nat eqn:E2; [apply Nat.leb_le in E2; lia|].
    assert (Color.fix_ Color.TRANSPARENT opaque = faded) as Hfix
        by (apply fix_rgbaString; exact Ha).
    assert (Color.fix_ opaque Color.TRANSPARENT = opaque) as Hkeep
        by (apply fix_other; exact Hne).
    assert (forall rgb, channels opaque = Some rgb -> channels faded = Some rgb)
      as Hch.
    { intros rgb Hrgb. rewrite <- Hfix. now apply fix_channels. }
    destruct Hends as [(-> & -> & -> & ->) | (-> & -> & -> & ->)];
      rewrite Hfix, Hkeep; (split; [reflexivity|]);
      intros rgb Hrgb; repeat split; auto.
Qed.

Lemma smart_color_keeps_rgb_witness :
  let input := [Fin 0; Fin 1] in
  let output := ["rgba(0,0,0,0)"; "rgba(255,0,0,1)"] in
  let val := Fin (1 # 2) in
  Color.smartInterpolateColor jsBlend val input output =
  jsBlend val [Fin 0; Fin 1] ["rgba(255,0,0,0)"; "rgba(255,0,0,1)"] /\
  channels (Color.smartInterpolateColor jsBlend val input output)
  = Some (Num.ofZ 255, Num.ofZ 0, Num.ofZ 0).
Proof.
  destruct (smart_color_keeps_rgb jsBlend (Fin (1 # 2)) [Fin 0; Fin 1]
              ["rgba(0,0,0,0)"; "rgba(255,0,0,1)"] (le_n 2))
    as (_ & _ & Hin).
  destruct (Hin 0%nat "255" "0" "0" "1" "rgba(255,0,0,0)" "rgba(255,0,0,1)"
              eq_refl eq_refl (le_n 2)
              (fun j (Hj : (j < 0)%nat) =>
                 match Nat.nlt_0_r j Hj with end)
              eq_refl eq_refl
              ltac:(discriminate)
              ltac:(left; repeat split; reflexivity))
    as (Hcall & Hrgb).
  split; [exact Hcall|].
  destruct (Hrgb (Num.ofZ 255, Num.ofZ 0, Num.ofZ 0) eq_refl) as (_ & _ & Hres).
  apply Hres. vm_compute. reflexivity.
Defined.

(** Half-way through a fade from transparent to red the smart blend is
    red at half alpha; blending the stored endpoints directly would have
    given the half-dark [rgba(128,0,0,0.5)]. *)
Example smart_color_midpoint :
  Color.smartInterpolateColor jsBlend (Fin (1 # 2)) [Fin 0; Fin 1]
    ["rgba(0,0,0,0)"; "rgba(255,0,0,1)"] = "rgba(255,0,0,0.5)" /\
  Color.smartInterpolateColor jsBlend (Fin (1 # 4)) [Fin 0; Fin 1]
    ["rgba(0,255,0,1)"; "rgba(0,0,0,0)"] = "rgba(0,255,0,0.75)" /\
  jsBlend (Fin (1 # 2)) [Fin 0; Fin 1] ["rgba(0,0,0,0)"; "rgba(255,0,0,1)"]
  = "rgba(128,0,0,0.5)".
Proof. vm_compute. repeat split; reflexivity. Qed.


(** ** Frame evaluator *)

Lemma gtb_leb_false (a b : num) : (a >? b)%num = true -> (a <=? b)%num = false.
Proof. unfold Num.gtb. num_cases. Qed.

Lemma gtb_ltb_false (a b : num) : (a >? b)%num = true -> (a <? b)%num = false.
Proof. unfold Num.gtb. num_cases. Qed.

(** *** Visibility cull *)

(** On one axis, the camera is farther than the threshold from home and
    from every baked coordinate. *)
Definition beyond (camera home threshold : num) (unique : list num) : Prop :=
  (Num.abs (camera - home) >? threshold)%num = true /\
  Forall (fun u => (Num.abs (camera - u) >? threshold)%num = true) unique.

Lemma beyond_not_visible (camera home threshold : num) (unique : list num) :
  beyond camera home threshold unique ->
  Evaluator.isVisible camera home threshold unique = false.
Proof.
  intros [Hhome Hall]. unfold Evaluator.isVisible.
  rewrite (gtb_leb_false _ _ Hhome). cbn [orb].
  induction Hall as [|u l Hu _ IH]; cbn; [reflexivity|].
  now rewrite (gtb_ltb_false _ _ Hu), IH.
Qed.

Section Cull.
Context (interpolate : num -> list num -> list num -> num).
Context (interpolateColor : num -> list num -> list string -> string).
Context (dimensions : Dims) (isSingleRowVal : bool).
Context (baked : Evaluator.BakedResult) (events : gmap string num).

Let style :=
  Evaluator.animatedStyle interpolate interpolateColor dimensions
    isSingleRowVal baked events.

Lemma not_visible_invisible (present : bool) (cameraX cameraY : num) :
  events !! "x" = Some cameraX -> events !! "y" = Some cameraY ->
  Evaluator.isVisible cameraX (Evaluator.homeX baked)
    (width dimensions * Fin (15 # 10))%num (Evaluator.uniqueX baked) = false \/
  Evaluator.isVisible cameraY (Evaluator.homeY baked)
    (height dimensions * Fin (15 # 10))%num (Evaluator.uniqueY baked) = false ->
  style present = Evaluator.invisible.
Proof.
  intros Hx Hy Hvis. subst style. unfold Evaluator.animatedStyle.
  rewrite Hx, Hy. destruct present; [|reflexivity].
  destruct Hvis as [-> | ->]; [reflexivity|].
  now rewrite orb_true_r.
Qed.

End Cull.

(** C4: for every baked component and every camera position, if on the
    x-axis the camera is farther than 1.5 x viewport width from the
    component's home x-position and from every keyframe-declared
    x-position (or likewise on the y-axis with the viewport height), the
    frame evaluator returns the style [{ opacity: 0 }]: its opacity is
    exactly 0. *)
Theorem cull_far_camera
  (interpolate : num -> list num -> list num -> num)
  (interpolateColor : num -> list num -> list string -> string)
  (dimensions : Dims) (isSingleRowVal : bool)
  (baked : Evaluator.BakedResult) (events : gmap string num)
  (present : bool) (cameraX cameraY : num) :
  events !! "x" = Some cameraX -> events !! "y" = Some cameraY ->
  beyond cameraX (Evaluator.homeX baked)
    (width dimensions * Fin (15 # 10))%num (Evaluator.uniqueX baked) \/
  beyond cameraY (Evaluator.homeY baked)
    (height dimensions * Fin (15 # 10))%num (Evaluator.uniqueY baked) ->
  let out :=
    Evaluator.animatedStyle interpolate interpolateColor dimensions
      isSingleRowVal baked events present in
  out = Evaluator.invisible /\ out !! "opacity" = Some (PNum (Fin 0)).
Proof.
  intros Hx Hy Hfar out.
  assert (out = Evaluator.invisible) as ->.
  { eapply not_visible_invisible; eauto.
    destruct Hfar as [H | H]; [left | right]; now apply beyond_not_visible. }
  split; reflexivity.
Qed.

Lemma cull_far_camera_witness :
  let out := sampleStyle dims400 (bakedFade 1 1 0) (eventsAt (Fin 601) (Fin 0) 50) in
  out = Evaluator.invisible /\ out !! "opacity" = Some (PNum (Fin 0)).
Proof.
  apply (cull_far_camera Reanimated.interpolate jsBlend dims400 true
           (bakedFade 1 1 0) (eventsAt (Fin 601) (Fin 0) 50) true
           (Fin 601) (Fin 0)).
  - reflexivity.
  - reflexivity.
  - left. split; [reflexivity|]. repeat constructor.
Defined.

(** *** Degenerate event lanes *)

(** Two adjacent trigger values are (nearly) equal. *)
Definition adjacentClose (vals : list num) : Prop :=
  exists j, (j + 1 < length vals)%nat /\
    (Num.abs (nth_num vals (j + 1) - nth_num vals j) <? Fin (1 # 10000))%num = true.

Lemma hasDuplicate_spec (vals : list num) :
  Evaluator.hasDuplicate vals = true <-> adjacentClose vals.
Proof.
  induction vals as [|a vals IH]; cbn.
  { split; [discriminate | intros (j & Hj & _); cbn in Hj; lia]. }
  destruct vals as [|b vals].
  { split; [discriminate | intros (j & Hj & _); cbn in Hj; lia]. }
  rewrite orb_true_iff, IH. split.
  - intros [H | (j & Hj & H)].
    + exists 0%nat. split; [cbn; lia | exact H].
    + exists (S j). split; [cbn in *; lia | exact H].
  - intros (j & Hj & H). destruct j as [|j].
    + left. exact H.
    + right. exists j. split; [cbn in *; lia | exact H].
Qed.

(** Without such a pair every segment of the lane has a non-zero width. *)
Lemma no_duplicate_gaps (vals : list num) (j : nat) :
  Evaluator.hasDuplicate vals = false -> (j + 1 < length vals)%nat ->
  (nth_num vals (j + 1) - nth_num vals j =? Fin 0)%num = false.
Proof.
  intros Hdup Hj.
  destruct (nth_num vals (j + 1) - nth_num vals j =? Fin 0)%num eqn:E;
    [|reflexivity].
  exfalso. apply not_true_iff_false in Hdup. apply Hdup.
  apply hasDuplicate_spec. exists j. split; [exact Hj|].
  destruct (nth_num vals (j + 1) - nth_num vals j)%num as [| | |q];
    try discriminate.
  cbn in E |- *. q_prop. rewrite E. reflexivity.
Qed.

(** The policy of the claim, after its words: the output of the frame
    whose trigger value is nearest to the driver value (the first of
    them on a tie). *)
Definition nearestEndpoint (vals outs : list num) (val : num) : num :=
  snd
    (fold_left
       (fun '(best, out) '(v, o) =>
          if (Num.abs (val - v) <? best)%num then (Num.abs (val - v), o)
          else (best, out))
       (zip vals outs) (PInf, NaN)).

(** C7 fails as stated: on the lane with trigger values 0, 0, 100 and
    outputs 1, 1/2, 0 the driver value 100 sits on the last frame, whose
    output is 0, but the evaluator answers the first frame's output, 1. *)
Lemma duplicate_lane_takes_first_output :
  let lane :=
    Evaluator.mkLane [Fin 0; Fin 0; Fin 100]
      [Evaluator.NumRange [Fin 1; Fin (1 # 2); Fin 0]] ["opacity"] false in
  Evaluator.laneResult Reanimated.interpolate (bakedFade 1 1 0) lane (Fin 100)
    "opacity" [Fin 1; Fin (1 # 2); Fin 0] = Fin 1 /\
  nearestEndpoint [Fin 0; Fin 0; Fin 100] [Fin 1; Fin (1 # 2); Fin 0] (Fin 100)
  = Fin 0.
Proof. vm_compute. split; reflexivity. Qed.

(** C7 (amended): on a numeric key, an event lane with a degenerate
    domain is never handed to the interpolation with a zero-width segment.
    A lane with two adjacent (nearly) equal trigger values evaluates to
    the first frame's output, whatever the driver value.  A single-point
    lane whose trigger value is within 0.001 of zero is a step: the
    frame's output for a positive driver value, the home value otherwise.
    A single-point lane with a larger trigger value [v1] interpolates,
    clamped, from the home value at 0 to the frame's output at [v1], a
    segment of non-zero width; and a lane of two or more points without
    such a pair is interpolated over segments that all have a non-zero
    width.  On a colour key (any name but [__proto__], which the
    assignment to [eventColorResults] does not store) only the length of
    the lane is tested: a lane of fewer than two points is not
    interpolated, its value is the frame's colour, and a lane of two or
    more points is handed to the library's [interpolateColor] as it is,
    adjacent equal trigger values included; either value is stored as it
    is at a lane weight of 0.99 or more and blended from the home colour
    below that. *)
Theorem degenerate_lane_fallback
  (interpolate : num -> list num -> list num -> num)
  (interpolateColor : num -> list num -> list string -> string)
  (baked : Evaluator.BakedResult) (lane : Evaluator.BakedLane)
  (val : num) (k : string) (range : list num) :
  let vals := Evaluator.lvalues lane in
  let home := Evaluator.nullish (Evaluator.homeNum baked k) (Fin 0) in
  let v1 := nth_num vals 0 in
  let r := Evaluator.laneResult interpolate baked lane val k range in
  ((2 <= length vals)%nat -> adjacentClose vals -> r = nth_num range 0) /\
  (length vals = 1%nat -> (Num.abs v1 >? Fin (1 # 1000))%num = false ->
   r = if (val >? Fin 0)%num then nth_num range 0 else home) /\
  (length vals = 1%nat -> (Num.abs v1 >? Fin (1 # 1000))%num = true ->
   r = interpolate val [Fin 0; v1] [home; nth_num range 0] /\
   (v1 - Fin 0 =? Fin 0)%num = false) /\
  ((2 <= length vals)%nat -> ~ adjacentClose vals ->
   r = interpolate val vals range /\
   forall j, (j + 1 < length vals)%nat ->
     (nth_num vals (j + 1) - nth_num vals j =? Fin 0)%num = false) /\
  (forall (laneWeight : num) (acc : Evaluator.EventAcc) (i : nat),
     Evaluator.isColorKey baked k = true -> k <> "__proto__" ->
     (length vals < 2)%nat ->
     let colour :=
       Color.nth_col (Evaluator.colRange (Evaluator.outputRanges lane !! i)) 0 in
     Evaluator.eventColorResults
       (Evaluator.eventKey interpolate interpolateColor baked lane val
          laneWeight acc (i, k)) !! k
     = Some (if (laneWeight <? Fin (99 # 100))%num
             then Color.smartInterpolateColor interpolateColor laneWeight
                    [Fin 0; Fin 1]
                    [default "" (Evaluator.homeStr baked k); colour]
             else colour)) /\
  (forall (laneWeight : num) (acc : Evaluator.EventAcc) (i : nat),
     Evaluator.isColorKey baked k = true -> k <> "__proto__" ->
     (2 <= length vals)%nat ->
     let colour :=
       interpolateColor val vals
         (Evaluator.colRange (Evaluator.outputRanges lane !! i)) in
     Evaluator.eventColorResults
       (Evaluator.eventKey interpolate interpolateColor baked lane val
          laneWeight acc (i, k)) !! k
     = Some (if (laneWeight <? Fin (99 # 100))%num
             then Color.smartInterpolateColor interpolateColor laneWeight
                    [Fin 0; Fin 1]
                    [default "" (Evaluator.homeStr baked k); colour]
             else colour)).
Proof.
  intros vals home v1 r. subst r. unfold Evaluator.laneResult.
  fold vals home v1. split; [|split; [|split; [|split; [|split]]]].
  - intros Hlen Hdup. apply hasDuplicate_spec in Hdup.
    destruct (length vals =? 1)%nat eqn:E1; [apply Nat.eqb_eq in E1; lia|].
    destruct (2 <=? length vals)%nat eqn:E2; [|apply Nat.leb_gt in E2; lia].
    now rewrite Hdup.
  - intros -> ->. reflexivity.
  - intros -> Hv1. rewrite Hv1. split; [reflexivity|].
    destruct v1 as [| | |q]; try reflexivity; try discriminate.
    cbn in Hv1 |- *. q_prop.
    destruct (Qeq_bool (q + - 0) 0) eqn:E; [|reflexivity].
    q_prop. assert (q == 0) as Hq by lra. rewrite Hq in Hv1.
    exfalso. revert Hv1. unfold Qlt. cbn. lia.
  - intros Hlen Hnd.
    assert (Evaluator.hasDuplicate vals = false) as Hd.
    { destruct (Evaluator.hasDuplicate vals) eqn:Hd; [|reflexivity].
      exfalso. apply Hnd. now apply hasDuplicate_spec. }
    split.
    + destruct (length vals =? 1)%nat eqn:E1; [apply Nat.eqb_eq in E1; lia|].
      destruct (2 <=? length vals)%nat eqn:E2; [|apply Nat.leb_gt in E2; lia].
      now rewrite Hd.
    + intros j Hj. now apply no_duplicate_gaps.
  - intros laneWeight acc i Hcol _ Hlen.
    unfold Evaluator.eventKey. rewrite Hcol. fold vals.
    apply Nat.ltb_lt in Hlen. rewrite Hlen.
    cbn [Evaluator.eventColorResults]. rewrite lookup_insert_eq.
    reflexivity.
  - intros laneWeight acc i Hcol _ Hlen.
    unfold Evaluator.eventKey. rewrite Hcol. fold vals.
    apply Nat.ltb_ge in Hlen. rewrite Hlen.
    cbn [Evaluator.eventColorResults]. rewrite lookup_insert_eq.
    reflexivity.
Qed.

Lemma degenerate_lane_fallback_witness :
  let dup :=
    Evaluator.mkLane [Fin 0; Fin 0; Fin 100]
      [Evaluator.NumRange [Fin 1; Fin (1 # 2); Fin 0]] ["opacity"] false in
  let single :=
    Evaluator.mkLane [Fin 0] [Evaluator.NumRange [Fin (1 # 2)]] ["opacity"] false in
  Evaluator.laneResult Reanimated.interpolate (bakedFade 1 1 0) dup (Fin 100)
    "opacity" [Fin 1; Fin (1 # 2); Fin 0] = Fin 1 /\
  Evaluator.laneResult Reanimated.interpolate (bakedFade 1 1 0) single (Fin 7)
    "opacity" [Fin (1 # 2)] = Fin (1 # 2).
Proof.
  split.
  - destruct (degenerate_lane_fallback Reanimated.interpolate jsBlend
                (bakedFade 1 1 0)
                (Evaluator.mkLane [Fin 0; Fin 0; Fin 100]
                   [Evaluator.NumRange [Fin 1; Fin (1 # 2); Fin 0]] ["opacity"]
                   false)
                (Fin 100) "opacity" [Fin 1; Fin (1 # 2); Fin 0])
      as (Hdup & _).
    apply Hdup.
    + cbn. lia.
    + exists 0%nat. split; [cbn; lia | reflexivity].
  - destruct (degenerate_lane_fallback Reanimated.interpolate jsBlend
                (bakedFade 1 1 0)
                (Evaluator.mkLane [Fin 0] [Evaluator.NumRange [Fin (1 # 2)]]
                   ["opacity"] false)
                (Fin 7) "opacity" [Fin (1 # 2)])
      as (_ & Hstep & _).
    apply Hstep; reflexivity.
Defined.


(* ===================================================================== *)
(** * Part III. Further properties of the code                            *)
(* ===================================================================== *)

(** ** Coordinate math (core/AniviewMath.ts) *)

(** X1: A page id inside the matrix is sent to its row and column: the
    position is inside the matrix and gives the id back as
    [r * rowLength + c]. *)
Theorem pageIdToMatrixPos_decomposes (layout : list (list Z)) (pageId : Z) :
  let rl := AniviewMath.rowLength layout in
  let rows := Z.of_nat (length layout) in
  (0 <= pageId <= rows * rl - 1)%Z ->
  let pos := AniviewMath.pageIdToMatrixPos pageId layout in
  (AniviewMath.r pos * rl + AniviewMath.c pos = pageId)%Z /\
  (0 <= AniviewMath.r pos < rows)%Z /\ (0 <= AniviewMath.c pos < rl)%Z.
Proof.
  intros rl rows Hin pos. subst pos. unfold AniviewMath.pageIdToMatrixPos.
  fold rl. fold rows.
  assert (1 <= rl)%Z as Hrl by apply rowLength_pos.
  replace ((pageId <? 0)%Z || (pageId >? rows * rl - 1)%Z) with false
    by (symmetry; apply orb_false_iff; split; lia).
  cbn [AniviewMath.r AniviewMath.c].
  pose proof (Z.div_mod pageId rl ltac:(lia)) as Hdm.
  pose proof (Z.mod_pos_bound pageId rl ltac:(lia)) as Hmod.
  split; [lia|]. split; [|lia].
  split; [apply Z.div_pos; lia|].
  apply Z.div_lt_upper_bound; lia.
Qed.

Lemma pageIdToMatrixPos_decomposes_witness :
  let pos := AniviewMath.pageIdToMatrixPos 5 [[1; 1; 1]; [1; 1; 1]; [1; 1; 1]]%Z in
  (AniviewMath.r pos * 3 + AniviewMath.c pos = 5)%Z /\
  (0 <= AniviewMath.r pos < 3)%Z /\ (0 <= AniviewMath.c pos < 3)%Z.
Proof.
  apply (pageIdToMatrixPos_decomposes [[1; 1; 1]; [1; 1; 1]; [1; 1; 1]]%Z 5).
  vm_compute. split; discriminate.
Defined.

(** X2: Conversely the id [r * rowLength + c] of a cell inside the matrix is
    sent back to [(r, c)]; ids outside the matrix are sent to the marker
    position (9999, 9999). *)
Theorem pageIdToMatrixPos_of_cell (layout : list (list Z)) (row col : Z) :
  let rl := AniviewMath.rowLength layout in
  (0 <= row < Z.of_nat (length layout))%Z -> (0 <= col < rl)%Z ->
  AniviewMath.pageIdToMatrixPos (row * rl + col) layout
  = AniviewMath.mkPos row col.
Proof.
  intros rl Hrow Hcol. unfold AniviewMath.pageIdToMatrixPos. fold rl.
  replace ((row * rl + col <? 0)%Z ||
           (row * rl + col >? Z.of_nat (length layout) * rl - 1)%Z)
    with false by (symmetry; apply orb_false_iff; split; nia).
  f_equal.
  - rewrite Z.div_add_l by lia. rewrite Z.div_small by lia. lia.
  - rewrite Z.add_comm, Z.mod_add by lia. apply Z.mod_small. lia.
Qed.

Lemma pageIdToMatrixPos_of_cell_witness :
  AniviewMath.pageIdToMatrixPos (2 * 3 + 1) [[1; 1; 1]; [1; 1; 1]; [1; 1; 1]]%Z
  = AniviewMath.mkPos 2 1.
Proof.
  apply (pageIdToMatrixPos_of_cell [[1; 1; 1]; [1; 1; 1]; [1; 1; 1]]%Z 2 1).
  - vm_compute. split; [discriminate | reflexivity].
  - vm_compute. split; [discriminate | reflexivity].
Defined.

(** *** Axis offsets *)

(** The stride of step [i] of an axis, [size * (1 - (overlaps[i] || 0))]. *)
Definition stride (size : num) (overlaps : list num) (i : Z) : num :=
  (size * (Fin 1 - Num.or (AniviewMath.overlapAt overlaps i) Num.zero))%num.

(** The sum accumulated by the loop of [calculateAxisOffset] over [n]
    steps from [start]. *)
Definition strides (size : num) (overlaps : list num) (start : Z) (n : nat)
  : num :=
  fold_left (fun total k => (total + stride size overlaps (start + Z.of_nat k))%num)
    (seq 0 n) Num.zero.

Lemma calculateAxisOffset_strides (from to : Z) (size : num)
  (overlaps : list num) :
  AniviewMath.calculateAxisOffset from to size overlaps =
  if (from =? to)%Z then Num.zero
  else (strides size overlaps (Z.min from to)
          (Z.to_nat (Z.max from to - Z.min from to))
        * (if (to >? from)%Z then Fin 1 else Fin (-1)))%num.
Proof. reflexivity. Qed.

Lemma mul_dir_neg (t : num) : (t * Fin (-1) == Num.neg (t * Fin 1))%num.
Proof. destruct t; cbn; try exact I. ring. Qed.

Lemma neg_neg_eq (t : num) : (Num.neg (Num.neg t) == t)%num.
Proof. destruct t; cbn; try exact I. ring. Qed.

Lemma num_eq_refl (a : num) : (a == a)%num.
Proof. destruct a; cbn; try exact I. reflexivity. Qed.

Lemma num_eq_sym (a b : num) : (a == b)%num -> (b == a)%num.
Proof. destruct a, b; cbn; try tauto. intros H. now symmetry. Qed.

Lemma num_eq_trans (a b c : num) :
  (a == b)%num -> (b == c)%num -> (a == c)%num.
Proof.
  destruct a, b, c; cbn; try tauto. intros H1 H2. now rewrite H1.
Qed.

(** X3: Swapping the two indices negates the displacement, whatever the size
    and the overlaps are. *)
Theorem calculateAxisOffset_antisymmetric (from to : Z) (size : num)
  (overlaps : list num) :
  (AniviewMath.calculateAxisOffset to from size overlaps
   == Num.neg (AniviewMath.calculateAxisOffset from to size overlaps))%num.
Proof.
  rewrite !calculateAxisOffset_strides.
  rewrite (Z.eqb_sym to from), (Z.min_comm to from), (Z.max_comm to from).
  destruct (from =? to)%Z eqn:E; [cbn; reflexivity|].
  apply Z.eqb_neq in E.
  set (t := strides _ _ _ _).
  destruct (to >? from)%Z eqn:E1, (from >? to)%Z eqn:E2; try lia.
  - apply mul_dir_neg.
  - apply num_eq_sym. eapply num_eq_trans; [|apply neg_neg_eq].
    generalize (mul_dir_neg t).
    generalize (t * Fin (-1))%num (t * Fin 1)%num.
    intros a b. destruct a, b; cbn; try tauto. intros H. now rewrite H.
Qed.

Lemma strides_S (size : num) (overlaps : list num) (start : Z) (n : nat) :
  strides size overlaps start (S n) =
  (strides size overlaps start n + stride size overlaps (start + Z.of_nat n))%num.
Proof.
  unfold strides. rewrite seq_S, fold_left_app. reflexivity.
Qed.

Definition finite (a : num) : Prop := Num.isFinite a = true.

Lemma finite_Fin (a : num) : finite a -> exists q, a = Fin q.
Proof. destruct a; try discriminate. eauto. Qed.

(** The default page is the origin of the world, for every layout,
    viewport and overlaps. *)
Theorem getPageOffset_default_is_origin (this : AniviewConfig.t) (dims : Dims) :
  AniviewConfig.getPageOffset this (PageNum (AniviewConfig.defaultPage this)) dims
  = AniviewMath.mkOffset (Fin 0) (Fin 0).
Proof.
  unfold AniviewConfig.getPageOffset, AniviewMath.getPageOffset.
  cbn [AniviewConfig.resolvePageId AniviewConfig.resolveWith].
  unfold AniviewMath.calculateAxisOffset. now rewrite !Z.eqb_refl.
Qed.

(** ** Configuration (aniviewConfig.tsx) *)

Lemma fillOverlaps_length (n : nat) (given : option (list num)) :
  length (AniviewConfig.fillOverlaps n given) = n.
Proof.
  destruct given as [vs|]; cbn.
  - rewrite length_app, length_take, length_replicate. lia.
  - apply length_replicate.
Qed.

Lemma fillOverlaps_lookup (n : nat) (given : option (list num)) (i : nat) :
  (i < n)%nat ->
  AniviewConfig.fillOverlaps n given !! i
  = Some (default Num.zero (given ≫= fun vs => vs !! i)).
Proof.
  intros Hi. destruct given as [vs|]; cbn.
  - destruct (decide (i < length vs)%nat) as [Hlt | Hge].
    + rewrite lookup_app_l by (rewrite length_take; lia).
      rewrite lookup_take. destruct (decide (i < n)%nat); [|lia].
      destruct (lookup_lt_is_Some_2 vs i Hlt) as [v ->]. reflexivity.
    + rewrite lookup_app_r by (rewrite length_take; lia).
      rewrite length_take, (lookup_ge_None_2 vs i) by lia.
      cbn. apply lookup_replicate_2. lia.
  - now apply lookup_replicate_2.
Qed.

(** X8: The constructor sizes the overlap arrays by the layout, not by what is
    passed: one ratio per gap between adjacent rows (columns), taken from
    the given array where it has one and 0 elsewhere; extra ratios are
    dropped.  The stored viewport never holds NaN. *)
Theorem new_overlaps_fit_layout (layout : list (list Z))
  (defaultPage : option PageId) (pageMap : gmap string Z) (initialDims : Dims)
  (overlapRows overlapCols : option (list num)) :
  let this :=
    AniviewConfig.new layout defaultPage pageMap initialDims overlapRows
      overlapCols in
  let numRows := length layout in
  let numCols := length (default [] (head layout)) in
  length (AniviewConfig.rowOverlaps this) = (numRows - 1)%nat /\
  length (AniviewConfig.colOverlaps this) = (numCols - 1)%nat /\
  (forall i, (i < numRows - 1)%nat ->
     AniviewConfig.rowOverlaps this !! i
     = Some (default Num.zero (overlapRows ≫= fun vs => vs !! i))) /\
  (forall i, (i < numCols - 1)%nat ->
     AniviewConfig.colOverlaps this !! i
     = Some (default Num.zero (overlapCols ≫= fun vs => vs !! i))) /\
  width (AniviewConfig.contextDims this) <> NaN /\
  height (AniviewConfig.contextDims this) <> NaN.
Proof.
  cbn. split; [apply fillOverlaps_length|]. split; [apply fillOverlaps_length|].
  split; [intros i; apply fillOverlaps_lookup|].
  split; [intros i; apply fillOverlaps_lookup|].
  split; apply or_not_NaN.
Qed.

(** X9: The UI-thread resolver of the gesture agrees with [resolvePageId] on
    numbers, on mapped names, and on unmapped names that do not start
    with an integer; it has no [parseInt] fallback. *)
Theorem resolveId_agrees_with_resolvePageId (this : AniviewConfig.t)
  (onPageChange : bool) (dims : option Dims) (pid : PageId) :
  (forall s, pid = PageName s -> AniviewConfig.pageMap this !! s = None ->
             JsStr.parseInt s 10 = None) ->
  Gesture.resolveId (Gesture.generateGesture this onPageChange dims) pid
  = AniviewConfig.resolvePageId this pid.
Proof.
  intros Hname. destruct pid as [n | s]; [reflexivity|].
  unfold Gesture.resolveId, AniviewConfig.resolvePageId,
    AniviewConfig.resolveWith.
  cbn [Gesture.pageMap Gesture.generateGesture].
  destruct (AniviewConfig.pageMap this !! s) eqn:E; [reflexivity|].
  cbn. now rewrite (Hname s eq_refl E).
Qed.

Lemma resolveId_agrees_with_resolvePageId_witness :
  Gesture.resolveId (Gesture.generateGesture grid3x3 true None) (PageName "HOME")
  = AniviewConfig.resolvePageId grid3x3 (PageName "HOME").
Proof.
  apply (resolveId_agrees_with_resolvePageId grid3x3 true None (PageName "HOME")).
  intros s [= <-] _. reflexivity.
Defined.

(** On an unmapped name that is a decimal numeral the two resolvers
    differ: [resolvePageId] reads the number, the gesture's resolver
    answers 0. *)
Example resolveId_numeric_name :
  AniviewConfig.resolvePageId grid3x3 (PageName "2") = 2%Z /\
  Gesture.resolveId (Gesture.generateGesture grid3x3 true None) (PageName "2")
  = 0%Z.
Proof. split; reflexivity. Qed.

(** *** The pages of a layout *)

Lemma flat_map_blocks (f : nat -> list Z) (lo : nat -> Z) (a n : nat) :
  (forall k, StronglySorted Z.lt (f k)) ->
  (forall k x, x ∈ f k -> (lo k <= x < lo (S k))%Z) ->
  (forall j k, (j <= k)%nat -> (lo j <= lo k)%Z) ->
  StronglySorted Z.lt (flat_map f (seq a n)) /\
  (forall x, x ∈ flat_map f (seq a n) -> (lo a <= x < lo (a + n)%nat)%Z).
Proof.
  intros Hsorted Hblock Hmono. revert a. induction n as [|n IH]; intros a.
  - cbn. split; [constructor | intros x Hx; inversion Hx].
  - cbn [seq flat_map]. destruct (IH (S a)) as [IHs IHb]. split.
    + apply StronglySorted_app_2; auto.
      intros x1 x2 H1 H2. apply Hblock in H1. apply IHb in H2. lia.
    + intros x Hx. apply elem_of_app in Hx as [Hx | Hx].
      * apply Hblock in Hx.
        pose proof (Hmono (S a) (a + S n)%nat ltac:(lia)). lia.
      * apply IHb in Hx.
        pose proof (Hmono a (S a) ltac:(lia)).
        replace (a + S n)%nat with (S a + n)%nat by lia. lia.
Qed.

(** X10: [getPages] lists the page ids in strictly ascending order, hence
    without duplicates; on a layout with at least one row they are
    exactly the ids [row * cols + col] of the cells that hold 1. *)
Theorem getPages_ascending (this : AniviewConfig.t) :
  let layout := AniviewConfig.layout this in
  let cols := length (default [] (head layout)) in
  StronglySorted Z.lt (AniviewConfig.getPages this) /\
  (layout <> [] ->
   forall p, In p (AniviewConfig.getPages this) <->
     exists row col, (col < cols)%nat /\
       AniviewConfig.cell layout row col = Some 1%Z /\
       p = Z.of_nat (row * cols + col)).
Proof.
  intros layout cols. unfold AniviewConfig.getPages. fold layout. fold cols.
  destruct (length layout =? 0)%nat eqn:E.
  - apply Nat.eqb_eq in E. split; [repeat constructor|].
    intros Hne. destruct layout; [congruence | discriminate].
  - split.
    + set (cellf := fun rowIndex colIndex =>
             match AniviewConfig.cell layout rowIndex colIndex with
             | Some 1%Z => [Z.of_nat (rowIndex * cols + colIndex)]
             | _ => []
             end).
      assert (forall rowIndex a n,
        StronglySorted Z.lt (flat_map (cellf rowIndex) (seq a n)) /\
        (forall x, x ∈ flat_map (cellf rowIndex) (seq a n) ->
           (Z.of_nat (rowIndex * cols + a) <= x
            < Z.of_nat (rowIndex * cols + (a + n)))%Z)) as Hrow.
      { intros rowIndex a n.
        apply (flat_map_blocks (cellf rowIndex)
                 (fun k => Z.of_nat (rowIndex * cols + k))).
        - intros k. unfold cellf.
          destruct (AniviewConfig.cell _ _ _) as [[|[]|]|]; repeat constructor.
        - intros k x. unfold cellf.
          destruct (AniviewConfig.cell _ _ _) as [[|[]|]|];
            intros Hx; try (now inversion Hx).
          apply list_elem_of_singleton in Hx. lia.
        - intros j k Hjk. lia. }
      apply (flat_map_blocks
               (fun rowIndex => flat_map (cellf rowIndex) (seq 0 cols))
               (fun k => Z.of_nat (k * cols))).
      * intros k. apply Hrow.
      * intros k x Hx. apply Hrow in Hx. lia.
      * intros j k Hjk. nia.
    + intros _ p. rewrite in_flat_map. split.
      * intros (rowIndex & _ & Hin).
        apply in_flat_map in Hin as (colIndex & Hcol & Hin).
        apply in_seq in Hcol. exists rowIndex, colIndex.
        destruct (AniviewConfig.cell layout rowIndex colIndex) as [[|[]|]|];
          cbn in Hin; try contradiction.
        destruct Hin as [<- | []]. split; [lia | split; reflexivity].
      * intros (rowIndex & colIndex & Hcol & Hcell & ->).
        exists rowIndex. split.
        -- apply in_seq. unfold AniviewConfig.cell in Hcell.
           destruct (layout !! rowIndex) eqn:Hr; [|discriminate].
           apply lookup_lt_Some in Hr. lia.
        -- apply in_flat_map. exists colIndex. split; [apply in_seq; lia|].
           rewrite Hcell. now left.
Qed.

(** X11: [getPagesMap] has an entry for exactly the pages of [getPages], and
    the entry of a page is its offset. *)
Theorem getPagesMap_lookup (this : AniviewConfig.t) (dims : Dims) (p : Z) :
  AniviewConfig.getPagesMap this dims !! p =
  if bool_decide (p ∈ AniviewConfig.getPages this)
  then Some (AniviewConfig.getPageOffset this (PageNum p) dims)
  else None.
Proof.
  unfold AniviewConfig.getPagesMap.
  set (step := fun map pageId => _).
  assert (forall l (m : gmap Z AniviewMath.Offset),
    fold_left step l m !! p =
    if bool_decide (p ∈ l)
    then Some (AniviewConfig.getPageOffset this (PageNum p) dims)
    else m !! p) as Hgen.
  { induction l as [|q l IH]; intros m; [reflexivity|].
    cbn [fold_left]. rewrite IH. unfold step.
    destruct (decide (p = q)) as [-> | Hne].
    - rewrite lookup_insert_eq.
      rewrite (bool_decide_eq_true_2 (q ∈ q :: l)) by (now left).
      now destruct (bool_decide (q ∈ l)).
    - rewrite lookup_insert_ne by congruence.
      rewrite (bool_decide_ext (p ∈ q :: l) (p ∈ l)); [reflexivity|].
      rewrite elem_of_cons. tauto. }
  rewrite Hgen. now destruct (bool_decide _).
Qed.

(** *** Page visibility *)

(** X12: Whatever set of pages was visible before, after [updateVisibility]
    the visible pages are exactly the pages of the layout at most one row
    and one column away from the centre page. *)
Theorem updateVisibility_neighbourhood (config : AniviewConfig.t)
  (centerPage : PageId) (current : gset Z) (p : Z) :
  let layout := AniviewConfig.layout config in
  let center :=
    AniviewMath.pageIdToMatrixPos
      (AniviewConfig.resolvePageId config centerPage) layout in
  let pos := AniviewMath.pageIdToMatrixPos p layout in
  p ∈ AniviewProvider.updateVisibility config centerPage current <->
  In p (AniviewConfig.getPages config) /\
  (Z.abs (AniviewMath.r pos - AniviewMath.r center) <= 1)%Z /\
  (Z.abs (AniviewMath.c pos - AniviewMath.c center) <= 1)%Z.
Proof.
  intros layout center pos. unfold AniviewProvider.updateVisibility.
  fold layout. fold center. cbv zeta.
  set (near := fun q =>
         let qPos := AniviewMath.pageIdToMatrixPos q layout in
         ((Z.abs (AniviewMath.r qPos - AniviewMath.r center) <=? 1) &&
          (Z.abs (AniviewMath.c qPos - AniviewMath.c center) <=? 1))%Z).
  assert (forall l (v : gset Z),
    p ∈ fold_left (fun visible q => if near q then {[ q ]} ∪ visible else visible)
          l v <->
    p ∈ v \/ (In p l /\ near p = true)) as Hgen.
  { induction l as [|q l IH]; intros v; cbn [fold_left].
    - cbn. tauto.
    - rewrite IH. cbn [In]. destruct (near q) eqn:Hq.
      + rewrite elem_of_union, elem_of_singleton. split.
        * intros [[-> | Hv] | [Hin Hn]]; auto.
        * intros [Hv | [[<- | Hin] Hn]]; auto.
      + split.
        * intros [Hv | [Hin Hn]]; auto.
        * intros [Hv | [[<- | Hin] Hn]]; auto. congruence. }
  specialize (Hgen (AniviewConfig.getPages config) ∅).
  change (fold_left _ (AniviewConfig.getPages config) ∅)
    with (fold_left (fun visible q => if near q then {[ q ]} ∪ visible else visible)
            (AniviewConfig.getPages config) (∅ : gset Z)).
  set (visible := fold_left _ (AniviewConfig.getPages config) ∅) in *.
  assert (p ∈ visible <->
          In p (AniviewConfig.getPages config) /\
          (Z.abs (AniviewMath.r pos - AniviewMath.r center) <= 1)%Z /\
          (Z.abs (AniviewMath.c pos - AniviewMath.c center) <= 1)%Z) as Hvis.
  { rewrite Hgen. unfold near. cbv zeta. fold pos.
    rewrite andb_true_iff, !Z.leb_le, elem_of_empty. tauto. }
  destruct (negb (size current =? size visible)%nat
            || negb (bool_decide (set_Forall (fun v => v ∈ current) visible)))
    eqn:Hchanged; [exact Hvis|].
  apply orb_false_elim in Hchanged as [Hsize Hsub].
  apply negb_false_iff, Nat.eqb_eq in Hsize.
  apply negb_false_iff, bool_decide_eq_true in Hsub.
  assert (visible = current) as Heq
    by (apply set_subseteq_size_eq; [exact Hsub | lia]).
  now rewrite <- Heq.
Qed.

(** ** Keyframe registration, continued *)

Section register_more.
Context (this : AniviewConfig.t) (dims : Dims).
Context (resolvedHomeId : Z) (homeOffset : AniviewMath.Offset).

Let step := registerStep this dims resolvedHomeId homeOffset.

Lemma step_baked_event_only acc key f :
  page f = None -> event f <> None ->
  (step acc (key, f)).1 !! key = acc.1 !! key.
Proof.
  intros Hp He. destruct acc as [b l]. unfold step, registerStep.
  rewrite Hp. destruct (event f) as [e|]; [|congruence]. reflexivity.
Qed.

Lemma fold_baked_event_only key f es acc :
  NoDup es.*1 -> (key, f) ∈ es -> page f = None -> event f <> None ->
  (fold_left step es acc).1 !! key = acc.1 !! key.
Proof.
  revert acc. induction es as [|[k f'] es IH]; intros acc Hnd Hin Hp He.
  { by apply elem_of_nil in Hin. }
  cbn in Hnd. apply NoDup_cons in Hnd as [Hk Hnd].
  rewrite elem_of_cons in Hin. destruct Hin as [Heq | Hin]; cbn [fold_left].
  - injection Heq as <- <-.
    rewrite (fold_baked_notin this dims resolvedHomeId homeOffset) by done.
    now apply step_baked_event_only.
  - rewrite IH by done.
    apply (step_baked_other this dims resolvedHomeId homeOffset).
    intros ->. apply Hk. apply list_elem_of_fmap. now exists (key, f).
Qed.

Lemma step_lane_empty acc entry : (step acc entry).2 !! "" = acc.2 !! "".
Proof.
  destruct acc as [b l], entry as [k f].
  unfold step, registerStep. cbn [fst snd].
  destruct (event f) as [e|]; [|reflexivity].
  destruct (AniviewConfig.truthyStr (Some e)) eqn:E; [|reflexivity].
  cbn. rewrite lookup_insert_ne; [reflexivity|].
  intros ->. discriminate E.
Qed.

Lemma fold_lane_empty es acc :
  (fold_left step es acc).2 !! "" = acc.2 !! "".
Proof.
  revert acc. induction es as [|entry es IH]; intros acc; [done|].
  cbn [fold_left]. rewrite IH. apply step_lane_empty.
Qed.

End register_more.



(** ** Gesture machine, continued *)

(** X14: While the gesture is disabled no handler moves the camera, starts a
    spring, reports a page change or touches the axis lock; the update
    handler only re-bases the start of the pan on the finger. *)
Theorem disabled_gesture_is_inert (g : Gesture.t) (inp : Gesture.Inputs)
  (ev : Gesture.Event) (success : bool) (s : Gesture.State) :
  Gesture.gestureEnabled inp = Some false ->
  let unmoved s' :=
    Gesture.x s' = Gesture.x s /\ Gesture.y s' = Gesture.y s /\
    Gesture.springX s' = Gesture.springX s /\
    Gesture.springY s' = Gesture.springY s /\
    Gesture.activeAxis s' = Gesture.activeAxis s /\
    Gesture.isSnappingVal s' = Gesture.isSnappingVal s /\
    Gesture.pageChanges s' = Gesture.pageChanges s in
  unmoved (Gesture.onUpdate g inp ev s) /\
  Gesture.startX (Gesture.onUpdate g inp ev s)
  = (Gesture.x s + Gesture.translationX ev)%num /\
  Gesture.startY (Gesture.onUpdate g inp ev s)
  = (Gesture.y s + Gesture.translationY ev)%num /\
  Gesture.onEnd g inp ev s = s /\
  Gesture.onFinalize g inp success s = s.
Proof.
  intros Hdis unmoved. subst unmoved.
  unfold Gesture.onUpdate, Gesture.onEnd, Gesture.onFinalize.
  rewrite Hdis. cbn. repeat split.
  now destruct (negb success || (Gesture.activeAxis s =? 0)%Z).
Qed.

Lemma disabled_gesture_is_inert_witness :
  let inp := Gesture.mkInputs None (Some false) None in
  let s' := Gesture.onUpdate gesture3x3 inp (panBy 50 0) atOrigin in
  (Gesture.x s' = Gesture.x atOrigin /\ Gesture.y s' = Gesture.y atOrigin /\
   Gesture.springX s' = Gesture.springX atOrigin /\
   Gesture.springY s' = Gesture.springY atOrigin /\
   Gesture.activeAxis s' = Gesture.activeAxis atOrigin /\
   Gesture.isSnappingVal s' = Gesture.isSnappingVal atOrigin /\
   Gesture.pageChanges s' = Gesture.pageChanges atOrigin) /\
  Gesture.startX s'
  = (Gesture.x atOrigin + Gesture.translationX (panBy 50 0))%num /\
  Gesture.startY s'
  = (Gesture.y atOrigin + Gesture.translationY (panBy 50 0))%num /\
  Gesture.onEnd gesture3x3 inp (panBy 50 0) atOrigin = atOrigin /\
  Gesture.onFinalize gesture3x3 inp true atOrigin = atOrigin.
Proof.
  apply (disabled_gesture_is_inert gesture3x3
           (Gesture.mkInputs None (Some false) None) (panBy 50 0) true atOrigin).
  reflexivity.
Defined.

(** *** The axis lock *)

Lemma onUpdate_axis (g : Gesture.t) (inp : Gesture.Inputs)
  (ev : Gesture.Event) (s : Gesture.State) :
  let axis' := Gesture.activeAxis (Gesture.onUpdate g inp ev s) in
  (Gesture.activeAxis s <> 0%Z -> axis' = Gesture.activeAxis s) /\
  (Gesture.activeAxis s = 0%Z -> axis' = 0%Z \/ axis' = 1%Z \/ axis' = 2%Z).
Proof.
  unfold Gesture.onUpdate.
  destruct (Gesture.disabled _); cbn [Gesture.activeAxis].
  { split; [reflexivity | auto]. }
  destruct (Gesture.activeAxis s =? 0)%Z eqn:E.
  - apply Z.eqb_eq in E. split; [congruence|]. intros _. cbn [andb].
    destruct (_ || _); [|auto].
    destruct (_ >? _)%num; auto.
  - apply Z.eqb_neq in E. cbn [andb]. split; [reflexivity | congruence].
Qed.

(** The updates of one pan, each with its own inputs and event. *)
Definition updates (g : Gesture.t) (calls : list (Gesture.Inputs * Gesture.Event))
  (s : Gesture.State) : Gesture.State :=
  fold_left (fun s '(inp, ev) => Gesture.onUpdate g inp ev s) calls s.

(** X15: The first direction wins: from [onBegin] on, the active axis is 0
    (none), 1 (horizontal) or 2 (vertical), and once an update has set it
    no later update of the pan changes it. *)
Theorem axis_lock_is_sticky (g : Gesture.t)
  (before after : list (Gesture.Inputs * Gesture.Event)) (s0 : Gesture.State) :
  let s1 := updates g before (Gesture.onBegin s0) in
  let s2 := updates g after s1 in
  (Gesture.activeAxis s1 = 0 \/ Gesture.activeAxis s1 = 1 \/
   Gesture.activeAxis s1 = 2)%Z /\
  (Gesture.activeAxis s1 <> 0%Z ->
   Gesture.activeAxis s2 = Gesture.activeAxis s1).
Proof.
  assert (forall calls s,
    (Gesture.activeAxis s = 0 \/ Gesture.activeAxis s = 1 \/
     Gesture.activeAxis s = 2)%Z ->
    (Gesture.activeAxis (updates g calls s) = 0 \/
     Gesture.activeAxis (updates g calls s) = 1 \/
     Gesture.activeAxis (updates g calls s) = 2)%Z) as Hrange.
  { induction calls as [|[inp ev] calls IH]; intros s Hs; [exact Hs|].
    cbn [updates fold_left]. apply IH.
    destruct (onUpdate_axis g inp ev s) as [Hkeep Hset].
    destruct (Z.eq_dec (Gesture.activeAxis s) 0%Z) as [E | E]; [auto|].
    rewrite Hkeep by exact E. exact Hs. }
  assert (forall calls s,
    Gesture.activeAxis s <> 0%Z ->
    Gesture.activeAxis (updates g calls s) = Gesture.activeAxis s) as Hsticky.
  { induction calls as [|[inp ev] calls IH]; intros s Hs; [reflexivity|].
    cbn [updates fold_left].
    destruct (onUpdate_axis g inp ev s) as [Hkeep _].
    specialize (Hkeep Hs).
    change (Gesture.activeAxis (updates g calls (Gesture.onUpdate g inp ev s))
            = Gesture.activeAxis s).
    rewrite IH; [exact Hkeep | now rewrite Hkeep]. }
  intros s1 s2. split.
  - apply Hrange. now left.
  - apply Hsticky.
Qed.

(** ** Lock bitmasks *)

(** X20: The mask encodes the four directions one bit each, and can be decoded:
    bit 0 is set exactly when [left] is truthy, bit 1 for [right], bit 2
    for [up], bit 3 for [down]; no other bit is ever set. *)
Theorem mask_encodes_directions (directions : AniviewLock.AniviewAxisLock) :
  let m := AniviewLock.mask directions in
  Z.testbit m 0 = AniviewLock.set (AniviewLock.left directions) /\
  Z.testbit m 1 = AniviewLock.set (AniviewLock.right directions) /\
  Z.testbit m 2 = AniviewLock.set (AniviewLock.up directions) /\
  Z.testbit m 3 = AniviewLock.set (AniviewLock.down directions) /\
  (0 <= m < 16)%Z.
Proof.
  destruct directions as [[[]|] [[]|] [[]|] [[]|]]; cbn;
    repeat split; discriminate.
Qed.

(** A mask without directions, as [unlock] passes, blocks nothing: the
    update handler behaves as if no lock mask were given. *)
Theorem unlock_frees_the_pan (g : Gesture.t) (en : option bool)
  (last : option PageId) (ev : Gesture.Event) (s : Gesture.State)
  (directions : AniviewLock.AniviewAxisLock) :
  AniviewLock.set (AniviewLock.left directions) = false ->
  AniviewLock.set (AniviewLock.right directions) = false ->
  Gesture.onUpdate g
    (Gesture.mkInputs (Some (AniviewLock.mask directions)) en last) ev s
  = Gesture.onUpdate g (Gesture.mkInputs None en last) ev s.
Proof.
  intros Hl Hr. unfold Gesture.onUpdate.
  cbn [Gesture.lockMask Gesture.gestureEnabled].
  assert (forall bit, (bit = 1 \/ bit = 2)%Z ->
            Gesture.blocked (Some (AniviewLock.mask directions)) bit = false)
    as Hfree.
  { intros bit Hbit. unfold AniviewLock.mask. rewrite Hl, Hr.
    destruct (AniviewLock.set (AniviewLock.up directions)),
             (AniviewLock.set (AniviewLock.down directions)),
             Hbit as [-> | ->]; reflexivity. }
  rewrite !Hfree by auto. reflexivity.
Qed.

Lemma unlock_frees_the_pan_witness :
  Gesture.onUpdate gesture3x3
    (Gesture.mkInputs
       (Some (AniviewLock.mask (AniviewLock.mkAxisLock None None None None)))
       None None) (panBy 50 0) atOrigin
  = Gesture.onUpdate gesture3x3 (Gesture.mkInputs None None None)
      (panBy 50 0) atOrigin.
Proof.
  apply (unlock_frees_the_pan gesture3x3 None None (panBy 50 0) atOrigin
           (AniviewLock.mkAxisLock None None None None)).
  - reflexivity.
  - reflexivity.
Defined.

(** ** Colours *)

(** The three-digit shorthand is read as its six-digit expansion, each
    digit doubled, by both colour parsers and for any characters. *)
Theorem hex_shorthand_expands (fmtFrac : Q -> string) (a b c : ascii) :
  let short := String "#" (String a (String b (String c ""))) in
  let long :=
    String "#" (String a (String a (String b (String b
      (String c (String c "")))))) in
  Color.normalizeColorToRgba fmtFrac short = Color.normalizeColorToRgba fmtFrac long /\
  Color.parse short = Color.parse long.
Proof. split; reflexivity. Qed.

(** A hexadecimal digit and its value. *)
Definition hexDigit (c : ascii) (v : Z) : Prop :=
  JsStr.digitVal c = Some v /\ (v < 16)%Z.

Lemma hexDigit_range (c : ascii) (v : Z) : hexDigit c v -> (0 <= v < 16)%Z.
Proof.
  intros [Hv Hlt]. split; [|exact Hlt]. unfold JsStr.digitVal in Hv.
  repeat match type of Hv with
  | (if ?b then _ else _) = _ => destruct b eqn:?
  end; try discriminate; injection Hv as <-;
    repeat match goal with
    | H : _ && _ = true |- _ => apply andb_prop in H as [? ?]
    end; lia.
Qed.

Ltac hex_char c H L :=
  destruct c as [[] [] [] [] [] [] [] []];
  try reflexivity;
  try (vm_compute in H; discriminate H);
  exfalso; vm_compute in H; injection H as <-; lia.

Lemma is_ws_hex (c : ascii) (v : Z) : hexDigit c v -> JsStr.is_ws c = false.
Proof. intros [H L]. hex_char c H L. Qed.

Lemma stripSign_hex (c : ascii) (v : Z) (s : string) :
  hexDigit c v -> JsStr.stripSign (String c s) = (1%Z, String c s).
Proof. intros [H L]. hex_char c H L. Qed.

Lemma stripHexPrefix_hex (c1 c2 : ascii) (v : Z) (s : string) :
  hexDigit c2 v ->
  JsStr.stripHexPrefix (String c1 (String c2 s)) = String c1 (String c2 s).
Proof.
  intros [H L].
  destruct (Ascii.eqb c1 "0") eqn:E.
  - apply Ascii.eqb_eq in E. subst c1. hex_char c2 H L.
  - destruct c1 as [[] [] [] [] [] [] [] []]; try reflexivity; discriminate E.
Qed.

Lemma parseInt_hex_pair (c1 c2 : ascii) (v1 v2 : Z) :
  hexDigit c1 v1 -> hexDigit c2 v2 ->
  JsStr.parseInt (String c1 (String c2 "")) 16 = Some (16 * v1 + v2)%Z.
Proof.
  intros Hc1 Hc2. unfold JsStr.parseInt. cbn [JsStr.trimStart].
  rewrite (is_ws_hex c1 v1 Hc1), (stripSign_hex c1 v1 _ Hc1).
  change (16 =? 16)%Z with true. cbv iota.
  rewrite (stripHexPrefix_hex c1 c2 v2 "" Hc2).
  destruct Hc1 as [H1 L1], Hc2 as [H2 L2].
  cbn [JsStr.readDigits]. rewrite H1, H2.
  replace (v1 <? 16)%Z with true by lia.
  replace (v2 <? 16)%Z with true by lia.
  cbn [default from_option id]. f_equal. lia.
Qed.

Lemma Qred_inject_Z (n : Z) : Qred (inject_Z n) = inject_Z n.
Proof.
  unfold Qred, inject_Z.
  pose proof (Z.ggcd_gcd n 1) as Hg.
  pose proof (Z.ggcd_correct_divisors n 1) as Hd.
  destruct (Z.ggcd n 1) as [g [a b]]. cbn [fst snd] in *.
  rewrite Z.gcd_1_r in Hg. subst g. destruct Hd as [Ha Hb].
  assert (a = n) as -> by lia. assert (b = 1%Z) as -> by lia. reflexivity.
Qed.

Lemma numToString_byte (fmtFrac : Q -> string) (n : Z) :
  (0 <= n <= 255)%Z ->
  Color.numToString fmtFrac (Num.ofZ n) = pretty n.
Proof.
  intros Hn. unfold Color.numToString, Num.ofZ. rewrite Qred_inject_Z.
  cbn [Qden Qnum inject_Z]. change (Z.pos 1 =? 1)%Z with true.
  replace (Z.abs n <? 10 ^ 21)%Z with true by lia. reflexivity.
Qed.

(** X21: A six-digit hexadecimal colour is normalised to the decimal values of
    its three digit pairs, each between 0 and 255, with alpha 1. *)
Theorem normalize_hex6 (fmtFrac : Q -> string) (c1 c2 c3 c4 c5 c6 : ascii)
  (v1 v2 v3 v4 v5 v6 : Z) :
  hexDigit c1 v1 -> hexDigit c2 v2 -> hexDigit c3 v3 ->
  hexDigit c4 v4 -> hexDigit c5 v5 -> hexDigit c6 v6 ->
  let hex :=
    String c1 (String c2 (String c3 (String c4 (String c5 (String c6 ""))))) in
  let r := (16 * v1 + v2)%Z in
  let g := (16 * v3 + v4)%Z in
  let b := (16 * v5 + v6)%Z in
  Color.normalizeColorToRgba fmtFrac (String "#" hex)
  = Color.rgbaString (pretty r) (pretty g) (pretty b) "1" /\
  Color.parse (String "#" hex) = (Num.ofZ r, Num.ofZ g, Num.ofZ b, Fin 1) /\
  (0 <= r <= 255)%Z /\ (0 <= g <= 255)%Z /\ (0 <= b <= 255)%Z.
Proof.
  intros H1 H2 H3 H4 H5 H6 hex r g b.
  pose proof (hexDigit_range _ _ H1). pose proof (hexDigit_range _ _ H2).
  pose proof (hexDigit_range _ _ H3). pose proof (hexDigit_range _ _ H4).
  pose proof (hexDigit_range _ _ H5). pose proof (hexDigit_range _ _ H6).
  assert (Color.hexChannels hex = (Num.ofZ r, Num.ofZ g, Num.ofZ b, Fin 1))
    as Hch.
  { unfold Color.hexChannels, hex. cbn [String.length Nat.eqb].
    unfold Str.slice. cbn [Str.drop Str.take Nat.sub].
    unfold JsStr.parseIntNum.
    rewrite (parseInt_hex_pair c1 c2 v1 v2), (parseInt_hex_pair c3 c4 v3 v4),
      (parseInt_hex_pair c5 c6 v5 v6) by assumption.
    reflexivity. }
  split; [|split; [|lia]].
  - change (Color.normalizeColorToRgba fmtFrac (String "#" hex))
      with (Color.rgbaOfNums fmtFrac (Color.hexChannels hex)).
    rewrite Hch. unfold Color.rgbaOfNums.
    rewrite !numToString_byte by lia. reflexivity.
  - change (Color.parse (String "#" hex)) with (Color.hexChannels hex).
    exact Hch.
Qed.

Lemma normalize_hex6_witness :
  Color.normalizeColorToRgba decimalString "#ff8000"
  = Color.rgbaString (pretty (16 * 15 + 15)%Z) (pretty (16 * 8 + 0)%Z)
      (pretty (16 * 0 + 0)%Z) "1" /\
  Color.parse "#ff8000"
  = (Num.ofZ (16 * 15 + 15), Num.ofZ (16 * 8 + 0), Num.ofZ (16 * 0 + 0), Fin 1) /\
  (0 <= 16 * 15 + 15 <= 255)%Z /\ (0 <= 16 * 8 + 0 <= 255)%Z /\
  (0 <= 16 * 0 + 0 <= 255)%Z.
Proof.
  apply (normalize_hex6 decimalString "f" "f" "8" "0" "0" "0" 15 15 8 0 0 0);
    split; reflexivity.
Defined.

(** *** HSL *)

Lemma div_by_100 (x : Q) : (Fin x / Fin 100)%num = Fin (x / 100).
Proof. reflexivity. Qed.

Lemma div_by_30 (x : Q) : (Fin x / Fin 30)%num = Fin (x / 30).
Proof. reflexivity. Qed.

Lemma rem_by_12 (x : Q) :
  Num.rem (Fin x) (Fin 12) = Fin (x - 12 * inject_Z (Num.Qtrunc (x / 12))).
Proof. reflexivity. Qed.

Lemma hue_shape_finite (k : Q) :
  finite (Num.max (Fin (-1))
            (Num.min (Fin k - Fin 3) (Num.min (Fin 9 - Fin k) (Fin 1)))%num).
Proof.
  cbn [Num.sub Num.neg Num.add Num.min Num.max Num.leb].
  repeat match goal with
  | |- context [Qle_bool ?a ?b] => destruct (Qle_bool a b)
  end; reflexivity.
Qed.

Lemma grey_channel (l arc : Q) (m : num) :
  arc == 0 -> finite m ->
  Num.round (Fin 255 * (Fin l - Fin arc * m))%num
  = Fin (inject_Z (Qfloor (255 * l + (1 # 2)))).
Proof.
  intros Harc Hm. apply finite_Fin in Hm as [q ->].
  cbn [Num.round Num.floor Num.add Num.sub Num.neg Num.mul].
  do 2 f_equal. apply Qfloor_comp. rewrite Harc. ring.
Qed.

(** X22: With a saturation of 0 an [hsl] colour is a grey, whatever its hue:
    the three channels are the same number, the lightness scaled to 255
    and rounded. *)
Theorem hsl_without_saturation_is_grey (m1 m2 m3 : string) (m4 : option string)
  (h s l : Q) :
  JsStr.parseIntNum m1 10 = Fin h ->
  Str.parseFloat m2 = Fin s -> s == 0 ->
  Str.parseFloat m3 = Fin l ->
  let grey := Fin (inject_Z (Qfloor (255 * (l / 100) + (1 # 2)))) in
  exists a, Color.hslChannels m1 m2 m3 m4 = (grey, grey, grey, a).
Proof.
  intros Hh Hs Hs0 Hl grey. unfold Color.hslChannels.
  rewrite Hh, Hs, Hl, !div_by_100, div_by_30.
  cbn [Num.add]. rewrite !rem_by_12.
  assert (exists arc,
    (Fin (s / 100) * Num.min (Fin (l / 100)) (Fin 1 - Fin (l / 100)))%num
    = Fin arc /\ arc == 0) as (arc & -> & Harc).
  { cbn [Num.sub Num.neg Num.add Num.min Num.leb].
    destruct (Qle_bool _ _); cbn [Num.mul]; eexists;
      (split; [reflexivity|]); rewrite Hs0; field. }
  rewrite !grey_channel by (auto using hue_shape_finite).
  eexists. reflexivity.
Qed.

Lemma hsl_without_saturation_is_grey_witness :
  exists a,
    Color.hslChannels "210" "0" "50" None
    = (Fin (inject_Z (Qfloor (255 * (50 / 100) + (1 # 2)))),
       Fin (inject_Z (Qfloor (255 * (50 / 100) + (1 # 2)))),
       Fin (inject_Z (Qfloor (255 * (50 / 100) + (1 # 2)))), a).
Proof.
  apply (hsl_without_saturation_is_grey "210" "0" "50" None 210 0 50).
  - reflexivity.
  - vm_compute. reflexivity.
  - reflexivity.
  - vm_compute. reflexivity.
Defined.

(** ** Segment lookup at the keyframes *)

Lemma increasing_le (xs : list Q) (i j : nat) :
  increasing xs -> (i <= j)%nat -> (j < length xs)%nat ->
  nth i xs 0 <= nth j xs 0.
Proof.
  intros Hinc Hij Hj. induction j as [|j IH].
  - assert (i = 0%nat) as -> by lia. lra.
  - destruct (Nat.eq_dec i (S j)) as [-> | Hne]; [lra|].
    specialize (IH ltac:(lia) ltac:(lia)).
    pose proof (Hinc j Hj). lra.
Qed.

Lemma segLoop_at_keyframe (xs : list Q) (j fuel i : nat) :
  increasing xs -> (j < length xs)%nat -> (i <= j)%nat -> (j - i <= fuel)%nat ->
  segLoop (Fin (nth j xs 0)) (map Fin xs) fuel i = j.
Proof.
  intros Hinc Hj. revert i. induction fuel as [|fuel IH]; intros i Hij Hfuel;
    cbn [segLoop].
  - lia.
  - rewrite length_map.
    destruct (Nat.eq_dec i j) as [-> | Hne].
    + destruct (j <? length xs - 1)%nat eqn:Hlt; [|reflexivity].
      apply Nat.ltb_lt in Hlt. rewrite nth_num_Fin by lia. cbn [andb Num.geb Num.leb].
      replace (Qle_bool (nth (j + 1) xs 0) (nth j xs 0)) with false; [reflexivity|].
      symmetry. apply Qle_bool_false.
      replace (j + 1)%nat with (S j) by lia. apply Hinc. lia.
    + replace (i <? length xs - 1)%nat with true
        by (symmetry; apply Nat.ltb_lt; lia).
      rewrite nth_num_Fin by lia. cbn [andb Num.geb Num.leb].
      replace (Qle_bool (nth (i + 1) xs 0) (nth j xs 0)) with true.
      * apply IH; lia.
      * symmetry. apply Qle_bool_iff. apply increasing_le; auto; lia.
Qed.

(** X24: The lookup passes through the keyframes: with the camera exactly on
    the [j]-th coordinate of a strictly increasing axis the segment index
    is [j] and the progress is 0, so the value read is the [j]-th output;
    the lookup is flagged constant exactly at the two ends of the axis. *)
Theorem getSegmentInfo_at_keyframe (xs : list Q) (j : nat) :
  increasing xs -> (j < length xs)%nat ->
  let r := getSegmentInfo (Fin (nth j xs 0)) (map Fin xs) in
  seg_i r = j /\ (seg_p r == Fin 0)%num /\
  (seg_constant r = true <-> j = 0%nat \/ j = (length xs - 1)%nat).
Proof.
  intros Hinc Hj. unfold getSegmentInfo. rewrite length_map.
  destruct (length xs) as [|n] eqn:Hlen; [lia|].
  change (S n =? 0)%nat with false. cbv iota.
  rewrite !nth_num_Fin by lia. cbn [Num.leb Num.geb].
  destruct (Nat.eq_dec j 0%nat) as [-> | Hj0].
  { replace (Qle_bool (nth 0 xs 0) (nth 0 xs 0)) with true
      by (symmetry; apply Qle_bool_iff; lra).
    rewrite orb_true_r. cbn. repeat split; auto. }
  replace ((S n =? 1)%nat || Qle_bool (nth j xs 0) (nth 0 xs 0)) with false.
  2:{ symmetry. apply orb_false_iff. split; [apply Nat.eqb_neq; lia|].
      apply Qle_bool_false.
      pose proof (increasing_le xs 1%nat j Hinc ltac:(lia) ltac:(lia)).
      pose proof (Hinc 0%nat ltac:(lia)). lra. }
  destruct (Nat.eq_dec j (S n - 1)%nat) as [-> | Hjn].
  { replace (Qle_bool (nth (S n - 1) xs 0) (nth (S n - 1) xs 0)) with true
      by (symmetry; apply Qle_bool_iff; lra).
    cbn [seg_i seg_p seg_constant]. repeat split; auto. }
  replace (Qle_bool (nth (S n - 1) xs 0) (nth j xs 0)) with false.
  2:{ symmetry. apply Qle_bool_false.
      pose proof (increasing_le xs (S j) (S n - 1)%nat Hinc ltac:(lia) ltac:(lia)).
      pose proof (Hinc j ltac:(lia)). lra. }
  rewrite (segLoop_at_keyframe xs j (S n) 0%nat) by (auto; lia).
  rewrite !nth_num_Fin by lia.
  cbn [seg_i seg_p seg_constant]. split; [reflexivity|]. split.
  - cbn [Num.sub Num.neg Num.add Num.gtb Num.ltb].
    destruct (Num.Qltb _ _) eqn:E; [|reflexivity].
    apply Qltb_lt in E.
    assert (~ nth (j + 1) xs 0 + - nth j xs 0 == 0) as Hgap by lra.
    cbn [Num.div].
    destruct (Qeq_bool (nth (j + 1) xs 0 + - nth j xs 0) 0) eqn:Eb.
    + apply Qeq_bool_iff in Eb. contradiction.
    + cbn [Num.eq]. field. exact Hgap.
  - split; [discriminate | lia].
Qed.

Lemma getSegmentInfo_at_keyframe_witness :
  let r := getSegmentInfo (Fin (nth 1 [0; 400; 800] 0)) (map Fin [0; 400; 800]) in
  seg_i r = 1%nat /\ (seg_p r == Fin 0)%num /\
  (seg_constant r = true <-> 1%nat = 0%nat \/ 1%nat = (length [0; 400; 800] - 1)%nat).
Proof.
  apply (getSegmentInfo_at_keyframe [0; 400; 800] 1%nat).
  - intros [|[|i]] Hi; cbn in *; try lia; reflexivity.
  - cbn. lia.
Defined.

(** ** Frame evaluator, continued *)

Definition inUnit (a : num) : Prop := exists q, a = Fin q /\ 0 <= q <= 1.

(** [Math.max(0, Math.min(1, v))] is NaN for a NaN argument and lies in
    [[0, 1]] for every other one. *)
Lemma clamp01_range (v : num) :
  Evaluator.clamp01 v = NaN \/ inUnit (Evaluator.clamp01 v).
Proof.
  unfold Evaluator.clamp01, inUnit.
  destruct v as [| | |q]; cbn [Num.min Num.max Num.leb]; [now left | | |].
  - right. exists 1. split; [reflexivity | lra].
  - right. exists 0. split; [reflexivity | lra].
  - right. destruct (Qle_bool 1 q) eqn:E1; cbn [Num.max Num.leb].
    + exists 1. split; [reflexivity | lra].
    + destruct (Qle_bool 0 q) eqn:E0; q_prop; eexists;
        (split; [reflexivity | lra]).
Qed.

Lemma falloff_unit (camera home window : num) :
  inUnit (Evaluator.falloff camera home window).
Proof.
  unfold Evaluator.falloff.
  set (t := (Num.abs (camera - home) / window)%num). clearbody t.
  assert (Num.max (Fin 0) t = NaN \/ Num.max (Fin 0) t = PInf \/
          exists y, Num.max (Fin 0) t = Fin y /\ 0 <= y) as Hmax.
  { destruct t as [| | |q]; cbn [Num.max Num.leb]; auto.
    - right. right. exists 0. split; [reflexivity | lra].
    - right. right. destruct (Qle_bool 0 q) eqn:E; q_prop; eexists;
        (split; [reflexivity | lra]). }
  destruct Hmax as [-> | [-> | (y & -> & Hy)]]; cbn.
  - exists 0. split; [reflexivity | lra].
  - exists 0. split; [reflexivity | lra].
  - destruct (Qle_bool 1 y) eqn:E; cbn.
    + exists 0. split; [reflexivity | lra].
    + apply Qle_bool_false in E.
      destruct (Qeq_bool (1 + - y) 0) eqn:Ez; cbn.
      * exists 0. split; [reflexivity | lra].
      * exists (1 + - y). split; [reflexivity | lra].
Qed.

Lemma sq_unit (a : num) : inUnit a -> inUnit (Num.sq a).
Proof.
  intros (q & -> & Hq). exists (q * q). split; [reflexivity|]. nra.
Qed.

(** X25: The presence weight is a number between 0 and 1 for every camera,
    viewport and home position, NaN and infinite values included. *)
Theorem presence_in_unit_interval (dimensions : Dims) (isSingleRowVal : bool)
  (baked : Evaluator.BakedResult) (cameraX cameraY : num) :
  exists q,
    Evaluator.presenceOf dimensions isSingleRowVal baked cameraX cameraY = Fin q /\
    0 <= q <= 1.
Proof.
  unfold Evaluator.presenceOf.
  destruct (sq_unit _ (falloff_unit cameraX (Evaluator.homeX baked)
                         (width dimensions * Fin (4 # 10))%num))
    as (px & -> & Hpx).
  destruct isSingleRowVal.
  - exists (px * 1). split; [reflexivity | lra].
  - destruct (sq_unit _ (falloff_unit cameraY (Evaluator.homeY baked)
                           (height dimensions * Fin (4 # 10))%num))
      as (py & -> & Hpy).
    exists (px * py). split; [reflexivity | nra].
Qed.

(** *** Lane lookup *)

Lemma laneLoop_bound (fixeds : list num) (pos : num) (fuel i : nat) :
  (i <= length fixeds - 1)%nat ->
  (i <= Evaluator.laneLoop fixeds pos fuel i <= length fixeds - 1)%nat.
Proof.
  revert i. induction fuel as [|fuel IH]; intros i Hi; cbn [Evaluator.laneLoop];
    [lia|].
  destruct (i <? length fixeds - 1)%nat eqn:E; cbn [andb]; [|lia].
  apply Nat.ltb_lt in E. destruct (_ >? _)%num; [|lia].
  specialize (IH (S i) ltac:(lia)). lia.
Qed.

(** X26: [getLaneInfo] answers [null] only for an empty list of lanes.
    Otherwise the two lanes it picks exist, are the same or adjacent, and
    the mix between them is NaN or a number between 0 and 1. *)
Theorem getLaneInfo_in_bounds (fixeds : list num) (pos : num) :
  (Evaluator.getLaneInfo fixeds pos = None <-> fixeds = []) /\
  (forall info, Evaluator.getLaneInfo fixeds pos = Some info ->
     (Evaluator.l1idx info <= Evaluator.l2idx info)%nat /\
     (Evaluator.l2idx info < length fixeds)%nat /\
     (Evaluator.l2idx info - Evaluator.l1idx info <= 1)%nat /\
     (Evaluator.mix info = NaN \/
      exists q, Evaluator.mix info = Fin q /\ 0 <= q <= 1)).
Proof.
  unfold Evaluator.getLaneInfo.
  destruct fixeds as [|f fixeds]; [split; [tauto | discriminate]|].
  set (l := f :: fixeds). change (length l =? 0)%nat with false. cbv iota zeta.
  match goal with
  | |- context [Num.min (Fin 1) ?t] => set (ratio := t)
  end.
  pose proof (laneLoop_bound l pos (length l) 0 ltac:(lia)) as Hi.
  set (i := Evaluator.laneLoop l pos (length l) 0) in *.
  assert (0 < length l)%nat as Hlen by (cbn; lia).
  replace ((Nat.max 0 (i - 1) <? length l)%nat && (i <? length l)%nat)
    with true
    by (symmetry; apply andb_true_iff; split; apply Nat.ltb_lt; lia).
  split; [split; [discriminate | discriminate]|].
  intros info [= <-]. cbn [Evaluator.l1idx Evaluator.l2idx Evaluator.mix].
  split; [lia|]. split; [lia|]. split; [lia|].
  exact (clamp01_range ratio).
Qed.

(** *** Early exits *)

(** X27: Before the viewport is measured (a width or height that is zero,
    negative or NaN) the evaluator hides the component. *)
Theorem unmeasured_viewport_is_hidden
  (interpolate : num -> list num -> list num -> num)
  (interpolateColor : num -> list num -> list string -> string)
  (dimensions : Dims) (isSingleRowVal : bool)
  (baked : Evaluator.BakedResult) (events : gmap string num) (present : bool) :
  (width dimensions <=? Fin 0)%num = true \/
  (height dimensions <=? Fin 0)%num = true \/
  width dimensions = NaN \/ height dimensions = NaN ->
  Evaluator.animatedStyle interpolate interpolateColor dimensions
    isSingleRowVal baked events present = Evaluator.invisible.
Proof.
  intros Hdims. unfold Evaluator.animatedStyle.
  destruct present; [|reflexivity].
  destruct (events !! "x") as [cameraX|]; [|reflexivity].
  destruct (events !! "y") as [cameraY|]; [|reflexivity].
  cbv zeta. destruct (negb _ || negb _); [reflexivity|].
  replace ((width dimensions <=? Fin 0)%num || (height dimensions <=? Fin 0)%num
           || Num.isNaN (width dimensions) || Num.isNaN (height dimensions))
    with true; [reflexivity|].
  symmetry. destruct Hdims as [-> | [-> | [-> | ->]]];
    rewrite ?orb_true_r; reflexivity.
Qed.

Lemma unmeasured_viewport_is_hidden_witness :
  Evaluator.animatedStyle Reanimated.interpolate jsBlend
    (mkDims (Fin 0) (Fin 0) (Fin 0) (Fin 0)) true (bakedFade 1 1 0)
    (eventsAt (Fin 0) (Fin 0) 50) true = Evaluator.invisible.
Proof.
  apply (unmeasured_viewport_is_hidden Reanimated.interpolate jsBlend
           (mkDims (Fin 0) (Fin 0) (Fin 0) (Fin 0)) true (bakedFade 1 1 0)
           (eventsAt (Fin 0) (Fin 0) 50) true).
  left. reflexivity.
Defined.

(** X28: Whatever the inputs, the style the evaluator returns carries an
    opacity, and it is NaN or a number between 0 and 1. *)
Theorem opacity_is_clamped
  (interpolate : num -> list num -> list num -> num)
  (interpolateColor : num -> list num -> list string -> string)
  (dimensions : Dims) (isSingleRowVal : bool)
  (baked : Evaluator.BakedResult) (events : gmap string num) (present : bool) :
  exists v,
    Evaluator.animatedStyle interpolate interpolateColor dimensions
      isSingleRowVal baked events present !! "opacity" = Some (PNum v) /\
    (v = NaN \/ exists q, v = Fin q /\ 0 <= q <= 1).
Proof.
  assert (exists v, Evaluator.invisible !! "opacity" = Some (PNum v) /\
            (v = NaN \/ exists q, v = Fin q /\ 0 <= q <= 1)) as Hinv.
  { exists (Fin 0). split; [reflexivity|]. right. exists 0.
    split; [reflexivity | lra]. }
  unfold Evaluator.animatedStyle.
  destruct present; [|exact Hinv].
  destruct (events !! "x") as [cameraX|]; [|exact Hinv].
  destruct (events !! "y") as [cameraY|]; [|exact Hinv].
  cbv zeta. destruct (negb _ || negb _); [exact Hinv|].
  destruct (_ || _); [exact Hinv|].
  destruct (Evaluator.getLaneInfo _ cameraY) as [laneH|]; [|exact Hinv].
  destruct (Evaluator.getLaneInfo _ cameraX) as [laneV|]; [|exact Hinv].
  destruct (negb _ && negb _); [exact Hinv|].
  unfold Evaluator.compose. cbv zeta.
  rewrite lookup_insert_ne by discriminate. rewrite lookup_insert_eq.
  eexists. split; [reflexivity|]. apply clamp01_range.
Qed.

(** *** Persistent lanes *)

(** X29: When every event lane is persistent the event phase does not depend
    on the presence weight: the effect of the lanes is the same at any
    distance of the camera from home. *)
Theorem persistent_lanes_ignore_presence
  (interpolate : num -> list num -> list num -> num)
  (interpolateColor : num -> list num -> list string -> string)
  (baked : Evaluator.BakedResult) (events : gmap string num)
  (presence presence' : num) :
  Forall (fun entry => Evaluator.lpersistent entry.2 = true)
    (Evaluator.eventLanes baked) ->
  Evaluator.eventPhase interpolate interpolateColor baked events presence
  = Evaluator.eventPhase interpolate interpolateColor baked events presence'.
Proof.
  intros Hall. unfold Evaluator.eventPhase.
  generalize (Evaluator.mkEventAcc ∅ ∅).
  induction Hall as [|[eName lane] lanes Hp _ IH]; intros acc; [reflexivity|].
  cbn [fold_left]. rewrite IH. f_equal.
  unfold Evaluator.eventLane. cbn [snd] in Hp. now rewrite Hp.
Qed.

Lemma persistent_lanes_ignore_presence_witness :
  let baked :=
    Evaluator.mkBakedResult (Fin 0) (Fin 0) (Fin 0) (Fin 0) [] [] [] []
      [("scrollY",
        Evaluator.mkLane [Fin 0; Fin 100] [Evaluator.NumRange [Fin 1; Fin 0]]
          ["opacity"] true)]
      [Fin 0] [Fin 0] ["worldX"; "worldY"; "opacity"] [] ∅ []
      {[ "opacity" := SNum (Fin 1) ]} in
  Evaluator.eventPhase Reanimated.interpolate jsBlend baked
    (eventsAt (Fin 0) (Fin 0) 50) (Fin 1)
  = Evaluator.eventPhase Reanimated.interpolate jsBlend baked
      (eventsAt (Fin 0) (Fin 0) 50) (Fin 0).
Proof.
  apply (persistent_lanes_ignore_presence Reanimated.interpolate jsBlend
           _ (eventsAt (Fin 0) (Fin 0) 50) (Fin 1) (Fin 0)).
  repeat constructor.
Defined.

(** *** Absolute placement *)

Lemma place_keeps (b : Evaluator.Build) (k : string) (res : Atom)
  (key : string) :
  key <> k -> key <> "shadowOffset" -> key <> "textShadowOffset" ->
  Evaluator.props (Evaluator.place b k res) !! key = Evaluator.props b !! key.
Proof.
  intros Hk Hs Ht. unfold Evaluator.place.
  destruct (Str.startsWith "_tr_" k); [reflexivity|].
  destruct (Evaluator.isShadowKey k); cbn [Evaluator.props].
  - destruct (Str.startsWith "shadowOffset" k);
      now rewrite lookup_insert_ne by congruence.
  - now rewrite lookup_insert_ne by congruence.
Qed.

Definition layoutKey (key : string) : Prop :=
  key = "position" \/ key = "left" \/ key = "top".

Lemma buildKey_keeps (baked : Evaluator.BakedResult) (ev : Evaluator.EventAcc)
  (sv : gmap string StyleVal) (b : Evaluator.Build) (k key : string) :
  layoutKey key ->
  (k = key -> Evaluator.isColorKey baked k = false /\ key <> "position") ->
  Evaluator.props (Evaluator.buildKey baked ev sv b k) !! key
  = Evaluator.props b !! key.
Proof.
  intros Hkey Hk. unfold Evaluator.buildKey.
  destruct (_ || _); [reflexivity|].
  assert (key <> "shadowOffset" /\ key <> "textShadowOffset") as [Hs Ht]
    by (destruct Hkey as [-> | [-> | ->]]; split; discriminate).
  destruct (String.eqb_spec k key) as [-> | Hne].
  - destruct (Hk eq_refl) as [-> Hpos].
    destruct Hkey as [-> | [-> | ->]]; [congruence | reflexivity | reflexivity].
  - destruct (Evaluator.isColorKey baked k);
      [apply place_keeps; congruence|].
    cbv zeta.
    destruct (_ || _); [reflexivity|].
    destruct (_ || _); [reflexivity|].
    apply place_keeps; congruence.
Qed.

Lemma dedup_subset (seen l : list string) (k : string) :
  k ∈ Evaluator.dedup seen l -> k ∈ l.
Proof.
  revert seen. induction l as [|x l IH]; intros seen Hk; cbn in Hk;
    [exact Hk|].
  destruct (bool_decide (x ∈ seen)).
  - right. eapply IH, Hk.
  - apply elem_of_cons in Hk as [-> | Hk]; [now left|].
    right. eapply IH, Hk.
Qed.

(** X30: A style that is not the hidden one [{ opacity: 0 }] is always placed
    absolutely at the origin of its parent, [position: 'absolute'],
    [left: 0], [top: 0], whatever the base style and the keyframes hold
    under these keys: the position on screen comes from the transform
    alone.  (No colour key is named [position], [left] or [top], and no
    numeric key [position].) *)
Theorem visible_style_is_absolute
  (interpolate : num -> list num -> list num -> num)
  (interpolateColor : num -> list num -> list string -> string)
  (dimensions : Dims) (isSingleRowVal : bool)
  (baked : Evaluator.BakedResult) (events : gmap string num) (present : bool) :
  "position" ∉ Evaluator.numericKeys baked ->
  (forall key, layoutKey key -> key ∉ Evaluator.colorKeys baked) ->
  let out :=
    Evaluator.animatedStyle interpolate interpolateColor dimensions
      isSingleRowVal baked events present in
  out = Evaluator.invisible \/
  (out !! "position" = Some (PStr "absolute") /\
   out !! "left" = Some (PNum (Fin 0)) /\
   out !! "top" = Some (PNum (Fin 0))).
Proof.
  intros Hnum Hcol out. subst out. unfold Evaluator.animatedStyle.
  destruct present; [|now left].
  destruct (events !! "x") as [cameraX|]; [|now left].
  destruct (events !! "y") as [cameraY|]; [|now left].
  cbv zeta. destruct (negb _ || negb _); [now left|].
  destruct (_ || _); [now left|].
  destruct (Evaluator.getLaneInfo _ cameraY) as [laneH|]; [|now left].
  destruct (Evaluator.getLaneInfo _ cameraX) as [laneV|]; [|now left].
  destruct (negb _ && negb _); [now left|].
  right. unfold Evaluator.compose. cbv zeta.
  match goal with
  | |- context [fold_left (Evaluator.buildKey baked ?ev ?sv) ?ks ?init] =>
      set (step := Evaluator.buildKey baked ev sv);
      set (keys := ks); set (b0 := init)
  end.
  assert (forall key, layoutKey key ->
            Evaluator.props (fold_left step keys b0) !! key
            = Evaluator.props b0 !! key) as Hkeep.
  { intros key Hkey.
    assert (forall k, k ∈ keys -> k = key ->
              Evaluator.isColorKey baked k = false /\ key <> "position") as Hok.
    { intros k Hin ->. apply dedup_subset, elem_of_app in Hin.
      split.
      - apply bool_decide_eq_false. now apply Hcol.
      - intros ->. destruct Hin as [Hin | Hin]; [auto|].
        apply (Hcol "position"); [now left | exact Hin]. }
    clearbody keys b0. revert b0. clear -Hok Hkey.
    induction keys as [|k keys IH]; intros b0; [reflexivity|].
    cbn [fold_left]. rewrite IH.
    - apply buildKey_keeps; [exact Hkey|]. apply Hok. now left.
    - intros k' Hin. apply Hok. now right. }
  rewrite !(lookup_insert_ne _ "transform") by discriminate.
  rewrite !(lookup_insert_ne _ "opacity") by discriminate.
  rewrite (Hkeep "position"), (Hkeep "left"), (Hkeep "top")
    by (unfold layoutKey; auto).
  subst b0. cbn [Evaluator.props].
  repeat split.
  - rewrite !(lookup_insert_ne _ "top"), !(lookup_insert_ne _ "left"),
      !(lookup_insert_ne _ "height"), !(lookup_insert_ne _ "width")
      by discriminate.
    apply lookup_insert_eq.
  - rewrite !(lookup_insert_ne _ "top") by discriminate.
    apply lookup_insert_eq.
  - apply lookup_insert_eq.
Qed.

Lemma visible_style_is_absolute_witness :
  let out := sampleStyle dims400 (bakedFade 1 1 0) (eventsAt (Fin 0) (Fin 0) 50) in
  out = Evaluator.invisible \/
  (out !! "position" = Some (PStr "absolute") /\
   out !! "left" = Some (PNum (Fin 0)) /\
   out !! "top" = Some (PNum (Fin 0))).
Proof.
  apply (visible_style_is_absolute Reanimated.interpolate jsBlend dims400 true
           (bakedFade 1 1 0) (eventsAt (Fin 0) (Fin 0) 50) true).
  - cbn. rewrite !not_elem_of_cons. repeat split; try discriminate.
    apply not_elem_of_nil.
  - intros key _. cbn. apply not_elem_of_nil.
Defined.

(** ** Gesture machine: invariants of a pan *)

(** X18: Once [onEnd] has chosen a snap target the finalize pass leaves it
    alone, whatever it is called with. *)
Theorem onFinalize_after_onEnd (g : Gesture.t) (inp inp' : Gesture.Inputs)
  (ev : Gesture.Event) (success : bool) (s : Gesture.State) :
  Gesture.disabled (Gesture.gestureEnabled inp) = false ->
  Gesture.snapPointsProcessed g <> [] ->
  Gesture.onFinalize g inp' success (Gesture.onEnd g inp ev s)
  = Gesture.onEnd g inp ev s.
Proof.
  intros Hen Hne.
  assert (Gesture.isSnappingVal (Gesture.onEnd g inp ev s) = true) as Hsnap.
  { unfold Gesture.onEnd. rewrite Hen.
    destruct (Gesture.snapPointsProcessed g); [congruence | reflexivity]. }
  unfold Gesture.onFinalize. rewrite Hsnap.
  destruct (negb success || _); [reflexivity|].
  destruct (Gesture.disabled (Gesture.gestureEnabled inp')); reflexivity.
Qed.

Lemma onFinalize_after_onEnd_witness :
  Gesture.onFinalize gesture3x3 (Gesture.mkInputs None None None) true
    (Gesture.onEnd gesture3x3 (Gesture.mkInputs None None None) (panBy 30 0)
       atOrigin)
  = Gesture.onEnd gesture3x3 (Gesture.mkInputs None None None) (panBy 30 0)
      atOrigin.
Proof.
  apply (onFinalize_after_onEnd gesture3x3 (Gesture.mkInputs None None None)
           (Gesture.mkInputs None None None) (panBy 30 0) true atOrigin).
  - reflexivity.
  - vm_compute. discriminate.
Defined.

(** ** The style the frame evaluator writes *)

(** *** Passing the early exits *)

(** The lane and segment lookup of the worklet, from its first line to the
    last early exit: [None] where it returns [{ opacity: 0 }]. *)
Definition geometryOf (dimensions : Dims) (baked : Evaluator.BakedResult)
  (cameraX cameraY : num) : option Evaluator.Geometry :=
  let thresholdX := (width dimensions * Fin (15 # 10))%num in
  let thresholdY := (height dimensions * Fin (15 # 10))%num in
  if negb (Evaluator.isVisible cameraX (Evaluator.homeX baked) thresholdX
             (Evaluator.uniqueX baked))
     || negb (Evaluator.isVisible cameraY (Evaluator.homeY baked) thresholdY
                (Evaluator.uniqueY baked))
  then None
  else if (width dimensions <=? Fin 0)%num || (height dimensions <=? Fin 0)%num
          || Num.isNaN (width dimensions) || Num.isNaN (height dimensions)
  then None
  else
    match Evaluator.getLaneInfo (Evaluator.fixed <$> Evaluator.bakedH baked)
            cameraY,
          Evaluator.getLaneInfo (Evaluator.fixed <$> Evaluator.bakedV baked)
            cameraX with
    | Some laneH, Some laneV =>
        let isNearH := (Evaluator.dist laneH <? width dimensions)%num in
        let isNearV := (Evaluator.dist laneV <? width dimensions)%num in
        if negb isNearH && negb isNearV then None
        else
          Some (Evaluator.mkGeometry laneH laneV isNearH isNearV
                  (if isNearV then
                     if isNearH
                     then (Evaluator.dist laneV /
                           (Evaluator.dist laneH + Evaluator.dist laneV
                            + Fin (1 # 1000)))%num
                     else Fin 0
                   else Fin 1)
                  (getSegmentInfo cameraX (Evaluator.uniqueX baked))
                  (getSegmentInfo cameraY (Evaluator.uniqueY baked)))
    | _, _ => None
    end.

Section Output.
Context (interpolate : num -> list num -> list num -> num).
Context (interpolateColor : num -> list num -> list string -> string).
Context (dimensions : Dims) (isSingleRowVal : bool).
Context (baked : Evaluator.BakedResult) (events : gmap string num).

Let style :=
  Evaluator.animatedStyle interpolate interpolateColor dimensions
    isSingleRowVal baked events true.
Let compose :=
  Evaluator.compose interpolate interpolateColor dimensions isSingleRowVal
    baked events.

(** Past the early exits the worklet computes the style of [compose]. *)
Lemma animatedStyle_geometry (cameraX cameraY : num) :
  events !! "x" = Some cameraX -> events !! "y" = Some cameraY ->
  style = match geometryOf dimensions baked cameraX cameraY with
          | Some g => compose g cameraX cameraY
          | None => Evaluator.invisible
          end.
Proof.
  intros Hx Hy. subst style compose.
  unfold Evaluator.animatedStyle, geometryOf. rewrite Hx, Hy. cbv zeta.
  destruct (negb _ || negb _); [reflexivity|].
  destruct (_ || _ || _ || _); [reflexivity|].
  destruct (Evaluator.getLaneInfo _ cameraY) as [laneH|]; [|reflexivity].
  destruct (Evaluator.getLaneInfo _ cameraX) as [laneV|]; [|reflexivity].
  destruct (negb _ && negb _); reflexivity.
Qed.

(** The values of the three phases of the worklet. *)
Definition spatialOf (g : Evaluator.Geometry) (cameraX cameraY : num)
  : gmap string StyleVal :=
  Evaluator.runSpatial interpolateColor baked g cameraX cameraY.

Definition eventsOf (cameraX cameraY : num) : Evaluator.EventAcc :=
  Evaluator.eventPhase interpolate interpolateColor baked events
    (Evaluator.presenceOf dimensions isSingleRowVal baked cameraX cameraY).

(** [new Set([...numericKeys, ...colorKeys])] *)
Definition allKeys : list string :=
  Evaluator.dedup [] (Evaluator.numericKeys baked ++ Evaluator.colorKeys baked).

(** The state after [allKeys.forEach]: the style object and its
    transform list under construction, and the world position. *)
Definition builtOf (g : Evaluator.Geometry) (cameraX cameraY : num)
  : Evaluator.Build :=
  let sv := spatialOf g cameraX cameraY in
  let ev := eventsOf cameraX cameraY in
  fold_left (Evaluator.buildKey baked ev sv) allKeys
    (Evaluator.mkBuild
       (<["top" := PNum (Fin 0)]>
          (<["left" := PNum (Fin 0)]>
             (<["height" := default (PNum (height dimensions))
                              (Evaluator.baseRest baked !! "height")]>
                (<["width" := default (PNum (width dimensions))
                                (Evaluator.baseRest baked !! "width")]>
                   (<["position" := PStr "absolute"]>
                      (Evaluator.baseRest baked))))))
       []
       (Evaluator.compositeNumeric baked ev "worldX"
          (Some (Evaluator.nullish (Evaluator.numOf sv "worldX") (Fin 0))))
       (Evaluator.compositeNumeric baked ev "worldY"
          (Some (Evaluator.nullish (Evaluator.numOf sv "worldY") (Fin 0))))).

(** The translation before its NaN guard: [finalX - sx], [finalY - sy]. *)
Definition translationX (g : Evaluator.Geometry) (cameraX cameraY : num) : num :=
  (Evaluator.finalX (builtOf g cameraX cameraY) - Num.or cameraX (Fin 0))%num.

Definition translationY (g : Evaluator.Geometry) (cameraX cameraY : num) : num :=
  (Evaluator.finalY (builtOf g cameraX cameraY) - Num.or cameraY (Fin 0))%num.

(** The opacity before its clamp. *)
Definition opacityBeforeClamp (g : Evaluator.Geometry) (cameraX cameraY : num)
  : num :=
  Evaluator.compositeNumeric baked (eventsOf cameraX cameraY) "opacity"
    (Some (Evaluator.nullish
             (Evaluator.numOf (spatialOf g cameraX cameraY) "opacity") (Fin 1))).

Definition orZero (t : num) : num := if Num.isNaN t then Fin 0 else t.

Lemma compose_builtOf (g : Evaluator.Geometry) (cameraX cameraY : num) :
  compose g cameraX cameraY =
  <["transform" :=
      PArr ([("translateX", ANum (orZero (translationX g cameraX cameraY)));
             ("translateY", ANum (orZero (translationY g cameraX cameraY)))]
            ++ Evaluator.transform (builtOf g cameraX cameraY)
            ++ Evaluator.baseTransform baked)]>
    (<["opacity" := PNum (Evaluator.clamp01 (opacityBeforeClamp g cameraX cameraY))]>
       (Evaluator.props (builtOf g cameraX cameraY))).
Proof. reflexivity. Qed.

End Output.

(** *** Where the value of a key is written *)

(** [new Set] keeps each key once. *)
Lemma dedup_fresh (seen l : list string) :
  NoDup (Evaluator.dedup seen l) /\
  forall k, k ∈ Evaluator.dedup seen l -> k ∉ seen.
Proof.
  revert seen. induction l as [|x l IH]; intros seen; cbn.
  { split; [constructor | intros k Hk; by apply elem_of_nil in Hk]. }
  destruct (bool_decide (x ∈ seen)) eqn:Hx; [apply IH|].
  apply bool_decide_eq_false in Hx.
  destruct (IH (x :: seen)) as [Hnd Hfresh]. split.
  - constructor; [|exact Hnd]. intros Hin. apply (Hfresh x Hin). now left.
  - intros k Hk. apply elem_of_cons in Hk as [-> | Hk]; [exact Hx|].
    intros Hin. apply (Hfresh k Hk). now right.
Qed.

Lemma dedup_complete (seen l : list string) (k : string) :
  k ∈ l -> k ∉ seen -> k ∈ Evaluator.dedup seen l.
Proof.
  revert seen. induction l as [|x l IH]; intros seen Hk Hseen.
  { by apply elem_of_nil in Hk. }
  cbn. apply elem_of_cons in Hk.
  destruct (bool_decide (x ∈ seen)) eqn:Hx.
  - apply bool_decide_eq_true in Hx.
    destruct Hk as [-> | Hk]; [contradiction | now apply IH].
  - destruct (decide (k = x)) as [-> | Hne]; [now left|].
    right. destruct Hk as [-> | Hk]; [contradiction|].
    apply IH; [exact Hk|]. intros Hin.
    apply elem_of_cons in Hin as [-> | Hin]; contradiction.
Qed.

(** The object and the field a shadow offset key is written to. *)
Definition shadowObject (k : string) : string :=
  if Str.startsWith "shadowOffset" k then "shadowOffset" else "textShadowOffset".

Definition shadowField (k : string) : string :=
  if Evaluator.endsWith "Width" k then "width" else "height".

(** The entry a transform key adds to the transform list. *)
Definition transformEntry (k : string) (a : Atom) : string * Atom :=
  (Str.drop 4 k,
   if Evaluator.isRotate (Str.drop 4 k) then Evaluator.degrees a else a).

(** The value [a] has been written for the key [k]: as an entry of the
    transform list for a key [_tr_...], as a field of the [shadowOffset]
    or [textShadowOffset] object for the four shadow offset keys, and
    under its own name for any other key. *)
Definition writtenIn (p : Props) (tr : list (string * Atom)) (k : string)
  (a : Atom) : Prop :=
  if Str.startsWith "_tr_" k then transformEntry k a ∈ tr
  else if Evaluator.isShadowKey k then
    exists fields,
      p !! shadowObject k = Some (PObj fields) /\ (shadowField k, a) ∈ fields
  else p !! k = Some (PAtom a).

(** The same in a finished style object. *)
Definition written (out : Props) (k : string) (a : Atom) : Prop :=
  exists items,
    out !! "transform" = Some (PArr items) /\ writtenIn out items k a.

Lemma setField_in (field : string) (v : Atom) (obj : list (string * Atom)) :
  (field, v) ∈ Evaluator.setField field v obj.
Proof.
  induction obj as [|[f w] obj IH]; cbn; [now left|].
  destruct (String.eqb_spec f field) as [-> | Hne]; [now left | now right].
Qed.

Lemma setField_other (field f : string) (v w : Atom)
  (obj : list (string * Atom)) :
  f <> field -> (f, w) ∈ obj -> (f, w) ∈ Evaluator.setField field v obj.
Proof.
  intros Hne. induction obj as [|[f' w'] obj IH]; intros Hin.
  { by apply elem_of_nil in Hin. }
  cbn. apply elem_of_cons in Hin.
  destruct (String.eqb_spec f' field) as [-> | Hne'].
  - destruct Hin as [[= -> ->] | Hin]; [contradiction | now right].
  - destruct Hin as [[= -> ->] | Hin]; [now left | right; now apply IH].
Qed.

Lemma shadow_cases (k : string) :
  Evaluator.isShadowKey k = true ->
  k = "shadowOffsetWidth" \/ k = "shadowOffsetHeight" \/
  k = "textShadowOffsetWidth" \/ k = "textShadowOffsetHeight".
Proof.
  unfold Evaluator.isShadowKey. intros H.
  repeat (apply orb_prop in H as [H | H]); apply String.eqb_eq in H; auto.
Qed.

Lemma shadowObject_cases (k : string) :
  shadowObject k = "shadowOffset" \/ shadowObject k = "textShadowOffset".
Proof. unfold shadowObject. destruct (Str.startsWith _ k); auto. Qed.

Lemma shadow_key_inj (k k' : string) :
  Evaluator.isShadowKey k = true -> Evaluator.isShadowKey k' = true ->
  shadowObject k = shadowObject k' -> shadowField k = shadowField k' -> k = k'.
Proof.
  intros Hk Hk'. apply shadow_cases in Hk, Hk'.
  destruct Hk as [-> | [-> | [-> | ->]]], Hk' as [-> | [-> | [-> | ->]]];
    cbn; intros; congruence.
Qed.

(** Two key names stand for the objects that hold the shadow offsets;
    a key of either name would overwrite them. *)
Definition objectName (k : string) : Prop :=
  k = "shadowOffset" \/ k = "textShadowOffset".

Lemma place_written (b : Evaluator.Build) (k : string) (a : Atom) :
  writtenIn (Evaluator.props (Evaluator.place b k a))
    (Evaluator.transform (Evaluator.place b k a)) k a.
Proof.
  unfold Evaluator.place, writtenIn.
  destruct (Str.startsWith "_tr_" k).
  - cbn [Evaluator.transform]. apply elem_of_app. right. now left.
  - destruct (Evaluator.isShadowKey k); cbn [Evaluator.props].
    + eexists. split; [apply lookup_insert_eq | apply setField_in].
    + apply lookup_insert_eq.
Qed.

Lemma place_preserves (b : Evaluator.Build) (k' : string) (a' : Atom)
  (k : string) (a : Atom) :
  k' <> k -> ~ objectName k -> ~ objectName k' ->
  writtenIn (Evaluator.props b) (Evaluator.transform b) k a ->
  writtenIn (Evaluator.props (Evaluator.place b k' a'))
    (Evaluator.transform (Evaluator.place b k' a')) k a.
Proof.
  intros Hne Hk Hk'. unfold writtenIn, Evaluator.place.
  fold (shadowObject k') (shadowField k').
  destruct (Str.startsWith "_tr_" k') eqn:Ht'; cbn [Evaluator.props Evaluator.transform].
  { destruct (Str.startsWith "_tr_" k); [|tauto].
    intros Hin. apply elem_of_app. now left. }
  destruct (Evaluator.isShadowKey k') eqn:Hs'; cbn [Evaluator.props Evaluator.transform].
  - destruct (Str.startsWith "_tr_" k); [tauto|].
    destruct (Evaluator.isShadowKey k) eqn:Hs.
    + intros (fields & Hobj & Hin).
      destruct (decide (shadowObject k = shadowObject k')) as [Heq | Hneq].
      * rewrite Heq in Hobj |- *. rewrite Hobj.
        eexists. split; [apply lookup_insert_eq|].
        apply setField_other; [|exact Hin].
        intros Hf. apply Hne. symmetry. now apply shadow_key_inj.
      * exists fields. split; [|exact Hin].
        rewrite lookup_insert_ne by congruence. exact Hobj.
    + intros Hp. rewrite lookup_insert_ne; [exact Hp|].
      intros Heq. apply Hk. rewrite <- Heq. apply shadowObject_cases.
  - destruct (Str.startsWith "_tr_" k); [tauto|].
    destruct (Evaluator.isShadowKey k) eqn:Hs.
    + intros (fields & Hobj & Hin). exists fields. split; [|exact Hin].
      rewrite lookup_insert_ne; [exact Hobj|].
      intros Heq. apply Hk'. rewrite Heq. apply shadowObject_cases.
    + intros Hp. now rewrite lookup_insert_ne.
Qed.

(** The numeric keys that [allKeys.forEach] writes to the style: all but
    the world position and the opacity, handled apart, and the layout
    keys, which are folded into the translation. *)
Definition placedKey (k : string) : bool :=
  negb (String.eqb k "worldX" || String.eqb k "worldY" || String.eqb k "opacity")
  && negb (String.eqb k "left" || String.eqb k "marginLeft")
  && negb (String.eqb k "top" || String.eqb k "marginTop").

Section Written.
Context (baked : Evaluator.BakedResult).
Context (ev : Evaluator.EventAcc) (sv : gmap string StyleVal).

Let buildKey := Evaluator.buildKey baked ev sv.

(** The value of a numeric key after the guard
    [if (isNaN(res)) res = baked.homeProps[k]]. *)
Definition guarded (k : string) : option num :=
  let res := Evaluator.compositeNumeric baked ev k (Evaluator.numOf sv k) in
  if Num.isNaN res then Evaluator.homeNum baked k else Some res.

Lemma buildKey_written (b : Evaluator.Build) (k : string) :
  Evaluator.isColorKey baked k = false -> placedKey k = true ->
  writtenIn (Evaluator.props (buildKey b k)) (Evaluator.transform (buildKey b k))
    k (Evaluator.ofNum (guarded k)).
Proof.
  intros Hcol Hplaced. unfold placedKey in Hplaced.
  apply andb_prop in Hplaced as [Hplaced Htop].
  apply andb_prop in Hplaced as [Hskip Hleft].
  apply negb_true_iff in Hskip, Hleft, Htop.
  subst buildKey. unfold Evaluator.buildKey. rewrite Hskip, Hcol. cbv zeta.
  rewrite Hleft, Htop. apply place_written.
Qed.

Lemma buildKey_preserves (b : Evaluator.Build) (k' k : string) (a : Atom) :
  k' <> k -> ~ objectName k -> ~ objectName k' ->
  writtenIn (Evaluator.props b) (Evaluator.transform b) k a ->
  writtenIn (Evaluator.props (buildKey b k')) (Evaluator.transform (buildKey b k'))
    k a.
Proof.
  intros Hne Hk Hk' Hw. subst buildKey. unfold Evaluator.buildKey.
  destruct (_ || _ || _); [exact Hw|].
  destruct (Evaluator.isColorKey baked k'); [now apply place_preserves|].
  cbv zeta.
  destruct (_ || _); [exact Hw|].
  destruct (_ || _); [exact Hw|].
  now apply place_preserves.
Qed.

Lemma fold_preserves (keys : list string) (b : Evaluator.Build) (k : string)
  (a : Atom) :
  k ∉ keys -> ~ objectName k -> Forall (fun k' => ~ objectName k') keys ->
  writtenIn (Evaluator.props b) (Evaluator.transform b) k a ->
  let b' := fold_left buildKey keys b in
  writtenIn (Evaluator.props b') (Evaluator.transform b') k a.
Proof.
  revert b. induction keys as [|k' keys IH]; intros b Hnotin Hk Hall Hw;
    [exact Hw|].
  apply not_elem_of_cons in Hnotin as [Hne Hnotin].
  apply Forall_cons in Hall as [Hk' Hall].
  cbn [fold_left]. apply IH; auto.
  apply buildKey_preserves; auto.
Qed.

Lemma fold_written (keys : list string) (b : Evaluator.Build) (k : string) :
  NoDup keys -> k ∈ keys -> Forall (fun k' => ~ objectName k') keys ->
  Evaluator.isColorKey baked k = false -> placedKey k = true ->
  let b' := fold_left buildKey keys b in
  writtenIn (Evaluator.props b') (Evaluator.transform b') k
    (Evaluator.ofNum (guarded k)).
Proof.
  revert b. induction keys as [|k' keys IH]; intros b Hnd Hin Hall Hcol Hpl.
  { by apply elem_of_nil in Hin. }
  apply NoDup_cons in Hnd as [Hk' Hnd].
  pose proof Hall as Hall'. apply Forall_cons in Hall' as [Hobj Hrest].
  apply elem_of_cons in Hin as [-> | Hin]; cbn [fold_left].
  - apply fold_preserves; auto. now apply buildKey_written.
  - now apply IH.
Qed.

End Written.

(** *** The event phase, key by key *)

Section EventPhase.
Context (interpolate : num -> list num -> list num -> num).
Context (interpolateColor : num -> list num -> list string -> string).
Context (baked : Evaluator.BakedResult) (events : gmap string num).

Let eventKey := Evaluator.eventKey interpolate interpolateColor baked.
Let eventLane := Evaluator.eventLane interpolate interpolateColor baked events.

Lemma eventKey_other (lane : Evaluator.BakedLane) (val w : num)
  (acc : Evaluator.EventAcc) (i : nat) (k' k : string) :
  k' <> k ->
  Evaluator.eventResults (eventKey lane val w acc (i, k')) !! k =
  Evaluator.eventResults acc !! k.
Proof.
  intros Hne. unfold eventKey, Evaluator.eventKey.
  destruct (Evaluator.isColorKey baked k'); cbn; [reflexivity|].
  now rewrite lookup_insert_ne.
Qed.

Lemma fold_eventKey_other (lane : Evaluator.BakedLane) (val w : num)
  (l : list (nat * string)) (acc : Evaluator.EventAcc) (k : string) :
  k ∉ l.*2 ->
  Evaluator.eventResults (fold_left (eventKey lane val w) l acc) !! k =
  Evaluator.eventResults acc !! k.
Proof.
  revert acc. induction l as [|[i k'] l IH]; intros acc Hnotin; [reflexivity|].
  cbn in Hnotin. apply not_elem_of_cons in Hnotin as [Hne Hnotin].
  cbn [fold_left]. rewrite IH by assumption. now apply eventKey_other.
Qed.

(** The weighted value a lane leaves for a numeric key it lists once,
    when no earlier lane touched the key. *)
Lemma fold_eventKey_single (lane : Evaluator.BakedLane) (val w : num)
  (l : list (nat * string)) (acc : Evaluator.EventAcc) (i : nat) (k : string) :
  NoDup l.*2 -> (i, k) ∈ l -> Evaluator.isColorKey baked k = false ->
  Evaluator.eventResults acc !! k = None ->
  let home := Evaluator.nullish (Evaluator.homeNum baked k) (Fin 0) in
  let result :=
    Evaluator.laneResult interpolate baked lane val k
      (Evaluator.numRange (Evaluator.outputRanges lane !! i)) in
  Evaluator.eventResults (fold_left (eventKey lane val w) l acc) !! k =
  Some (home + (result - home) * w)%num.
Proof.
  intros Hnd Hin Hcol Hnone home result. revert acc Hnone.
  induction l as [|[j k'] l IH]; intros acc Hnone.
  { by apply elem_of_nil in Hin. }
  cbn in Hnd. apply NoDup_cons in Hnd as [Hk Hnd].
  rewrite elem_of_cons in Hin. destruct Hin as [Heq | Hin]; cbn [fold_left].
  - injection Heq as <- <-. rewrite fold_eventKey_other by assumption.
    unfold eventKey, Evaluator.eventKey. rewrite Hcol, Hnone. cbn.
    now rewrite lookup_insert_eq.
  - apply IH; [assumption | assumption|].
    rewrite eventKey_other; [exact Hnone|].
    intros ->. apply Hk. apply list_elem_of_fmap. now exists (i, k).
Qed.

Lemma imap_pair_elem (ks : list string) (i : nat) (k : string) :
  ks !! i = Some k -> (i, k) ∈ imap (fun i k => (i, k)) ks.
Proof.
  intros H. apply list_elem_of_lookup. exists i.
  now rewrite list_lookup_imap, H.
Qed.

Lemma imap_pair_snd (ks : list string) :
  (imap (fun i k => (i, k)) ks).*2 = ks.
Proof.
  apply list_eq. intros i.
  rewrite list_lookup_fmap, list_lookup_imap. now destruct (ks !! i).
Qed.

(** A lane without a live driver, or that does not list the key, leaves
    the key's value alone. *)
Definition idle (k : string) (entry : string * Evaluator.BakedLane) : Prop :=
  events !! entry.1 = None \/ k ∉ Evaluator.keys entry.2.

Lemma eventLane_idle (presence : num) (acc : Evaluator.EventAcc) (k : string)
  (entry : string * Evaluator.BakedLane) :
  idle k entry ->
  Evaluator.eventResults (eventLane presence acc entry) !! k =
  Evaluator.eventResults acc !! k.
Proof.
  destruct entry as [e l]. unfold idle, eventLane, Evaluator.eventLane.
  cbn [fst snd]. intros [-> | Hk]; [reflexivity|].
  destruct (events !! e); [|reflexivity].
  apply fold_eventKey_other. now rewrite imap_pair_snd.
Qed.

Lemma fold_eventLane_idle (presence : num) (lanes : list (string * Evaluator.BakedLane))
  (acc : Evaluator.EventAcc) (k : string) :
  Forall (idle k) lanes ->
  Evaluator.eventResults (fold_left (eventLane presence) lanes acc) !! k =
  Evaluator.eventResults acc !! k.
Proof.
  intros Hidle. revert acc.
  induction Hidle as [|entry lanes He _ IH]; intros acc; [reflexivity|].
  cbn [fold_left]. rewrite IH. now apply eventLane_idle.
Qed.

Lemma eventLane_live (presence : num) (acc : Evaluator.EventAcc)
  (eName : string) (lane : Evaluator.BakedLane) (val : num) :
  events !! eName = Some val ->
  eventLane presence acc (eName, lane) =
  fold_left
    (eventKey lane val (if Evaluator.lpersistent lane then Fin 1 else presence))
    (imap (fun i k => (i, k)) (Evaluator.keys lane)) acc.
Proof.
  intros Hdrv. unfold eventLane, Evaluator.eventLane. now rewrite Hdrv.
Qed.

(** The event phase of a key that one live lane lists, once. *)
Lemma eventPhase_one_lane (presence : num)
  (pre post : list (string * Evaluator.BakedLane)) (eName : string)
  (lane : Evaluator.BakedLane) (val : num) (i : nat) (k : string) :
  Evaluator.eventLanes baked = (pre ++ (eName, lane) :: post)%list ->
  Forall (idle k) (pre ++ post)%list ->
  events !! eName = Some val ->
  NoDup (Evaluator.keys lane) -> Evaluator.keys lane !! i = Some k ->
  Evaluator.isColorKey baked k = false ->
  let home := Evaluator.nullish (Evaluator.homeNum baked k) (Fin 0) in
  let result :=
    Evaluator.laneResult interpolate baked lane val k
      (Evaluator.numRange (Evaluator.outputRanges lane !! i)) in
  let w := if Evaluator.lpersistent lane then Fin 1 else presence in
  Evaluator.eventResults
    (Evaluator.eventPhase interpolate interpolateColor baked events presence)
  !! k = Some (home + (result - home) * w)%num.
Proof.
  intros Hlanes Hidle Hdrv Hnd Hk Hcol home result w.
  apply Forall_app in Hidle as [Hpre Hpost].
  change (Evaluator.eventPhase interpolate interpolateColor baked events presence)
    with (fold_left (eventLane presence) (Evaluator.eventLanes baked)
            (Evaluator.mkEventAcc ∅ ∅)).
  rewrite Hlanes, fold_left_app. cbn [fold_left].
  rewrite fold_eventLane_idle by exact Hpost.
  rewrite (eventLane_live _ _ _ _ val) by exact Hdrv.
  apply fold_eventKey_single; auto using imap_pair_elem.
  - now rewrite imap_pair_snd.
  - now rewrite fold_eventLane_idle.
Qed.

End EventPhase.

(** *** The finished style *)

Section Style.
Context (interpolate : num -> list num -> list num -> num).
Context (interpolateColor : num -> list num -> list string -> string).
Context (dimensions : Dims) (isSingleRowVal : bool).
Context (baked : Evaluator.BakedResult) (events : gmap string num).
Context (cameraX cameraY : num) (g : Evaluator.Geometry).
Hypothesis Hx : events !! "x" = Some cameraX.
Hypothesis Hy : events !! "y" = Some cameraY.
Hypothesis Hg : geometryOf dimensions baked cameraX cameraY = Some g.

Let style :=
  Evaluator.animatedStyle interpolate interpolateColor dimensions
    isSingleRowVal baked events true.
Let built :=
  builtOf interpolate interpolateColor dimensions isSingleRowVal baked events
    g cameraX cameraY.
Let tx :=
  translationX interpolate interpolateColor dimensions isSingleRowVal baked
    events g cameraX cameraY.
Let ty :=
  translationY interpolate interpolateColor dimensions isSingleRowVal baked
    events g cameraX cameraY.
Let ev :=
  eventsOf interpolate interpolateColor dimensions isSingleRowVal baked events
    cameraX cameraY.
Let sv := spatialOf interpolateColor baked g cameraX cameraY.

Lemma style_parts :
  style =
  <["transform" :=
      PArr ([("translateX", ANum (orZero tx)); ("translateY", ANum (orZero ty))]
            ++ Evaluator.transform built ++ Evaluator.baseTransform baked)]>
    (<["opacity" :=
         PNum (Evaluator.clamp01
                 (opacityBeforeClamp interpolate interpolateColor dimensions
                    isSingleRowVal baked events g cameraX cameraY))]>
       (Evaluator.props built)).
Proof.
  subst style.
  rewrite (animatedStyle_geometry _ _ _ _ _ _ cameraX cameraY Hx Hy), Hg.
  apply compose_builtOf.
Qed.

Lemma style_opacity :
  style !! "opacity" =
  Some (PNum (Evaluator.clamp01
                (opacityBeforeClamp interpolate interpolateColor dimensions
                   isSingleRowVal baked events g cameraX cameraY))).
Proof.
  rewrite style_parts. rewrite lookup_insert_ne by discriminate.
  apply lookup_insert_eq.
Qed.

Lemma style_transform :
  style !! "transform" =
  Some (PArr ([("translateX", ANum (orZero tx)); ("translateY", ANum (orZero ty))]
              ++ Evaluator.transform built ++ Evaluator.baseTransform baked)).
Proof. rewrite style_parts. apply lookup_insert_eq. Qed.

Lemma placedKey_not_opacity (k : string) : placedKey k = true -> k <> "opacity".
Proof.
  unfold placedKey. intros H ->. discriminate H.
Qed.

(** A numeric key that [allKeys.forEach] places is found in the finished
    style with its guarded value. *)
Lemma style_written (k : string) :
  k ∈ (Evaluator.numericKeys baked ++ Evaluator.colorKeys baked)%list ->
  Forall (fun k' => ~ objectName k')
    (Evaluator.numericKeys baked ++ Evaluator.colorKeys baked)%list ->
  Evaluator.isColorKey baked k = false -> placedKey k = true ->
  k <> "transform" ->
  written style k (Evaluator.ofNum (guarded baked ev sv k)).
Proof.
  intros Hin Hobj Hcol Hplaced Htr.
  assert (Forall (fun k' => ~ objectName k') (allKeys baked)) as Hall.
  { apply Forall_forall. intros k' Hk'. apply dedup_subset in Hk'.
    rewrite Forall_forall in Hobj. now apply Hobj. }
  pose proof (fold_written baked ev sv (allKeys baked)
                (Evaluator.mkBuild
                   (Evaluator.props
                      (Evaluator.mkBuild
                         (<["top" := PNum (Fin 0)]>
                            (<["left" := PNum (Fin 0)]>
                               (<["height" := default (PNum (height dimensions))
                                                (Evaluator.baseRest baked !! "height")]>
                                  (<["width" := default (PNum (width dimensions))
                                                  (Evaluator.baseRest baked !! "width")]>
                                     (<["position" := PStr "absolute"]>
                                        (Evaluator.baseRest baked))))))
                         [] (Fin 0) (Fin 0)))
                   []
                   (Evaluator.compositeNumeric baked ev "worldX"
                      (Some (Evaluator.nullish (Evaluator.numOf sv "worldX") (Fin 0))))
                   (Evaluator.compositeNumeric baked ev "worldY"
                      (Some (Evaluator.nullish (Evaluator.numOf sv "worldY") (Fin 0)))))
                k (proj1 (dedup_fresh [] _))
                (dedup_complete [] _ k Hin ltac:(apply not_elem_of_nil))
                Hall Hcol Hplaced) as Hw.
  cbv zeta in Hw. cbn [Evaluator.props] in Hw.
  change (fold_left _ (allKeys baked) _) with built in Hw.
  assert (k <> "opacity") as Hop by now apply placedKey_not_opacity.
  assert (~ objectName k) as Hk.
  { rewrite Forall_forall in Hobj. now apply Hobj. }
  eexists. split; [apply style_transform|].
  unfold writtenIn in Hw |- *.
  destruct (Str.startsWith "_tr_" k).
  - apply elem_of_app. right. apply elem_of_app. now left.
  - rewrite style_parts. destruct (Evaluator.isShadowKey k).
    + destruct Hw as (fields & Hobj' & Hf). exists fields. split; [|exact Hf].
      rewrite !lookup_insert_ne; [exact Hobj' | |];
        destruct (shadowObject_cases k) as [-> | ->]; discriminate.
    + now rewrite !lookup_insert_ne by congruence.
Qed.

End Style.

(** *** NaN and Infinity *)

Definition atomFinite (a : Atom) : Prop :=
  match a with
  | ANum n | ADeg n => Num.isFinite n = true
  | _ => True
  end.

Definition propFinite (v : PropVal) : Prop :=
  match v with
  | PAtom a => atomFinite a
  | PArr l | PObj l => Forall (fun e => atomFinite e.2) l
  end.

(** No field of the style object is NaN, +Infinity or -Infinity. *)
Definition styleFinite (p : Props) : Prop :=
  map_Forall (fun _ v => propFinite v) p.

Lemma invisible_finite : styleFinite Evaluator.invisible.
Proof.
  unfold styleFinite, Evaluator.invisible. apply map_Forall_singleton.
  reflexivity.
Qed.

(** A camera coordinate that is NaN or infinite is visible on no axis
    whose threshold is not +Infinity. *)
Lemma nonfinite_not_visible (camera home threshold : num) (unique : list num) :
  Num.isFinite camera = false -> threshold <> PInf ->
  Evaluator.isVisible camera home threshold unique = false.
Proof.
  intros Hcam Ht. unfold Evaluator.isVisible.
  assert (forall u, (Num.abs (camera - u) <? threshold)%num = false) as Hlt.
  { intros u. destruct camera; try discriminate; destruct u, threshold;
      reflexivity. }
  assert ((Num.abs (camera - home) <=? threshold)%num = false) as ->.
  { destruct camera; try discriminate; destruct home, threshold;
      try reflexivity; congruence. }
  cbn [orb]. induction unique as [|u l IH]; cbn; [reflexivity|].
  now rewrite Hlt, IH.
Qed.




(** *** Presence weighting of event lanes *)

(** Keys composed by ratio against the home value. *)
Definition multiplicative (k : string) : bool :=
  String.eqb k "opacity" || String.eqb k "_tr_scale".

(** The value of a lane weighted by presence, as the event phase computes
    it: [home + (result - home) * laneWeight]. *)
Definition weighted (h r w : num) : num := (h + (r - h) * w)%num.

(** The composition of that value with the spatial value [s] of the key,
    in the order of the source's operations: by ratio against the home
    value for [opacity] and [_tr_scale], by difference for the other
    keys. *)
Definition composed (k : string) (s h r w : num) : num :=
  if multiplicative k
  then (s * (weighted h r w / Num.or h (Fin 1)))%num
  else (s + (weighted h r w - h))%num.

(** [if (isNaN(res)) res = home] *)
Definition orHome (h c : num) : num := if Num.isNaN c then h else c.

Section Presence.
Context (interpolate : num -> list num -> list num -> num).
Context (interpolateColor : num -> list num -> list string -> string).
Context (dimensions : Dims) (isSingleRowVal : bool).
Context (baked : Evaluator.BakedResult) (events : gmap string num).
Context (cameraX cameraY : num) (g : Evaluator.Geometry).
Context (pre post : list (string * Evaluator.BakedLane)).
Context (eName : string) (lane : Evaluator.BakedLane) (val : num) (i : nat).
Context (k : string) (s h : num).
Hypothesis Hx : events !! "x" = Some cameraX.
Hypothesis Hy : events !! "y" = Some cameraY.
Hypothesis Hg : geometryOf dimensions baked cameraX cameraY = Some g.
Hypothesis Hlanes :
  Evaluator.eventLanes baked = (pre ++ (eName, lane) :: post)%list.
Hypothesis Hidle :
  forall e l, (e, l) ∈ (pre ++ post)%list ->
    (events !! e = None /\ Js.inherited e = false) \/ k ∉ Evaluator.keys l.
Hypothesis Hdrv : events !! eName = Some val.
Hypothesis Hpers : Evaluator.lpersistent lane = false.
Hypothesis Hnd : NoDup (Evaluator.keys lane).
Hypothesis Hk : Evaluator.keys lane !! i = Some k.
Hypothesis Hcol : Evaluator.isColorKey baked k = false.
Hypothesis Hhome : Evaluator.homeNum baked k = Some h.
Hypothesis Hspatial :
  Evaluator.numOf (spatialOf interpolateColor baked g cameraX cameraY) k
  = Some s.

Let style :=
  Evaluator.animatedStyle interpolate interpolateColor dimensions
    isSingleRowVal baked events true.
Let p := Evaluator.presenceOf dimensions isSingleRowVal baked cameraX cameraY.
Let r :=
  Evaluator.laneResult interpolate baked lane val k
    (Evaluator.numRange (Evaluator.outputRanges lane !! i)).
Let ev :=
  eventsOf interpolate interpolateColor dimensions isSingleRowVal baked events
    cameraX cameraY.

Lemma event_value : Evaluator.eventResults ev !! k = Some (weighted h r p).
Proof.
  subst ev. unfold eventsOf.
  rewrite (eventPhase_one_lane interpolate interpolateColor baked events _
             pre post eName lane val i k Hlanes) ; auto.
  - rewrite Hpers, Hhome. reflexivity.
  - apply Forall_forall. intros [e l] Hin.
    destruct (Hidle e l Hin) as [[Hnone _] | Hkey]; [now left | now right].
Qed.

Lemma composite_value :
  Evaluator.compositeNumeric baked ev k (Some s) = composed k s h r p.
Proof.
  unfold Evaluator.compositeNumeric. rewrite event_value, Hhome.
  reflexivity.
Qed.

Lemma opacity_weighted :
  k = "opacity" ->
  style !! "opacity" = Some (PNum (Evaluator.clamp01 (composed k s h r p))).
Proof.
  intros Hop. subst style.
  rewrite (style_opacity interpolate interpolateColor dimensions
             isSingleRowVal baked events cameraX cameraY g Hx Hy Hg).
  unfold opacityBeforeClamp. fold ev.
  rewrite <- composite_value. subst k. rewrite Hspatial. reflexivity.
Qed.

Lemma placed_weighted :
  k ∈ Evaluator.numericKeys baked -> placedKey k = true -> k <> "transform" ->
  Forall (fun k' => ~ objectName k')
    (Evaluator.numericKeys baked ++ Evaluator.colorKeys baked)%list ->
  written style k (ANum (orHome h (composed k s h r p))).
Proof.
  intros Hin Hplaced Htr Hobj.
  pose proof (style_written interpolate interpolateColor dimensions
                isSingleRowVal baked events cameraX cameraY g Hx Hy Hg k
                ltac:(apply elem_of_app; now left) Hobj Hcol Hplaced Htr)
    as Hw.
  unfold guarded in Hw. cbv zeta in Hw. fold ev in Hw.
  rewrite Hspatial, composite_value, Hhome in Hw.
  unfold orHome. now destruct (Num.isNaN (composed k s h r p)).
Qed.

End Presence.

Lemma clamp01_eq (x y : Q) :
  x == y -> 0 <= y <= 1 -> (Evaluator.clamp01 (Fin x) == Fin y)%num.
Proof.
  intros Hxy Hy. unfold Evaluator.clamp01, Num.min, Num.max.
  cbn [Num.leb].
  destruct (Qle_bool 1 x) eqn:E1; cbn [Num.leb].
  - destruct (Qle_bool 0 1) eqn:E2; q_prop; cbn [Num.eq]; lra.
  - destruct (Qle_bool 0 x) eqn:E2; q_prop; cbn [Num.eq]; lra.
Qed.


(** The fade lane of the claim: frames (0 -> opacity 1) and
    (100 -> opacity 0) over a home opacity of 1. *)
Definition fadeLane : Evaluator.BakedLane :=
  Evaluator.mkLane [Fin 0; Fin 100] [Evaluator.NumRange [Fin 1; Fin 0]]
    ["opacity"] false.

(** The opacity of the fade with the driver at 50 and the camera at
    [cx] on the home row, for any library interpolation that answers 1/2
    half-way between 1 and 0. *)
Lemma fade_opacity
  (interpolate : num -> list num -> list num -> num)
  (interpolateColor : num -> list num -> list string -> string)
  (cx : Q) (g : Evaluator.Geometry) (sq pq target : Q) :
  (interpolate (Fin 50) [Fin 0; Fin 100] [Fin 1; Fin 0] == Fin (1 # 2))%num ->
  geometryOf dims400 (bakedFade 1 1 0) (Fin cx) (Fin 0) = Some g ->
  Evaluator.numOf (spatialOf interpolateColor (bakedFade 1 1 0) g (Fin cx) (Fin 0))
    "opacity" = Some (Fin sq) ->
  Evaluator.presenceOf dims400 true (bakedFade 1 1 0) (Fin cx) (Fin 0) = Fin pq ->
  sq == 1 -> 1 + ((1 # 2) - 1) * pq == target -> 0 <= target <= 1 ->
  exists o,
    opacityOf
      (Evaluator.animatedStyle interpolate interpolateColor dims400 true
         (bakedFade 1 1 0) (eventsAt (Fin cx) (Fin 0) 50) true) = Some o /\
    (o == Fin target)%num.
Proof.
  intros Hmid Hg Hs Hp Hsq Htarget Hunit.
  pose proof (opacity_weighted interpolate interpolateColor dims400 true
                (bakedFade 1 1 0) (eventsAt (Fin cx) (Fin 0) 50)
                (Fin cx) (Fin 0) g [] [] "scrollY" fadeLane (Fin 50) 0%nat
                "opacity" (Fin sq) (Fin 1)
                eq_refl eq_refl Hg eq_refl) as Hop.
  cbv zeta in Hop.
  rewrite Hp in Hop.
  change (Evaluator.laneResult interpolate (bakedFade 1 1 0) fadeLane (Fin 50)
            "opacity"
            (Evaluator.numRange (Evaluator.outputRanges fadeLane !! 0%nat)))
    with (interpolate (Fin 50) [Fin 0; Fin 100] [Fin 1; Fin 0]) in Hop.
  destruct (interpolate (Fin 50) [Fin 0; Fin 100] [Fin 1; Fin 0]) as [| | |q];
    try contradiction.
  cbn [Num.eq] in Hmid.
  unfold opacityOf. rewrite Hop.
  - eexists. split; [reflexivity|].
    unfold composed, weighted.
    change (multiplicative "opacity") with true. cbv iota.
    change (Num.or (Fin 1) (Fin 1)) with (Fin 1).
    cbn [Num.sub Num.neg Num.add Num.mul Num.div].
    change (Qeq_bool 1 0) with false. cbv iota.
    apply clamp01_eq; [|exact Hunit].
    rewrite Hsq, Hmid, <- Htarget. field.
  - intros e l Hin. by apply elem_of_nil in Hin.
  - reflexivity.
  - reflexivity.
  - repeat constructor; set_solver.
  - reflexivity.
  - reflexivity.
  - reflexivity.
  - exact Hs.
  - reflexivity.
Qed.


Lemma card_keys_NoDup : NoDup ["opacity"; "borderRadius"; "worldX"].
Proof. apply (bool_decide_unpack _). vm_compute. exact I. Qed.

